(** * ChatGPT import plugin: the synchronization engine of [src/main.ts]

    A shallow embedding of the plugin class [ChatGPTImportPlugin] and of its
    [ImportLog], followed by the properties of the incremental
    synchronization engine.

    Conventions of the embedding.
    - A JavaScript string is a sequence of UTF-16 code units; the model uses
      [string], whose characters are the code units 0..255. In that range the
      ECMAScript line terminators are LF (10) and CR (13), and the white space
      of [\s] and [trim] is 9..13, 32 and 160.
    - [number] time stamps (epoch seconds) are integers [Z]; the code only
      compares them and hands them to [formatTimestamp].
    - Objects used as dictionaries ([conversationRecords], [importedArchives],
      the vault's path table, [existingConversations]) are [gmap]s keyed by
      strings. A conversation's [mapping] is an association list in the
      enumeration order of [for ... in] / [Object.values].
    - [async] methods are functions in a state-and-exception monad over the
      plugin instance; a rejected promise or a [throw] is [Throw message], and
      the state reached before the throw is kept, as in JavaScript.
    - [./utils] and [./types] are not among the sources: the four helpers
      imported from [./utils] are the fields of the class [Utils], and every
      definition and theorem is parametric in them. *)

From Stdlib Require Import Ascii String ZArith Lia Bool List.
From Stdlib Require Import DecimalString DecimalNat DecimalFacts.
From stdpp Require Import gmap strings list fin_maps.

Local Open Scope Z_scope.

(** ** JavaScript string primitives *)

Definition nl : string := String "010"%char "".

(** ECMAScript [LineTerminator], restricted to code units below 256. *)
Definition isLineTerminator (c : ascii) : bool :=
  Ascii.eqb c "010"%char || Ascii.eqb c "013"%char.

(** ECMAScript [\s] (white space and line terminators) below 256. *)
Definition isWhiteSpace (c : ascii) : bool :=
  let n := nat_of_ascii c in
  ((9 <=? n)%nat && (n <=? 13)%nat) || (n =? 32)%nat || (n =? 160)%nat.

(** [s.startsWith(p)] *)
Fixpoint startsWith (s p : string) {struct p} : bool :=
  match p with
  | EmptyString => true
  | String a p' =>
      match s with
      | EmptyString => false
      | String b s' => Ascii.eqb a b && startsWith s' p'
      end
  end.

(** [s.endsWith(p)]: [p] is [s] itself or a suffix of the tail of [s]. *)
Fixpoint endsWith (s p : string) : bool :=
  String.eqb s p ||
  match s with
  | EmptyString => false
  | String _ s' => endsWith s' p
  end.

(** [s.includes(p)]: [p] starts at some position of [s]. *)
Fixpoint includes (s p : string) : bool :=
  startsWith s p ||
  match s with
  | EmptyString => false
  | String _ s' => includes s' p
  end.

(** [s.slice(n)] for [0 <= n]. *)
Fixpoint dropChars (n : nat) (s : string) : string :=
  match n, s with
  | O, _ => s
  | S n', String _ s' => dropChars n' s'
  | S _, EmptyString => EmptyString
  end.

(** [s.slice(0, n)] for [0 <= n]. *)
Fixpoint takeChars (n : nat) (s : string) : string :=
  match n, s with
  | S n', String c s' => String c (takeChars n' s')
  | _, _ => EmptyString
  end.

(** [s.slice(0, -n)] for [0 < n]. *)
Definition dropLast (n : nat) (s : string) : string :=
  takeChars (String.length s - n) s.

(** [s.split(sep)] for a separator of one character. *)
Fixpoint split (sep : ascii) (s : string) : list string :=
  match s with
  | EmptyString => [EmptyString]
  | String c s' =>
      if Ascii.eqb c sep then EmptyString :: split sep s'
      else match split sep s' with
           | l :: ls => String c l :: ls
           | [] => [String c EmptyString]
           end
  end.

(** [ls.join(sep)] *)
Definition join (sep : string) (ls : list string) : string :=
  String.concat sep ls.

(** The rest of the current line: the longest prefix without a line
    terminator, which is what [.*] matches without the [s] flag. *)
Fixpoint takeLine (s : string) : string :=
  match s with
  | EmptyString => EmptyString
  | String c s' => if isLineTerminator c then EmptyString else String c (takeLine s')
  end.

Fixpoint dropLine (s : string) : string :=
  match s with
  | EmptyString => EmptyString
  | String c s' => if isLineTerminator c then s else dropLine s'
  end.

Fixpoint dropWhile (f : ascii -> bool) (s : string) : string :=
  match s with
  | EmptyString => EmptyString
  | String c s' => if f c then dropWhile f s' else s
  end.

(** [s.trim()] *)
Definition trim (s : string) : string :=
  String.rev (dropWhile isWhiteSpace (String.rev (dropWhile isWhiteSpace s))).

(** A template literal's rendering of a non-negative integer counter. *)
Definition decimal (n : nat) : string :=
  NilZero.string_of_uint (Nat.to_uint n).

(** JavaScript truthiness of an optional string: absent and empty are falsy. *)
Definition truthy (o : option string) : bool :=
  match o with
  | Some s => negb (String.eqb s "")
  | None => false
  end.

(** [o || d] on an optional string. *)
Definition orElse (o : option string) (d : string) : string :=
  match o with
  | Some s => if String.eqb s "" then d else s
  | None => d
  end.

(** ** Data model ([./types], read off the uses in [main.ts]) *)

(** An element of [content.parts]: a string, or anything else (it is dropped
    by [typeof part === 'string']). *)
Inductive Part :=
  | PartString (text : string)
  | PartOther.

(** [message.content]; [parts] is [None] when it is not an array. *)
Record Content := { parts : option (list Part) }.

(** [message.author]; [role] is [None] when the object has no [role] key. *)
Record Author := { role : option string }.

(** The fields [main.ts] reads from a message object. [msg_create_time] is
    [None] when the field is absent. *)
Record ChatMessage := {
  msg_id : option string;
  msg_author : option Author;
  msg_create_time : option Z;
  msg_content : option Content
}.

(** A value of [chat.mapping]. [generateMessagesContent] reads its [message]
    sub-object; [getNewMessages] and [createNewNote] hand the node itself to
    [isValidMessage] and [formatMessage], so [node_self] is the node object
    read as a message (its own [id], [author], [create_time], [content]). *)
Record MappingNode := {
  node_self : ChatMessage;
  node_message : option ChatMessage
}.

Record Chat := {
  chat_id : string;
  chat_title : option string;
  chat_create_time : Z;
  chat_update_time : Z;
  chat_mapping : list (string * MappingNode)
}.

Record ConversationRecord := {
  path : string;
  updateTime : Z
}.

Record PluginSettings := {
  archiveFolder : string;
  addDatePrefix : bool;
  dateFormat : string
}.

Definition DEFAULT_SETTINGS : PluginSettings :=
  {| archiveFolder := "ChatGPT Archives";
     addDatePrefix := false;
     dateFormat := "YYYY-MM-DD" |}.

(** The second argument of [formatTimestamp]. *)
Inductive TimestampFormat := FormatPrefix | FormatDate | FormatTime.

(** The helpers imported from [./utils]. *)
Class Utils := {
  formatTimestamp : Z -> TimestampFormat -> string;
  getYearMonthFolder : Z -> string;
  formatTitle : option string -> string;
  isValidMessage : ChatMessage -> bool
}.

(** ** Pure methods of the plugin *)

Section Rendering.
Context {U : Utils}.

(** [formatMessage(message)]; [now] is [Date.now() / 1000], read when the
    message has no (or a zero) creation time. *)
Definition messageTimeOf (now : Z) (message : ChatMessage) : Z :=
  match msg_create_time message with
  | Some t => if t =? 0 then now else t
  | None => now
  end.

Definition authorNameOf (message : ChatMessage) : string :=
  match msg_author message with
  | Some a =>
      match role a with
      | Some r => if String.eqb r "user" then "User" else "ChatGPT"
      | None => "Unknown"
      end
  | None => "Unknown"
  end.

Definition stringParts (ps : list Part) : list string :=
  omap (fun p => match p with PartString s => Some s | PartOther => None end) ps.

Definition formatMessage (now : Z) (message : ChatMessage) : string :=
  let t := messageTimeOf now message in
  let messageTime := formatTimestamp t FormatDate +:+ " at " +:+ formatTimestamp t FormatTime in
  let authorName := authorNameOf message in
  let headingLevel := if String.eqb authorName "User" then "###" else "####" in
  let quoteChar := if String.eqb authorName "User" then ">" else ">>" in
  let heading := headingLevel +:+ " " +:+ authorName +:+ ", on " +:+ messageTime +:+ ";" +:+ nl in
  let body :=
    match msg_content message with
    | Some {| parts := Some (p :: ps) |} =>
        let messageText := join nl (stringParts (p :: ps)) in
        join nl (map (fun line => quoteChar +:+ " " +:+ line) (split "010" messageText))
    | _ => quoteChar +:+ " [No content]"
    end in
  let marker := nl +:+ "<!-- UID: " +:+ orElse (msg_id message) "unknown" +:+ " -->" +:+ nl in
  let separator := if String.eqb authorName "ChatGPT" then nl +:+ "---" +:+ nl else "" in
  heading +:+ body +:+ marker +:+ separator +:+ nl +:+ nl.

(** [generateMessagesContent(chat)] *)
Fixpoint renderNodes (now : Z) (nodes : list (string * MappingNode)) : string :=
  match nodes with
  | [] => ""
  | (_, messageObj) :: rest =>
      match node_message messageObj with
      | Some message =>
          if isValidMessage message
          then formatMessage now message +:+ renderNodes now rest
          else renderNodes now rest
      | None => renderNodes now rest
      end
  end.

Definition generateMessagesContent (now : Z) (chat : Chat) : string :=
  renderNodes now (chat_mapping chat).

(** [generateHeader(title, conversationId, createTimeStr, updateTimeStr)] *)
Definition generateHeader (title conversationId createTimeStr updateTimeStr : string) : string :=
  "---" +:+ nl +:+
  "aliases: " +:+ title +:+ nl +:+
  "conversation_id: " +:+ conversationId +:+ nl +:+
  "create_time: " +:+ createTimeStr +:+ nl +:+
  "update_time: " +:+ updateTimeStr +:+ nl +:+
  "---" +:+ nl +:+
  nl +:+
  "# Topic: " +:+ title +:+ nl +:+
  "Created: " +:+ createTimeStr +:+ nl +:+
  "Last Updated: " +:+ updateTimeStr +:+ nl +:+ nl +:+ nl.

Definition dateAtTime (t : Z) : string :=
  formatTimestamp t FormatDate +:+ " at " +:+ formatTimestamp t FormatTime.

(** [generateMarkdownContent(chat)] *)
Definition generateMarkdownContent (now : Z) (chat : Chat) : string :=
  let formattedTitle := formatTitle (chat_title chat) in
  let create_time_str := dateAtTime (chat_create_time chat) in
  let update_time_str := dateAtTime (chat_update_time chat) in
  generateHeader formattedTitle (chat_id chat) create_time_str update_time_str
  +:+ generateMessagesContent now chat.

(** *** Marker extraction *)

(** The lazy group [(.*?)] followed by [ -->]: the shortest run of characters
    other than line terminators after which [ -->] stands. Returns the capture
    and the text after the match. *)
Fixpoint lazyCapture (s : string) : option (string * string) :=
  if startsWith s " -->" then Some (EmptyString, dropChars 4 s)
  else match s with
       | EmptyString => None
       | String c s' =>
           if isLineTerminator c then None
           else match lazyCapture s' with
                | Some (capture, rest) => Some (String c capture, rest)
                | None => None
                end
       end.

(** One attempt of [/<!-- UID: (.*?) -->/] at the start of [s]. *)
Definition matchUID (s : string) : option (string * string) :=
  if startsWith s "<!-- UID: " then lazyCapture (dropChars 10 s) else None.

(** The [while ((match = uidRegex.exec(content)) !== null)] loop: the global
    regular expression resumes after the previous match; where no match starts
    the search moves one character on. [fuel] bounds the characters left. *)
Fixpoint execAll (fuel : nat) (s : string) : list string :=
  match fuel with
  | O => []
  | S fuel' =>
      match matchUID s with
      | Some (capture, rest) => capture :: execAll fuel' rest
      | None =>
          match s with
          | EmptyString => []
          | String _ s' => execAll fuel' s'
          end
      end
  end.

(** [extractMessageUIDsFromNote(content)] *)
Definition extractMessageUIDsFromNote (content : string) : list string :=
  execAll (String.length content) content.

(** *** Merge candidates *)

(** [existingMessageIds.includes(id)] *)
Definition includesId (ids : list string) (i : string) : bool :=
  existsb (String.eqb i) ids.

(** [getNewMessages(chat, existingMessageIds)]: the filter runs over
    [Object.values(chat.mapping)], that is over the nodes themselves. *)
Definition getNewMessages (chat : Chat) (existingMessageIds : list string) : list ChatMessage :=
  filter (fun message =>
            truthy (msg_id message)
            && negb (includesId existingMessageIds (default "" (msg_id message)))
            && isValidMessage message)
         (map (fun kv => node_self (snd kv)) (chat_mapping chat)).

(** [formatNewMessages(messages)] *)
Definition formatNewMessages (now : Z) (messages : list ChatMessage) : string :=
  join (nl +:+ nl)
       (filter (fun formattedMessage => negb (String.eqb formattedMessage ""))
               (map (formatMessage now) messages)).

(** *** Metadata rewrite *)

(** ECMAScript [GetSubstitution] for a pattern without capture groups: [$$],
    [$&], [$`] and [$'] are expanded, every other character is copied. *)
Fixpoint getSubstitution (matched before after replacement : string) : string :=
  match replacement with
  | EmptyString => EmptyString
  | String c r' =>
      if Ascii.eqb c "$" then
        match r' with
        | String d r'' =>
            if Ascii.eqb d "$" then String "$" (getSubstitution matched before after r'')
            else if Ascii.eqb d "&" then matched +:+ getSubstitution matched before after r''
            else if Ascii.eqb d "`" then before +:+ getSubstitution matched before after r''
            else if Ascii.eqb d "'" then after +:+ getSubstitution matched before after r''
            else String c (getSubstitution matched before after r')
        | EmptyString => String c EmptyString
        end
      else String c (getSubstitution matched before after r')
  end.

(** [content.replace(/^label.*$/m, replacement)] for a [label] without line
    terminators: the first position at the start of a line where [label]
    stands matches, up to the end of that line. [before] is the text already
    passed, [lineStart] says whether [^] holds here. *)
Fixpoint replaceLine (label replacement before : string) (lineStart : bool) (s : string) : string :=
  if lineStart && startsWith s label
  then getSubstitution (takeLine s) before (dropLine s) replacement +:+ dropLine s
  else match s with
       | EmptyString => EmptyString
       | String c s' =>
           String c (replaceLine label replacement (before +:+ String c "") (isLineTerminator c) s')
       end.

(** [updateMetadata(content, updateTime)] *)
Definition updateMetadata (content : string) (updateTime : Z) : string :=
  let updateTimeStr := dateAtTime updateTime in
  let content := replaceLine "update_time: " ("update_time: " +:+ updateTimeStr) "" true content in
  replaceLine "Last Updated: " ("Last Updated: " +:+ updateTimeStr) "" true content.

(** *** File names *)

(** [getFileName(chat)] *)
Definition getFileName (settings : PluginSettings) (chat : Chat) : string :=
  let fileName := formatTitle (chat_title chat) in
  let fileName :=
    if addDatePrefix settings
    then formatTimestamp (chat_create_time chat) FormatPrefix +:+ " - " +:+ fileName
    else fileName in
  fileName +:+ ".md".

(** The test of the [while] loop of [getUniqueFileName]. *)
Definition nameTaken (existingConversations : gmap string string)
    (folderPath potentialFileName : string) : bool :=
  existsb (fun existingFile => includes existingFile folderPath
                               && endsWith existingFile potentialFileName)
          (map snd (map_to_list existingConversations)).

(** The [while] loop of [getUniqueFileName]; [None] when [fuel] runs out. *)
Fixpoint uniqueLoop (taken : string -> bool) (candidate : nat -> string)
    (fuel counter : nat) (potentialFileName : string) : option string :=
  if taken potentialFileName then
    match fuel with
    | O => None
    | S fuel' => uniqueLoop taken candidate fuel' (S counter) (candidate counter)
    end
  else Some potentialFileName.

Definition numbered (fileName : string) (counter : nat) : string :=
  dropLast 3 fileName +:+ " (" +:+ decimal counter +:+ ").md".

(** [getUniqueFileName(chat, folderPath, existingConversations)]. Every
    existing path blocks at most one counter, so one round more than there are
    paths is enough ([getUniqueFileName_loop_returns]). *)
Definition getUniqueFileName (settings : PluginSettings) (chat : Chat) (folderPath : string)
    (existingConversations : gmap string string) : string :=
  let fileName := getFileName settings chat in
  default fileName
    (uniqueLoop (nameTaken existingConversations folderPath) (numbered fileName)
                (S (size existingConversations)) 1%nat fileName).

End Rendering.

(** ** The import log ([class ImportLog]) *)

Record LogEntry := {
  title : string;
  filePath : string;
  createDate : string;
  updateDate : string;
  reason : option string;
  errorMessage : option string
}.

Record ImportLog := {
  created : list LogEntry;
  updated : list LogEntry;
  skipped : list LogEntry;
  errors : list LogEntry;
  failed : list LogEntry;
  globalErrors : list (string * string);
  summary : option string
}.

(** [new ImportLog()] *)
Definition newImportLog : ImportLog :=
  {| created := []; updated := []; skipped := []; errors := []; failed := [];
     globalErrors := []; summary := None |}.

Definition addCreated (t p c u : string) (l : ImportLog) : ImportLog :=
  {| created := created l ++ [{| title := t; filePath := p; createDate := c; updateDate := u;
                                 reason := None; errorMessage := None |}];
     updated := updated l; skipped := skipped l; errors := errors l; failed := failed l;
     globalErrors := globalErrors l; summary := summary l |}.

Definition addUpdated (t p c u : string) (l : ImportLog) : ImportLog :=
  {| created := created l;
     updated := updated l ++ [{| title := t; filePath := p; createDate := c; updateDate := u;
                                 reason := None; errorMessage := None |}];
     skipped := skipped l; errors := errors l; failed := failed l;
     globalErrors := globalErrors l; summary := summary l |}.

Definition addSkipped (t p c u r : string) (l : ImportLog) : ImportLog :=
  {| created := created l; updated := updated l;
     skipped := skipped l ++ [{| title := t; filePath := p; createDate := c; updateDate := u;
                                 reason := Some r; errorMessage := None |}];
     errors := errors l; failed := failed l;
     globalErrors := globalErrors l; summary := summary l |}.

Definition addFailed (t p c u e : string) (l : ImportLog) : ImportLog :=
  {| created := created l; updated := updated l; skipped := skipped l; errors := errors l;
     failed := failed l ++ [{| title := t; filePath := p; createDate := c; updateDate := u;
                               reason := None; errorMessage := Some e |}];
     globalErrors := globalErrors l; summary := summary l |}.

(** [addError(message, details)] pushes onto [globalErrors]. *)
Definition addError (message details : string) (l : ImportLog) : ImportLog :=
  {| created := created l; updated := updated l; skipped := skipped l; errors := errors l;
     failed := failed l;
     globalErrors := globalErrors l ++ [(message, details)]; summary := summary l |}.

Definition addSummary (totalExisting totalNew totalUpdated totalMessagesAdded : nat)
    (l : ImportLog) : ImportLog :=
  {| created := created l; updated := updated l; skipped := skipped l; errors := errors l;
     failed := failed l; globalErrors := globalErrors l;
     summary := Some (nl +:+ "Summary:" +:+ nl +:+
                      "- Existing conversations: " +:+ decimal totalExisting +:+ nl +:+
                      "- New conversations imported: " +:+ decimal totalNew +:+ nl +:+
                      "- Conversations updated: " +:+ decimal totalUpdated +:+ nl +:+
                      "- New messages added: " +:+ decimal totalMessagesAdded +:+ nl) |}.

(** [hasErrors()] reads [errors] and [failed]. *)
Definition hasErrors (l : ImportLog) : bool :=
  (0 <? length (errors l))%nat || (0 <? length (failed l))%nat.

(** [title.replace(/\n/g, ' ')] *)
Fixpoint newlinesToSpaces (s : string) : string :=
  match s with
  | EmptyString => EmptyString
  | String c s' => String (if Ascii.eqb c "010" then " "%char else c) (newlinesToSpaces s')
  end.

(** The five pictograms of the legend, as the bytes of their UTF-8 form. *)
Definition emojiCreated : string := "✨".
Definition emojiUpdated : string := "🔄".
Definition emojiSkipped : string := "⏭️".
Definition emojiFailed : string := "🚫".
Definition emojiGlobal : string := "⚠️".

Definition generateTable (heading : string) (entries : list LogEntry) (emoji : string) : string :=
  "## " +:+ heading +:+ nl +:+ nl +:+
  "| | Title | Created | Updated |" +:+ nl +:+
  "|---|:---|:---:|:---:|" +:+ nl +:+
  fold_right (fun entry rest =>
                "| " +:+ emoji +:+ " | [[" +:+ filePath entry +:+ "\|"
                +:+ trim (newlinesToSpaces (title entry)) +:+ "]] | "
                +:+ createDate entry +:+ " | " +:+ updateDate entry +:+ " |" +:+ nl +:+ rest)
             "" entries
  +:+ nl +:+ nl.

Definition generateErrorTable (heading : string) (entries : list (string * string))
    (emoji : string) : string :=
  "## " +:+ heading +:+ nl +:+ nl +:+
  "| | Error | Details |" +:+ nl +:+
  "|---|:---|:---|" +:+ nl +:+
  fold_right (fun entry rest =>
                "| " +:+ emoji +:+ " | " +:+ fst entry +:+ " | " +:+ snd entry +:+ " |"
                +:+ nl +:+ rest)
             "" entries
  +:+ nl +:+ nl.

Definition whenNonEmpty {A} (l : list A) (s : string) : string :=
  match l with [] => "" | _ :: _ => s end.

Definition generateLogContent (l : ImportLog) : string :=
  "# ChatGPT Import Log" +:+ nl +:+ nl +:+
  match summary l with Some s => s +:+ nl +:+ nl | None => "" end +:+
  "## Legend" +:+ nl +:+
  emojiCreated +:+ " Created | " +:+ emojiUpdated +:+ " Updated | " +:+ emojiSkipped
    +:+ " Skipped | " +:+ emojiFailed +:+ " Failed | " +:+ emojiGlobal +:+ " Global Errors"
    +:+ nl +:+ nl +:+
  "## Table of Contents" +:+ nl +:+
  whenNonEmpty (created l) ("- [Created Notes](#created-notes)" +:+ nl) +:+
  whenNonEmpty (updated l) ("- [Updated Notes](#updated-notes)" +:+ nl) +:+
  whenNonEmpty (skipped l) ("- [Skipped Notes](#skipped-notes)" +:+ nl) +:+
  whenNonEmpty (failed l) ("- [Failed Imports](#failed-imports)" +:+ nl) +:+
  whenNonEmpty (globalErrors l) ("- [Global Errors](#global-errors)" +:+ nl) +:+
  nl +:+
  whenNonEmpty (created l) (generateTable "Created Notes" (created l) emojiCreated) +:+
  whenNonEmpty (updated l) (generateTable "Updated Notes" (updated l) emojiUpdated) +:+
  whenNonEmpty (skipped l) (generateTable "Skipped Notes" (skipped l) emojiSkipped) +:+
  whenNonEmpty (failed l) (generateTable "Failed Imports" (failed l) emojiFailed) +:+
  whenNonEmpty (globalErrors l) (generateErrorTable "Global Errors" (globalErrors l) emojiGlobal).

(** ** The plugin instance and its host *)

Record Counters := {
  totalExistingConversations : nat;
  totalNewConversationsToImport : nat;
  totalNonEmptyMessagesToImport : nat;
  totalNonEmptyMessagesToAdd : nat;
  totalExistingConversationsToUpdate : nat;
  totalNewConversationsSuccessfullyImported : nat;
  totalConversationsActuallyUpdated : nat;
  totalNonEmptyMessagesAdded : nat
}.

(** What [vault.getAbstractFileByPath] finds at a path. *)
Inductive AbstractFile :=
  | TFile (content : string)
  | TFolder.

Record ArchiveInfo := {
  fileName : string;
  date : string
}.

(** The fields of [ChatGPTImportPlugin], with the vault of [this.app], the
    data last handed to [saveData] and the notices shown so far. *)
Record Plugin := {
  settings : PluginSettings;
  importLog : ImportLog;
  importedArchives : gmap string ArchiveInfo;
  conversationRecords : gmap string ConversationRecord;
  counters : Counters;
  vault : gmap string AbstractFile;
  savedData : option (PluginSettings * gmap string ArchiveInfo * gmap string ConversationRecord);
  notices : list string
}.

(** What the host decides during one run: the clock, the answer to the
    confirmation dialog, and which vault operations reject (with which
    message). *)
Record Host := {
  clock : Z;
  isoDate : string;
  confirmAnswer : bool;
  createFolderError : string -> option string;
  createError : string -> option string;
  modifyError : string -> option string;
  processError : string -> option string
}.

(** The contents of the zip archive as [JSZip] and [JSON.parse] give them:
    a failure message, or the value. *)
Record Zip := {
  zipFileNames : list string;
  conversationsJson : string + list Chat
}.

Record File := {
  file_name : string;
  file_hash : string;
  file_zip : string + Zip
}.

Definition setImportLog (l : ImportLog) (p : Plugin) : Plugin :=
  {| settings := settings p; importLog := l; importedArchives := importedArchives p;
     conversationRecords := conversationRecords p; counters := counters p;
     vault := vault p; savedData := savedData p; notices := notices p |}.

Definition setImportedArchives (m : gmap string ArchiveInfo) (p : Plugin) : Plugin :=
  {| settings := settings p; importLog := importLog p; importedArchives := m;
     conversationRecords := conversationRecords p; counters := counters p;
     vault := vault p; savedData := savedData p; notices := notices p |}.

Definition setConversationRecords (m : gmap string ConversationRecord) (p : Plugin) : Plugin :=
  {| settings := settings p; importLog := importLog p; importedArchives := importedArchives p;
     conversationRecords := m; counters := counters p;
     vault := vault p; savedData := savedData p; notices := notices p |}.

Definition setCounters (c : Counters) (p : Plugin) : Plugin :=
  {| settings := settings p; importLog := importLog p; importedArchives := importedArchives p;
     conversationRecords := conversationRecords p; counters := c;
     vault := vault p; savedData := savedData p; notices := notices p |}.

Definition setVault (v : gmap string AbstractFile) (p : Plugin) : Plugin :=
  {| settings := settings p; importLog := importLog p; importedArchives := importedArchives p;
     conversationRecords := conversationRecords p; counters := counters p;
     vault := v; savedData := savedData p; notices := notices p |}.

Definition setSavedData
    (d : option (PluginSettings * gmap string ArchiveInfo * gmap string ConversationRecord))
    (p : Plugin) : Plugin :=
  {| settings := settings p; importLog := importLog p; importedArchives := importedArchives p;
     conversationRecords := conversationRecords p; counters := counters p;
     vault := vault p; savedData := d; notices := notices p |}.

Definition setNotices (n : list string) (p : Plugin) : Plugin :=
  {| settings := settings p; importLog := importLog p; importedArchives := importedArchives p;
     conversationRecords := conversationRecords p; counters := counters p;
     vault := vault p; savedData := savedData p; notices := n |}.

(** The counter updates of the plugin. *)
Definition incrNewToImport (c : Counters) : Counters :=
  {| totalExistingConversations := totalExistingConversations c;
     totalNewConversationsToImport := S (totalNewConversationsToImport c);
     totalNonEmptyMessagesToImport := totalNonEmptyMessagesToImport c;
     totalNonEmptyMessagesToAdd := totalNonEmptyMessagesToAdd c;
     totalExistingConversationsToUpdate := totalExistingConversationsToUpdate c;
     totalNewConversationsSuccessfullyImported := totalNewConversationsSuccessfullyImported c;
     totalConversationsActuallyUpdated := totalConversationsActuallyUpdated c;
     totalNonEmptyMessagesAdded := totalNonEmptyMessagesAdded c |}.

Definition incrToUpdate (c : Counters) : Counters :=
  {| totalExistingConversations := totalExistingConversations c;
     totalNewConversationsToImport := totalNewConversationsToImport c;
     totalNonEmptyMessagesToImport := totalNonEmptyMessagesToImport c;
     totalNonEmptyMessagesToAdd := totalNonEmptyMessagesToAdd c;
     totalExistingConversationsToUpdate := S (totalExistingConversationsToUpdate c);
     totalNewConversationsSuccessfullyImported := totalNewConversationsSuccessfullyImported c;
     totalConversationsActuallyUpdated := totalConversationsActuallyUpdated c;
     totalNonEmptyMessagesAdded := totalNonEmptyMessagesAdded c |}.

Definition noteImported (validMessages : nat) (c : Counters) : Counters :=
  {| totalExistingConversations := totalExistingConversations c;
     totalNewConversationsToImport := totalNewConversationsToImport c;
     totalNonEmptyMessagesToImport := (totalNonEmptyMessagesToImport c + validMessages)%nat;
     totalNonEmptyMessagesToAdd := totalNonEmptyMessagesToAdd c;
     totalExistingConversationsToUpdate := totalExistingConversationsToUpdate c;
     totalNewConversationsSuccessfullyImported :=
       S (totalNewConversationsSuccessfullyImported c);
     totalConversationsActuallyUpdated := totalConversationsActuallyUpdated c;
     totalNonEmptyMessagesAdded := totalNonEmptyMessagesAdded c |}.

Definition noteUpdated (addedMessages : nat) (c : Counters) : Counters :=
  {| totalExistingConversations := totalExistingConversations c;
     totalNewConversationsToImport := totalNewConversationsToImport c;
     totalNonEmptyMessagesToImport := totalNonEmptyMessagesToImport c;
     totalNonEmptyMessagesToAdd := totalNonEmptyMessagesToAdd c;
     totalExistingConversationsToUpdate := totalExistingConversationsToUpdate c;
     totalNewConversationsSuccessfullyImported := totalNewConversationsSuccessfullyImported c;
     totalConversationsActuallyUpdated := S (totalConversationsActuallyUpdated c);
     totalNonEmptyMessagesAdded := (totalNonEmptyMessagesAdded c + addedMessages)%nat |}.

(** [initializeCounters(existingConversations)] *)
Definition initialCounters (existing : nat) : Counters :=
  {| totalExistingConversations := existing;
     totalNewConversationsToImport := 0;
     totalNonEmptyMessagesToImport := 0;
     totalNonEmptyMessagesToAdd := 0;
     totalExistingConversationsToUpdate := 0;
     totalNewConversationsSuccessfullyImported := 0;
     totalConversationsActuallyUpdated := 0;
     totalNonEmptyMessagesAdded := 0 |}.

(** ** Asynchronous methods: state and exceptions *)

Inductive Outcome (A : Type) :=
  | Return (value : A)
  | Throw (error : string).
Arguments Return {A} value.
Arguments Throw {A} error.

Definition Async (A : Type) : Type := Plugin -> Outcome A * Plugin.

Definition ret {A} (a : A) : Async A := fun p => (Return a, p).

Definition throw {A} (error : string) : Async A := fun p => (Throw error, p).

Definition bind {A B} (m : Async A) (k : A -> Async B) : Async B :=
  fun p => match m p with
           | (Return a, p') => k a p'
           | (Throw e, p') => (Throw e, p')
           end.

(** [try { m } catch (error) { handler(error.message) }] *)
Definition tryCatch {A} (m : Async A) (handler : string -> Async A) : Async A :=
  fun p => match m p with
           | (Return a, p') => (Return a, p')
           | (Throw e, p') => handler e p'
           end.

(** [try { m } finally { final }]: [final] runs on both exits; the outcome of
    [m] is kept unless [final] throws. *)
Definition tryFinally {A} (m : Async A) (final : Async unit) : Async A :=
  fun p => match m p with
           | (r, p') => match final p' with
                        | (Return _, p'') => (r, p'')
                        | (Throw e, p'') => (Throw e, p'')
                        end
           end.

Definition update (f : Plugin -> Plugin) : Async unit := fun p => (Return tt, f p).

Definition get {A} (f : Plugin -> A) : Async A := fun p => (Return (f p), p).

Notation "x <- m ;; k" := (bind m (fun x => k))
  (at level 100, m at next level, right associativity).
Notation "m ;; k" := (bind m (fun _ => k))
  (at level 100, right associativity).

(** The state a method ends in, whatever its outcome. *)
Definition exec {A} (m : Async A) (p : Plugin) : Plugin := snd (m p).

(** ** The methods of the plugin *)

Section Engine.
Context {U : Utils}.
Variable host : Host.

(** [logError(message, details)]: the console apart, [importLog.addError]. *)
Definition logError (message details : string) : Async unit :=
  update (fun p => setImportLog (addError message details (importLog p)) p).

(** [new Notice(text)] *)
Definition notice (text : string) : Async unit :=
  update (fun p => setNotices (notices p ++ [text]) p).

(** [saveSettings()] *)
Definition saveSettings : Async unit :=
  update (fun p => setSavedData
                     (Some (settings p, importedArchives p, conversationRecords p)) p).

Definition orUntitled (chat : Chat) : string := orElse (chat_title chat) "Untitled".

Definition dateAndTime (t : Z) : string :=
  formatTimestamp t FormatDate +:+ " " +:+ formatTimestamp t FormatTime.

(** The [for (const folder of folders)] loop of [ensureFolderExists]; the
    result is [None] for [{ success: true }] and [Some error] otherwise. *)
Fixpoint ensureFolders (currentPath : string) (folders : list string) : Async (option string) :=
  match folders with
  | [] => ret None
  | folder :: rest =>
      let currentPath := currentPath +:+ folder +:+ "/" in
      currentFolder <- get (fun p => vault p !! currentPath) ;;
      match currentFolder with
      | None =>
          match createFolderError host currentPath with
          | Some error =>
              if String.eqb error "Folder already exists."
              then ensureFolders currentPath rest
              else logError ("Failed to create folder: " +:+ currentPath) error ;;
                   ret (Some ("Failed to create folder: " +:+ currentPath
                              +:+ ". Reason: " +:+ error))
          | None =>
              update (fun p => setVault (<[currentPath := TFolder]> (vault p)) p) ;;
              ensureFolders currentPath rest
          end
      | Some TFolder => ensureFolders currentPath rest
      | Some (TFile _) => ret (Some ("Path exists but is not a folder: " +:+ currentPath))
      end
  end.

(** [ensureFolderExists(folderPath)] *)
Definition ensureFolderExists (folderPath : string) : Async (option string) :=
  ensureFolders "" (filter (fun p => negb (String.eqb p "")) (split "/" folderPath)).

(** [createFolderForChat(chat)] *)
Definition createFolderForChat (chat : Chat) : Async string :=
  archive <- get (fun p => archiveFolder (settings p)) ;;
  let folderPath := archive +:+ "/" +:+ getYearMonthFolder (chat_create_time chat) in
  folderResult <- ensureFolderExists folderPath ;;
  match folderResult with
  | Some error =>
      throw ("Failed to create or access folder: " +:+ folderPath +:+ ". " +:+ error)
  | None => ret folderPath
  end.

(** [vault.modify(file, content)] and [vault.create(path, content)]; creating
    over a folder is rejected by the vault. *)
Definition vaultModify (filePath content : string) : Async unit :=
  match modifyError host filePath with
  | Some error => throw error
  | None => update (fun p => setVault (<[filePath := TFile content]> (vault p)) p)
  end.

Definition vaultCreate (filePath content : string) : Async unit :=
  match createError host filePath with
  | Some error => throw error
  | None =>
      existing <- get (fun p => vault p !! filePath) ;;
      match existing with
      | Some _ => throw "File already exists."
      | None => update (fun p => setVault (<[filePath := TFile content]> (vault p)) p)
      end
  end.

(** [writeToFile(fileName, content)] *)
Definition writeToFile (fileName content : string) : Async unit :=
  tryCatch
    (file <- get (fun p => vault p !! fileName) ;;
     match file with
     | Some (TFile _) => vaultModify fileName content
     | _ => vaultCreate fileName content
     end)
    (fun error =>
       logError ("Error creating or modifying file '" +:+ fileName +:+ "'") error ;;
       throw error).

(** [createNewNote(chat, folderPath, existingConversations)]. In the [catch]
    block the arguments of [importLog.addFailed] name [filePath], a [const] of
    the [try] block that is out of scope there: evaluating them throws a
    [ReferenceError] before [addFailed] and the final [throw error] are
    reached. *)
Definition createNewNote (chat : Chat) (folderPath : string)
    (existingConversations : gmap string string) : Async unit :=
  tryCatch
    (cfg <- get settings ;;
     let fileName := getUniqueFileName cfg chat folderPath existingConversations in
     let filePath := folderPath +:+ "/" +:+ fileName in
     let content := generateMarkdownContent (clock host) chat in
     writeToFile filePath content ;;
     update (fun p => setImportLog
                        (addCreated (orUntitled chat) filePath
                                    (dateAndTime (chat_create_time chat))
                                    (dateAndTime (chat_update_time chat))
                                    (importLog p)) p) ;;
     update (fun p => setCounters
                        (noteImported
                           (length (filter (fun kv => isValidMessage (node_self (snd kv)))
                                           (chat_mapping chat)))
                           (counters p)) p))
    (fun error =>
       logError "Error creating new note" error ;;
       throw "filePath is not defined").

(** [vault.process(file, fn)]: reads the file, applies [fn] and writes the
    result back in one step; when the vault rejects, [fn] has not run. *)
Definition updateExistingNote (chat : Chat) (filePath : string) : Async unit :=
  tryCatch
    (file <- get (fun p => vault p !! filePath) ;;
     match file with
     | Some (TFile content) =>
         match processError host filePath with
         | Some error => throw error
         | None =>
             let existingMessageIds := extractMessageUIDsFromNote content in
             let newMessages := getNewMessages chat existingMessageIds in
             let content := updateMetadata content (chat_update_time chat) in
             let content := content +:+ formatNewMessages (clock host) newMessages in
             update (fun p => setCounters (noteUpdated (length newMessages) (counters p)) p) ;;
             update (fun p => setVault (<[filePath := TFile content]> (vault p)) p)
         end ;;
         update (fun p => setImportLog
                            (addUpdated (orUntitled chat) filePath
                                        (dateAndTime (chat_create_time chat))
                                        (dateAndTime (chat_update_time chat))
                                        (importLog p)) p)
     | _ => ret tt
     end)
    (fun error =>
       logError "Error updating existing note" error ;;
       update (fun p => setImportLog
                          (addFailed (orUntitled chat) filePath
                                     (dateAndTime (chat_create_time chat))
                                     (dateAndTime (chat_update_time chat))
                                     error (importLog p)) p)).

(** [handleExistingChat(chat, existingRecord, folderPath)] *)
Definition handleExistingChat (chat : Chat) (existingRecord : ConversationRecord)
    (folderPath : string) : Async unit :=
  if updateTime existingRecord >=? chat_update_time chat then
    update (fun p => setImportLog
                       (addSkipped (orUntitled chat) (path existingRecord)
                                   (formatTimestamp (chat_create_time chat) FormatDate)
                                   (formatTimestamp (chat_update_time chat) FormatDate)
                                   "No Updates" (importLog p)) p)
  else
    update (fun p => setCounters (incrToUpdate (counters p)) p) ;;
    updateExistingNote chat (path existingRecord).

(** [handleNewChat(chat, folderPath, existingConversations)] *)
Definition handleNewChat (chat : Chat) (folderPath : string)
    (existingConversations : gmap string string) : Async unit :=
  update (fun p => setCounters (incrNewToImport (counters p)) p) ;;
  createNewNote chat folderPath existingConversations.

(** [updateConversationRecord(chat, folderPath)] *)
Definition updateConversationRecord (chat : Chat) (folderPath : string) : Async unit :=
  update (fun p =>
            setConversationRecords
              (<[chat_id chat :=
                   {| path := folderPath +:+ "/" +:+ getFileName (settings p) chat;
                      updateTime := chat_update_time chat |}]>
                 (conversationRecords p)) p).

(** [processSingleChat(chat, existingConversations)] *)
Definition processSingleChat (chat : Chat) (existingConversations : gmap string string)
    : Async unit :=
  tryCatch
    (folderPath <- createFolderForChat chat ;;
     existingRecord <- get (fun p => conversationRecords p !! chat_id chat) ;;
     match existingRecord with
     | Some record => handleExistingChat chat record folderPath
     | None => handleNewChat chat folderPath existingConversations
     end ;;
     updateConversationRecord chat folderPath)
    (fun chatError =>
       logError ("Error processing chat: " +:+ orUntitled chat) chatError).

(** The [for (const chat of chats)] loop of [processConversations]. *)
Fixpoint processChats (chats : list Chat) (existingConversations : gmap string string)
    : Async unit :=
  match chats with
  | [] => ret tt
  | chat :: rest =>
      processSingleChat chat existingConversations ;;
      processChats rest existingConversations
  end.

(** [extractChatsFromZip(zip)] *)
Definition extractChatsFromZip (zip : Zip) : Async (list Chat) :=
  if existsb (String.eqb "conversations.json") (zipFileNames zip) then
    match conversationsJson zip with
    | inl syntaxError => throw syntaxError
    | inr chats => ret chats
    end
  else throw "Cannot read properties of null (reading 'async')".

(** The regular expression [/^---\s*conversation_id:\s*(.*?)\s*---/ms] of
    [getAllExistingConversations]. [lazyUntilDashes] is [(.*?)\s*---] with
    the [s] flag: the shortest text after which white space and [---] stand. *)
Fixpoint lazyUntilDashes (s : string) : option string :=
  if startsWith (dropWhile isWhiteSpace s) "---" then Some EmptyString
  else match s with
       | EmptyString => None
       | String c s' => String c <$> lazyUntilDashes s'
       end.

Definition matchConversationId (s : string) : option string :=
  if startsWith s "---" then
    let afterDashes := dropWhile isWhiteSpace (dropChars 3 s) in
    if startsWith afterDashes "conversation_id:"
    then lazyUntilDashes (dropWhile isWhiteSpace (dropChars 16 afterDashes))
    else None
  else None.

Fixpoint searchConversationId (lineStart : bool) (s : string) : option string :=
  match (if lineStart then matchConversationId s else None) with
  | Some capture => Some capture
  | None =>
      match s with
      | EmptyString => None
      | String c s' => searchConversationId (isLineTerminator c) s'
      end
  end.

(** [getAllExistingConversations()]: the markdown files of the vault, in the
    order of the path table. *)
Definition getAllExistingConversations : Async (gmap string string) :=
  get (fun p =>
         fold_left
           (fun conversations entry =>
              match entry with
              | (filePath, TFile fileContent) =>
                  if endsWith filePath ".md" then
                    match searchConversationId true fileContent with
                    | Some capture => <[trim capture := filePath]> conversations
                    | None => conversations
                    end
                  else conversations
              | (_, TFolder) => conversations
              end)
           (map_to_list (vault p)) ∅).

(** [updateImportLog()] *)
Definition updateImportLog : Async unit :=
  update (fun p =>
            let c := counters p in
            setImportLog
              (addSummary (totalExistingConversations c)
                          (totalNewConversationsSuccessfullyImported c)
                          (totalConversationsActuallyUpdated c)
                          (totalNonEmptyMessagesAdded c)
                          (importLog p)) p).

(** [processConversations(zip, file)] *)
Definition processConversations (zip : Zip) (file : File) : Async unit :=
  tryCatch
    (chats <- extractChatsFromZip zip ;;
     existingConversations <- getAllExistingConversations ;;
     update (setCounters (initialCounters (size existingConversations))) ;;
     processChats chats existingConversations ;;
     updateImportLog)
    (fun error => logError "Error processing conversations" error).

(** [validateZipFile(file)]: a [ChatGPTImportError] thrown inside the [try]
    is rethrown as it is; any other error is wrapped in one whose message is
    [Error validating zip file]. *)
Definition validateZipFile (file : File) : Async Zip :=
  match file_zip file with
  | inl _ => throw "Error validating zip file"
  | inr zip =>
      if existsb (String.eqb "conversations.json") (zipFileNames zip)
      then ret zip
      else throw "Invalid ZIP structure"
  end.

Definition logName (stamp : string) (counter : option nat) : string :=
  match counter with
  | None => stamp +:+ " - ChatGPT Import log.md"
  | Some n => stamp +:+ "-" +:+ decimal n +:+ " - ChatGPT Import log.md"
  end.

(** [writeImportLog(zipFileName)] *)
Definition writeImportLog (zipFileName : string) : Async unit :=
  let stamp := formatTimestamp (clock host) FormatPrefix in
  archive <- get (fun p => archiveFolder (settings p)) ;;
  let logFolderPath := archive +:+ "/logs" in
  folderResult <- ensureFolderExists logFolderPath ;;
  match folderResult with
  | Some error =>
      logError ("Failed to create or access log folder: " +:+ logFolderPath) error ;;
      notice "Failed to create log file. Check console for details."
  | None =>
      files <- get vault ;;
      let first := logFolderPath +:+ "/" +:+ logName stamp None in
      let logFilePath :=
        default first
          (uniqueLoop (fun candidate => bool_decide (is_Some (files !! candidate)))
                      (fun counter => logFolderPath +:+ "/" +:+ logName stamp (Some counter))
                      (S (size files)) 1%nat first) in
      let currentDate := dateAndTime (clock host) in
      log <- get importLog ;;
      let logContent :=
        "---" +:+ nl +:+
        "importdate: " +:+ currentDate +:+ nl +:+
        "zipFile: " +:+ zipFileName +:+ nl +:+
        "totalSuccessfulImports: " +:+ decimal (length (created log)) +:+ nl +:+
        "totalUpdatedImports: " +:+ decimal (length (updated log)) +:+ nl +:+
        "totalSkippedImports: " +:+ decimal (length (skipped log)) +:+ nl +:+
        "---" +:+ nl +:+ nl +:+
        "# ChatGPT Import Log" +:+ nl +:+ nl +:+
        "Imported ZIP file: " +:+ zipFileName +:+ nl +:+ nl +:+
        generateLogContent log +:+ nl in
      tryCatch
        (writeToFile logFilePath logContent)
        (fun error =>
           logError "Failed to write import log" error ;;
           notice "Failed to create log file. Check console for details.")
  end.

Definition noticeError : string :=
  "An error occurred during import. Please check the log file for details.".
Definition noticeSuccess : string :=
  "Import completed. Log file created in the archive folder.".

(** [handleZipFile(file)]. The [return] of the cancelled import leaves the
    [try] block normally, so [finally] runs after it as well. *)
Definition handleZipFile (file : File) : Async unit :=
  update (setImportLog newImportLog) ;;
  tryFinally
    (tryCatch
       (let fileHash := file_hash file in
        known <- get (fun p => importedArchives p !! fileHash) ;;
        let shouldReimport :=
          match known with Some _ => confirmAnswer host | None => true end in
        if shouldReimport then
          zip <- validateZipFile file ;;
          processConversations zip file ;;
          update (fun p => setImportedArchives
                             (<[fileHash := {| fileName := file_name file;
                                               date := isoDate host |}]>
                                (importedArchives p)) p) ;;
          saveSettings
        else notice "Import cancelled.")
       (fun error => logError "Error handling zip file" error))
    (writeImportLog (file_name file) ;;
     log <- get importLog ;;
     notice (if hasErrors log then noticeError else noticeSuccess)).

End Engine.

(** ** The helpers of [./utils], from the specification

    [utils.ts] is not among the sources. The definitions below follow what the
    specification says of the four helpers; they instantiate the parametric
    development on concrete inputs. *)

Definition twoDigits (n : Z) : string :=
  (if n <? 10 then "0" else "") +:+ decimal (Z.to_nat n).

(** Modelled from the spec: [utils.ts] is missing; the year, month and day of
    an epoch second in UTC (the proleptic Gregorian calendar). *)
Definition civilFromEpoch (t : Z) : Z * Z * Z :=
  let z := t / 86400 + 719468 in
  let era := z / 146097 in
  let doe := z - era * 146097 in
  let yoe := (doe - doe / 1460 + doe / 36524 - doe / 146096) / 365 in
  let doy := doe - (365 * yoe + yoe / 4 - yoe / 100) in
  let mp := (5 * doy + 2) / 153 in
  let d := doy - (153 * mp + 2) / 5 + 1 in
  let m := if mp <? 10 then mp + 3 else mp - 9 in
  let y := yoe + era * 400 + (if m <=? 2 then 1 else 0) in
  (y, m, d).

(** Modelled from the spec: [formatTimestamp] of the missing [utils.ts], one of
    the pure functions converting epoch seconds to display strings. *)
Definition specFormatTimestamp (t : Z) (format : TimestampFormat) : string :=
  let '(y, m, d) := civilFromEpoch t in
  let s := t mod 86400 in
  match format with
  | FormatPrefix => decimal (Z.to_nat y) +:+ twoDigits m +:+ twoDigits d
  | FormatDate => decimal (Z.to_nat y) +:+ "-" +:+ twoDigits m +:+ "-" +:+ twoDigits d
  | FormatTime =>
      twoDigits (s / 3600) +:+ ":" +:+ twoDigits (s mod 3600 / 60) +:+ ":" +:+ twoDigits (s mod 60)
  end.

(** Modelled from the spec: [getYearMonthFolder] of the missing [utils.ts], the
    year-month bucket derived from the creation timestamp (UTC). *)
Definition specGetYearMonthFolder (t : Z) : string :=
  let '(y, m, _) := civilFromEpoch t in
  decimal (Z.to_nat y) +:+ "-" +:+ twoDigits m.

Definition invalidFileNameChar (c : ascii) : bool :=
  existsb (Ascii.eqb c)
    ["\"; "/"; ":"; "*"; "?"; "034"; "<"; ">"; "|"]%char.

Fixpoint stripInvalid (s : string) : string :=
  match s with
  | EmptyString => EmptyString
  | String c s' => if invalidFileNameChar c then stripInvalid s' else String c (stripInvalid s')
  end.

(** Modelled from the spec: [formatTitle] of the missing [utils.ts], the
    sanitized title: invalid filesystem characters stripped, truncated to a
    bounded length. *)
Definition specFormatTitle (title : option string) : string :=
  takeChars 100 (stripInvalid (orElse title "Untitled")).

(** Modelled from the spec: [isValidMessage] of the missing [utils.ts]; a
    message is valid iff it has a non-empty author role association and at
    least one non-empty text segment. *)
Definition specIsValidMessage (message : ChatMessage) : bool :=
  match msg_author message, msg_content message with
  | Some {| role := Some r |}, Some {| parts := Some ps |} =>
      negb (String.eqb r "")
      && existsb (fun p => match p with
                           | PartString s => negb (String.eqb s "")
                           | PartOther => false
                           end) ps
  | _, _ => false
  end.

Definition specUtils : Utils :=
  {| formatTimestamp := specFormatTimestamp;
     getYearMonthFolder := specGetYearMonthFolder;
     formatTitle := specFormatTitle;
     isValidMessage := specIsValidMessage |}.

(** ** Vocabulary of the statements *)

(** The lines of a text, split at every line terminator, and the terminators
    themselves in order; together they determine the text. *)
Fixpoint lines (s : string) : list string :=
  match s with
  | EmptyString => [EmptyString]
  | String c s' =>
      if isLineTerminator c then EmptyString :: lines s'
      else match lines s' with
           | l :: ls => String c l :: ls
           | [] => [String c EmptyString]
           end
  end.

Fixpoint terminators (s : string) : list ascii :=
  match s with
  | EmptyString => []
  | String c s' => if isLineTerminator c then c :: terminators s' else terminators s'
  end.

(** Replace the first element that satisfies [f]. *)
Fixpoint replaceFirst (f : string -> bool) (new : string) (ls : list string) : list string :=
  match ls with
  | [] => []
  | l :: ls' => if f l then new :: ls' else l :: replaceFirst f new ls'
  end.

Fixpoint allChars (f : ascii -> bool) (s : string) : bool :=
  match s with
  | EmptyString => true
  | String c s' => f c && allChars f s'
  end.

(** A character that is neither a line terminator nor the [$] of a
    replacement pattern. *)
Definition plainChar (c : ascii) : bool :=
  negb (isLineTerminator c) && negb (Ascii.eqb c "$").

Definition notLineTerminator (c : ascii) : bool := negb (isLineTerminator c).

(** [l] begins with [label]. *)
Definition beginsWith (label l : string) : bool := startsWith l label.

(** *** Markers *)

Definition uidOpen : string := "<!-- UID: ".
Definition uidClose : string := " -->".

Definition differs (c : ascii) (x : ascii) : bool := negb (Ascii.eqb x c).

Section MessageParts.
Context {U : Utils}.

(** The parts of one rendered message. *)
Definition headingOf (now : Z) (message : ChatMessage) : string :=
  (if String.eqb (authorNameOf message) "User" then "###" else "####")
  +:+ " " +:+ authorNameOf message +:+ ", on "
  +:+ formatTimestamp (messageTimeOf now message) FormatDate +:+ " at "
  +:+ formatTimestamp (messageTimeOf now message) FormatTime +:+ ";".

Definition quoteCharOf (message : ChatMessage) : string :=
  if String.eqb (authorNameOf message) "User" then ">" else ">>".

Definition textsOf (message : ChatMessage) : list string :=
  match msg_content message with
  | Some {| parts := Some ps |} => stringParts ps
  | _ => []
  end.

Definition bodyOf (message : ChatMessage) : string :=
  match msg_content message with
  | Some {| parts := Some (p :: ps) |} =>
      join nl (map (fun line => quoteCharOf message +:+ " " +:+ line)
                   (split "010" (join nl (stringParts (p :: ps)))))
  | _ => quoteCharOf message +:+ " [No content]"
  end.

Definition separatorOf (message : ChatMessage) : string :=
  if String.eqb (authorNameOf message) "ChatGPT" then nl +:+ "---" +:+ nl else "".

(** The identifier a rendered message carries in its marker. *)
Definition uidOf (message : ChatMessage) : string := orElse (msg_id message) "unknown".


(** The messages [generateMessagesContent] renders, in traversal order. *)
Definition renderedMessages (chat : Chat) : list ChatMessage :=
  filter (fun message => isValidMessage message)
         (omap (fun kv => node_message (snd kv)) (chat_mapping chat)).

(** *** File names and records *)

(** The file name without its extension. *)
Definition fileStem (settings : PluginSettings) (chat : Chat) : string :=
  if addDatePrefix settings
  then formatTimestamp (chat_create_time chat) FormatPrefix +:+ " - " +:+ formatTitle (chat_title chat)
  else formatTitle (chat_title chat).

(** The record [updateConversationRecord] writes for a chat. *)
Definition recordFor (p : Plugin) (chat : Chat) (folderPath : string) : ConversationRecord :=
  {| path := folderPath +:+ "/" +:+ getFileName (settings p) chat;
     updateTime := chat_update_time chat |}.

End MessageParts.

(** *** Steps of the engine *)

Section Steps.
Context {U : Utils}.
Variable host : Host.

(** The [try] block of [processSingleChat]. *)
Definition processSingleChatBody (chat : Chat) (existingConversations : gmap string string)
    : Async unit :=
  folderPath <- createFolderForChat host chat ;;
  existingRecord <- get (fun p => conversationRecords p !! chat_id chat) ;;
  match existingRecord with
  | Some record => handleExistingChat host chat record folderPath
  | None => handleNewChat host chat folderPath existingConversations
  end ;;
  updateConversationRecord chat folderPath.

End Steps.

(** The [catch] block of [processSingleChat]. *)
Definition chatErrorHandler (chat : Chat) (chatError : string) : Async unit :=
  logError ("Error processing chat: " +:+ orUntitled chat) chatError.

(** The log of [p'] extends the global errors of [p]. *)
Definition errorsExtend (p p' : Plugin) : Prop :=
  exists more, globalErrors (importLog p') = globalErrors (importLog p) ++ more.

(** The files of two vaults are the same (folders may differ). *)
Definition sameFiles (v v' : gmap string AbstractFile) : Prop :=
  forall filePath content,
    v' !! filePath = Some (TFile content) <-> v !! filePath = Some (TFile content).

(** A step that touches nothing but folders and the list of global errors. *)
Record Quiet (p p' : Plugin) : Prop := {
  quiet_settings : settings p' = settings p;
  quiet_archives : importedArchives p' = importedArchives p;
  quiet_records : conversationRecords p' = conversationRecords p;
  quiet_counters : counters p' = counters p;
  quiet_saved : savedData p' = savedData p;
  quiet_notices : notices p' = notices p;
  quiet_created : created (importLog p') = created (importLog p);
  quiet_updated : updated (importLog p') = updated (importLog p);
  quiet_skipped : skipped (importLog p') = skipped (importLog p);
  quiet_failed : failed (importLog p') = failed (importLog p);
  quiet_errors : errors (importLog p') = errors (importLog p);
  quiet_summary : summary (importLog p') = summary (importLog p);
  quiet_globalErrors : errorsExtend p p';
  quiet_files : sameFiles (vault p) (vault p')
}.

(** A step that keeps the catalogs and the settings. *)
Record KeepsCatalogs (p p' : Plugin) : Prop := {
  keeps_settings : settings p' = settings p;
  keeps_archives : importedArchives p' = importedArchives p;
  keeps_records : conversationRecords p' = conversationRecords p;
  keeps_globalErrors : errorsExtend p p'
}.

(** A step that creates no document and merges nothing. *)
Record Idle (p p' : Plugin) : Prop := {
  idle_settings : settings p' = settings p;
  idle_archives : importedArchives p' = importedArchives p;
  idle_counters : counters p' = counters p;
  idle_created : created (importLog p') = created (importLog p);
  idle_updated : updated (importLog p') = updated (importLog p);
  idle_failed : failed (importLog p') = failed (importLog p);
  idle_globalErrors : errorsExtend p p';
  idle_files : sameFiles (vault p) (vault p')
}.

(** The entries a run appends to the skipped list: one per conversation, each
    with the reason [No Updates]. *)
Definition skippedFor (chats : list Chat) (entries : list LogEntry) : Prop :=
  Forall2 (fun chat entry => title entry = orUntitled chat
                             /\ reason entry = Some "No Updates") chats entries.

(** A step after which every file of the vault is a file from before or a
    report, and which keeps the catalogs, the counters and the four lists of
    conversation entries. *)
Record ReportOnly (isReport : string -> Prop) (p p' : Plugin) : Prop := {
  report_settings : settings p' = settings p;
  report_archives : importedArchives p' = importedArchives p;
  report_records : conversationRecords p' = conversationRecords p;
  report_counters : counters p' = counters p;
  report_saved : savedData p' = savedData p;
  report_created : created (importLog p') = created (importLog p);
  report_updated : updated (importLog p') = updated (importLog p);
  report_skipped : skipped (importLog p') = skipped (importLog p);
  report_failed : failed (importLog p') = failed (importLog p);
  report_errors : errors (importLog p') = errors (importLog p);
  report_summary : summary (importLog p') = summary (importLog p);
  report_globalErrors : errorsExtend p p';
  report_files : forall filePath content,
      vault p' !! filePath = Some (TFile content) ->
      vault p !! filePath = Some (TFile content) \/ isReport content
}.

(** The row of the report that shows the invalid archive. *)
Definition invalidArchiveRow : string :=
  " | Error handling zip file | Invalid ZIP structure |".

Definition showsInvalidArchive (content : string) : Prop :=
  includes content invalidArchiveRow = true.

(** The log of a run right after the invalid archive was reported. *)
Definition invalidArchiveLog : ImportLog :=
  addError "Error handling zip file" "Invalid ZIP structure" newImportLog.

(** A host whose vault rejects neither the creation of a folder nor the
    creation of a file. *)
Definition hostAccepts (host : Host) : Prop :=
  (forall folderPath, createFolderError host folderPath = None)
  /\ (forall filePath, createError host filePath = None).

(** No file of the vault has a path that ends with a slash (the paths of
    folders, as [ensureFolderExists] names them, do). *)
Definition filesAreNotFolders (v : gmap string AbstractFile) : Prop :=
  forall filePath content, v !! filePath = Some (TFile content) -> endsWith filePath "/" = false.

(** [m] relates every state to the state it ends in. *)
Definition preserves (R : Plugin -> Plugin -> Prop) {A} (m : Async A) : Prop :=
  forall p, R p (exec m p).

(** ** Sample inputs *)

Definition sampleUserMessage : ChatMessage :=
  {| msg_id := Some "aaa-1";
     msg_author := Some {| role := Some "user" |};
     msg_create_time := Some 1700000000;
     msg_content := Some {| parts := Some [PartString ("first line" +:+ nl +:+ "second line")] |} |}.

Definition sampleAssistantMessage : ChatMessage :=
  {| msg_id := Some "aaa-2";
     msg_author := Some {| role := Some "assistant" |};
     msg_create_time := Some 1700000060;
     msg_content := Some {| parts := Some [PartString "an answer"; PartOther] |} |}.

(** A node of an export: the node object has an [id] of its own, and its
    author and content live in the [message] sub-object. *)
Definition exportNode (key : string) (message : option ChatMessage) : string * MappingNode :=
  (key, {| node_self := {| msg_id := Some key; msg_author := None;
                           msg_create_time := None; msg_content := None |};
           node_message := message |}).

Definition sampleChat : Chat :=
  {| chat_id := "conv-1";
     chat_title := Some "Chat";
     chat_create_time := 1700000000;
     chat_update_time := 1700000100;
     chat_mapping := [exportNode "root" None;
                      exportNode "aaa-1" (Some sampleUserMessage);
                      exportNode "aaa-2" (Some sampleAssistantMessage)] |}.

(** A valid message whose text quotes a marker. *)
Definition quotingMessage : ChatMessage :=
  {| msg_id := Some "bbb-1";
     msg_author := Some {| role := Some "user" |};
     msg_create_time := Some 1700000000;
     msg_content := Some {| parts := Some [PartString "see <!-- UID: zzz --> above"] |} |}.

Definition quotingChat : Chat :=
  {| chat_id := "conv-2";
     chat_title := Some "Quote";
     chat_create_time := 1700000000;
     chat_update_time := 1700000100;
     chat_mapping := [exportNode "bbb-1" (Some quotingMessage)] |}.

Definition sampleFolder : string := "ChatGPT Archives/2023-11".

(** One earlier conversation lies at the base name of [sampleChat]. *)
Definition oneExisting : gmap string string :=
  {[ "old-1" := sampleFolder +:+ "/Chat.md" ]}.

(** Besides the base name, the folder holds another conversation whose name
    ends with the first numbered candidate. *)
Definition twoExisting : gmap string string :=
  <[ "old-2" := sampleFolder +:+ "/My Chat (1).md" ]> oneExisting.

(** A host on which nothing fails. *)
Definition quietHost : Host :=
  {| clock := 1700000200;
     isoDate := "2023-11-14T22:16:40.000Z";
     confirmAnswer := true;
     createFolderError := fun _ => None;
     createError := fun _ => None;
     modifyError := fun _ => None;
     processError := fun _ => None |}.

(** The plugin as loaded without saved data, on an empty vault. *)
Definition freshPlugin : Plugin :=
  {| settings := DEFAULT_SETTINGS;
     importLog := newImportLog;
     importedArchives := ∅;
     conversationRecords := ∅;
     counters := initialCounters 0;
     vault := ∅;
     savedData := None;
     notices := [] |}.

(** An archive of two conversations, and the state one run over it leaves. *)
Definition sampleArchive : list Chat := [sampleChat; quotingChat].

Definition afterFirstRun : Plugin :=
  exec (processChats (U := specUtils) quietHost sampleArchive ∅) freshPlugin.

Definition invalidFile : File :=
  {| file_name := "export.zip";
     file_hash := "0f1e";
     file_zip := inr {| zipFileNames := ["chat.html"; "user.json"];
                        conversationsJson := inl "unused" |} |}.

(** A vault that already holds a conversation at the base name of
    [sampleChat]. *)
Definition oldNote : string :=
  "---" +:+ nl +:+ "conversation_id: old-1" +:+ nl +:+ "---" +:+ nl +:+ "An earlier note".

Definition vaultWithOldNote : Plugin :=
  setVault (<[ sampleFolder +:+ "/Chat.md" := TFile oldNote ]> ∅) freshPlugin.

Definition chatFile : File :=
  {| file_name := "export.zip";
     file_hash := "a1b2";
     file_zip := inr {| zipFileNames := ["conversations.json"];
                        conversationsJson := inr [sampleChat] |} |}.

(** A later export of [sampleChat]: one more valid message, and a later
    update time. *)
Definition laterMessage : ChatMessage :=
  {| msg_id := Some "aaa-3";
     msg_author := Some {| role := Some "user" |};
     msg_create_time := Some 1700000400;
     msg_content := Some {| parts := Some [PartString "one more question"] |} |}.

Definition laterChat : Chat :=
  {| chat_id := "conv-1";
     chat_title := Some "Chat";
     chat_create_time := 1700000000;
     chat_update_time := 1700000500;
     chat_mapping := chat_mapping sampleChat ++ [exportNode "aaa-3" (Some laterMessage)] |}.

(** A host whose vault rejects [process]. *)
Definition busyHost : Host :=
  {| clock := 1700000600;
     isoDate := "2023-11-14T22:23:20.000Z";
     confirmAnswer := true;
     createFolderError := fun _ => None;
     createError := fun _ => None;
     modifyError := fun _ => None;
     processError := fun _ => Some "EBUSY: resource busy or locked" |}.

(** An earlier export of [sampleChat]: its first message only, and an
    earlier update time. *)
Definition earlierChat : Chat :=
  {| chat_id := "conv-1";
     chat_title := Some "Chat";
     chat_create_time := 1700000000;
     chat_update_time := 1700000050;
     chat_mapping := [exportNode "root" None;
                      exportNode "aaa-1" (Some sampleUserMessage)] |}.

(** Another conversation with the title of [sampleChat], made in the same
    month, and an archive that holds it. *)
Definition namesakeChat : Chat :=
  {| chat_id := "conv-7";
     chat_title := Some "Chat";
     chat_create_time := 1700000300;
     chat_update_time := 1700000400;
     chat_mapping := [exportNode "ddd-1" (Some laterMessage)] |}.

Definition namesakeFile : File :=
  {| file_name := "export-2.zip";
     file_hash := "c3d4";
     file_zip := inr {| zipFileNames := ["conversations.json"];
                        conversationsJson := inr [namesakeChat] |} |}.

(** The text of the file at [filePath]; the empty text where the vault holds
    no file there. *)
Definition fileAt (filePath : string) (p : Plugin) : string :=
  match vault p !! filePath with
  | Some (TFile content) => content
  | _ => ""
  end.

(** ** Further models and vocabulary

    The methods of [main.ts] outside the synchronization engine, and the
    vocabulary of the further properties. *)

(** A conversation with another update time. *)
Definition withUpdateTime (updateTime : Z) (chat : Chat) : Chat :=
  {| chat_id := chat_id chat;
     chat_title := chat_title chat;
     chat_create_time := chat_create_time chat;
     chat_update_time := updateTime;
     chat_mapping := chat_mapping chat |}.

(** *** Whole runs *)

(** The report of a run begins with the front matter that [writeImportLog]
    writes. *)
Definition reportHead : string := "---" +:+ nl +:+ "importdate: ".

Definition isImportReport (content : string) : Prop :=
  startsWith content reportHead = true.

(** A step of the run before its report: it keeps the settings, the archive
    catalog, the saved data and the notices, and leaves the [errors] list of
    the log alone. *)
Record Processing (p p' : Plugin) : Prop := {
  processing_settings : settings p' = settings p;
  processing_archives : importedArchives p' = importedArchives p;
  processing_saved : savedData p' = savedData p;
  processing_notices : notices p' = notices p;
  processing_errors : errors (importLog p') = errors (importLog p)
}.

Section RunSteps.
Context {U : Utils}.
Variable host : Host.

(** The [finally] block of [handleZipFile]. *)
Definition reportRun (file : File) : Async unit :=
  writeImportLog host (file_name file) ;;
  log <- get importLog ;;
  notice (if hasErrors log then noticeError else noticeSuccess).

(** The end of the [try] block of [handleZipFile]: the archive is entered in
    the catalog and the catalogs are saved. *)
Definition recordArchive (file : File) : Async unit :=
  update (fun p => setImportedArchives
                     (<[file_hash file := {| fileName := file_name file;
                                             date := isoDate host |}]>
                        (importedArchives p)) p) ;;
  saveSettings.

End RunSteps.

(** The notice that closes a run whose log is [log]: the error notice exactly
    when the failed list is not empty. *)
Definition closingNotice (log : ImportLog) : string :=
  match failed log with
  | [] => noticeSuccess
  | _ :: _ => noticeError
  end.

(** The file [file], had it failed to open with [reason]. *)
Definition unreadable (reason : string) (file : File) : File :=
  {| file_name := file_name file; file_hash := file_hash file; file_zip := inl reason |}.

(** An archive that is not a zip container. *)
Definition corruptFile : File :=
  {| file_name := "export.zip";
     file_hash := "e5f6";
     file_zip := inl "Can't find end of central directory" |}.

(** The catalogs and the settings of [p] are what was last saved. *)
Definition catalogsSaved (p : Plugin) : Prop :=
  savedData p = Some (settings p, importedArchives p, conversationRecords p).

(** An archive whose [conversations.json] is not valid JSON. *)
Definition brokenJsonFile : File :=
  {| file_name := "export.zip";
     file_hash := "c3d4";
     file_zip := inr {| zipFileNames := ["conversations.json"];
                        conversationsJson := inl "Unexpected end of JSON input" |} |}.

(** A host whose user declines to import an archive again. *)
Definition decliningHost : Host :=
  {| clock := 1700000700;
     isoDate := "2023-11-14T22:25:00.000Z";
     confirmAnswer := false;
     createFolderError := fun _ => None;
     createError := fun _ => None;
     modifyError := fun _ => None;
     processError := fun _ => None |}.

(** The plugin after [chatFile] was imported once. *)
Definition afterChatFile : Plugin :=
  exec (handleZipFile (U := specUtils) quietHost chatFile) freshPlugin.

(** What the counters and the log of a run say after [processed]
    conversations: the created list is as long as the count of imported
    conversations; no more conversations were imported than were found new,
    and no more merged than were found changed; every changed conversation
    adds at most one entry to the updated or to the failed list; at most one
    of the three classes was counted per conversation; and
    [totalNonEmptyMessagesToAdd] is never counted up. *)
Record Tally (processed : nat) (p : Plugin) : Prop := {
  tally_created :
    length (created (importLog p)) = totalNewConversationsSuccessfullyImported (counters p);
  tally_updated :
    (length (updated (importLog p)) <= totalConversationsActuallyUpdated (counters p))%nat;
  tally_imported :
    (totalNewConversationsSuccessfullyImported (counters p)
     <= totalNewConversationsToImport (counters p))%nat;
  tally_merged :
    (totalConversationsActuallyUpdated (counters p)
     <= totalExistingConversationsToUpdate (counters p))%nat;
  tally_entries :
    (length (updated (importLog p)) + length (failed (importLog p))
     <= totalExistingConversationsToUpdate (counters p))%nat;
  tally_total :
    (totalNewConversationsToImport (counters p)
     + totalExistingConversationsToUpdate (counters p)
     + length (skipped (importLog p)) <= processed)%nat;
  tally_toAdd : totalNonEmptyMessagesToAdd (counters p) = 0%nat
}.

(** The step of a conversation, seen in the counters and the entry lists. *)
Record SameCounts (p p' : Plugin) : Prop := {
  same_counters : counters p' = counters p;
  same_created : created (importLog p') = created (importLog p);
  same_updated : updated (importLog p') = updated (importLog p);
  same_skipped : skipped (importLog p') = skipped (importLog p);
  same_failed : failed (importLog p') = failed (importLog p)
}.

(** A host whose vault rejects the creation of folders. *)
Definition readOnlyHost : Host :=
  {| clock := 1700000800;
     isoDate := "2023-11-14T22:26:40.000Z";
     confirmAnswer := true;
     createFolderError := fun _ => Some "EACCES: permission denied";
     createError := fun _ => None;
     modifyError := fun _ => None;
     processError := fun _ => None |}.

(** A host whose vault makes folders and rejects the creation of files. *)
Definition fullDiskHost : Host :=
  {| clock := 1700000900;
     isoDate := "2023-11-14T22:28:20.000Z";
     confirmAnswer := true;
     createFolderError := fun _ => None;
     createError := fun _ => Some "ENOSPC: no space left on device";
     modifyError := fun _ => None;
     processError := fun _ => None |}.

(** The paths [ensureFolderExists] visits: every folder of the list under the
    ones before it, each with a closing slash. *)
Fixpoint folderPaths (currentPath : string) (folders : list string) : list string :=
  match folders with
  | [] => []
  | folder :: rest =>
      (currentPath +:+ folder +:+ "/") :: folderPaths (currentPath +:+ folder +:+ "/") rest
  end.

(** The folders named in a path: its segments between slashes that are not
    empty. *)
Definition foldersOf (folderPath : string) : list string :=
  filter (fun p => negb (String.eqb p "")) (split "/" folderPath).

(** What the result of [ensureFolderExists] says about the visited paths. *)
Definition folderOutcome (host : Host) (before after : gmap string AbstractFile)
    (visited : list string) (result : option string) : Prop :=
  match result with
  | None =>
      Forall (fun visitedPath =>
                after !! visitedPath = Some TFolder
                \/ createFolderError host visitedPath = Some "Folder already exists.")
             visited
  | Some error =>
      exists visitedPath, visitedPath ∈ visited
        /\ ((exists content,
               before !! visitedPath = Some (TFile content)
               /\ error = "Path exists but is not a folder: " +:+ visitedPath)
            \/ (exists reason,
                  before !! visitedPath = None
                  /\ createFolderError host visitedPath = Some reason
                  /\ reason <> "Folder already exists."
                  /\ error = "Failed to create folder: " +:+ visitedPath
                             +:+ ". Reason: " +:+ reason))
  end.

(** *** Notes and the search for their conversation identifier *)

Definition notWhiteSpace (c : ascii) : bool := negb (isWhiteSpace c).

(** What the search needs of a rendered message to pass over it line by line:
    a formatted time and an identifier without line terminator, and text
    parts without carriage return (a line feed ends a quoted line). *)
Definition searchSafe (now : Z) {U : Utils} (message : ChatMessage) : bool :=
  allChars notLineTerminator (formatTimestamp (messageTimeOf now message) FormatDate)
  && allChars notLineTerminator (formatTimestamp (messageTimeOf now message) FormatTime)
  && allChars notLineTerminator (uidOf message)
  && forallb (allChars (differs "013")) (textsOf message).

(** The header of the note of [chat] holds its title, identifier and times
    on one line each. *)
Definition plainHeader {U : Utils} (chat : Chat) : bool :=
  allChars notLineTerminator (formatTitle (chat_title chat))
  && allChars notLineTerminator (chat_id chat)
  && allChars notLineTerminator (dateAtTime (chat_create_time chat))
  && allChars notLineTerminator (dateAtTime (chat_update_time chat)).

(** A text that [generateMarkdownContent] gives for some conversation. *)
Definition generatedNote {U : Utils} (content : string) : Prop :=
  exists now chat,
    content = generateMarkdownContent now chat
    /\ plainHeader chat = true
    /\ forallb (searchSafe now) (renderedMessages chat) = true.

(** One step of the loop of [getAllExistingConversations]. *)
Definition noteConversation (conversations : gmap string string)
    (entry : string * AbstractFile) : gmap string string :=
  match entry with
  | (filePath, TFile fileContent) =>
      if endsWith filePath ".md" then
        match searchConversationId true fileContent with
        | Some capture => <[trim capture := filePath]> conversations
        | None => conversations
        end
      else conversations
  | (_, TFolder) => conversations
  end.

(** The identifier [getAllExistingConversations] reads from a note. *)
Definition conversationIdOf (fileContent : string) : option string :=
  trim <$> searchConversationId true fileContent.

(** A vault that holds one note generated for [sampleChat]. *)
Definition generatedVault : Plugin :=
  setVault {[ sampleFolder +:+ "/Chat.md"
              := TFile (generateMarkdownContent (U := specUtils) 1700000200 sampleChat) ]}
           freshPlugin.

(** Two conversations of one archive with the same title, made in the same
    month. *)
Definition twinChat : Chat :=
  {| chat_id := "conv-9";
     chat_title := Some "Chat";
     chat_create_time := 1700500000;
     chat_update_time := 1700500100;
     chat_mapping := [exportNode "ccc-1" (Some laterMessage)] |}.

(** A host whose vault accepts every change. *)
Definition hostAcceptsAll (host : Host) : Prop :=
  hostAccepts host /\ (forall filePath, modifyError host filePath = None).

(** *** The hash of an archive ([getFileHash]) *)

Definition hexDigit (n : nat) : ascii :=
  nth n (list_ascii_of_string "0123456789abcdef") "0"%char.

(** [b.toString(16)] for an element of a [Uint8Array]: one digit below 16,
    two digits from there on. *)
Definition toString16 (b : Byte.byte) : string :=
  let n := Byte.to_nat b in
  if (n <? 16)%nat then String (hexDigit n) ""
  else String (hexDigit (n / 16)) (String (hexDigit (n mod 16)) "").

(** [s.padStart(targetLength, pad)] for a pad of one character. *)
Definition padStart (targetLength : nat) (pad : ascii) (s : string) : string :=
  string_of_list_ascii (repeat pad (targetLength - String.length s)) +:+ s.

(** The last line of [getFileHash]:
    [hashArray.map(b => b.toString(16).padStart(2, '0')).join('')]. *)
Definition hexOfHash (hashArray : list Byte.byte) : string :=
  join "" (map (fun b => padStart 2 "0" (toString16 b)) hashArray).

(** [getFileHash(file)]; [digest] is [crypto.subtle.digest('SHA-256', _)] of
    the platform and [buffer] the bytes of the file. *)
Definition getFileHash (digest : list Byte.byte -> list Byte.byte)
    (buffer : list Byte.byte) : string :=
  hexOfHash (digest buffer).

(** A digit, or a letter from [a] to [f]. *)
Definition isHexDigit (c : ascii) : bool :=
  includes "0123456789abcdef" (String c "").

(** Reading a hash back: the value of a digit, and the bytes of a string of
    digit pairs. *)
Definition hexValue (c : ascii) : nat :=
  let n := nat_of_ascii c in
  if (n <? 58)%nat then (n - 48)%nat else (n - 87)%nat.

Fixpoint bytesOfHex (s : string) : list Byte.byte :=
  match s with
  | String c1 (String c2 rest) =>
      match Byte.of_nat (16 * hexValue c1 + hexValue c2) with
      | Some b => b :: bytesOfHex rest
      | None => []
      end
  | _ => []
  end.

(** *** Persistent data ([loadSettings], [resetCatalogs]) *)

(** What [loadData()] resolves to: [null] ([None]), or an object in which any
    key may be missing. *)
Record StoredSettings := {
  stored_archiveFolder : option string;
  stored_addDatePrefix : option bool;
  stored_dateFormat : option string
}.

Record StoredData := {
  data_settings : option StoredSettings;
  data_importedArchives : option (gmap string ArchiveInfo);
  data_conversationRecords : option (gmap string ConversationRecord)
}.

Definition setSettings (s : PluginSettings) (p : Plugin) : Plugin :=
  {| settings := s; importLog := importLog p; importedArchives := importedArchives p;
     conversationRecords := conversationRecords p; counters := counters p;
     vault := vault p; savedData := savedData p; notices := notices p |}.

(** [Object.assign({}, defaults, stored)] *)
Definition assignSettings (defaults : PluginSettings) (stored : StoredSettings)
    : PluginSettings :=
  {| archiveFolder := default (archiveFolder defaults) (stored_archiveFolder stored);
     addDatePrefix := default (addDatePrefix defaults) (stored_addDatePrefix stored);
     dateFormat := default (dateFormat defaults) (stored_dateFormat stored) |}.

(** [loadSettings()], for the [data] that [loadData()] resolves to. *)
Definition loadSettings (data : option StoredData) : Async unit :=
  update (fun p =>
            setConversationRecords (default ∅ (data ≫= data_conversationRecords))
              (setImportedArchives (default ∅ (data ≫= data_importedArchives))
                 (setSettings
                    (assignSettings DEFAULT_SETTINGS
                       (default {| stored_archiveFolder := None;
                                   stored_addDatePrefix := None;
                                   stored_dateFormat := None |}
                                (data ≫= data_settings)))
                    p))).

(** The object [saveSettings] hands to [saveData], as [loadData] gives it
    back. *)
Definition storedOf
    (saved : PluginSettings * gmap string ArchiveInfo * gmap string ConversationRecord)
    : StoredData :=
  let '(s, archives, records) := saved in
  {| data_settings := Some {| stored_archiveFolder := Some (archiveFolder s);
                              stored_addDatePrefix := Some (addDatePrefix s);
                              stored_dateFormat := Some (dateFormat s) |};
     data_importedArchives := Some archives;
     data_conversationRecords := Some records |}.


(** *** Rows of the report *)

(** The row of a conversation entry, and of a global error, in the tables of
    [generateLogContent]. *)
Definition tableRow (emoji : string) (entry : LogEntry) : string :=
  "| " +:+ emoji +:+ " | [[" +:+ filePath entry +:+ "\|"
  +:+ trim (newlinesToSpaces (title entry)) +:+ "]] | "
  +:+ createDate entry +:+ " | " +:+ updateDate entry +:+ " |" +:+ nl.

Definition errorRow (emoji : string) (entry : string * string) : string :=
  "| " +:+ emoji +:+ " | " +:+ fst entry +:+ " | " +:+ snd entry +:+ " |" +:+ nl.

(** An entry without its reason and its error message, and a log whose
    entries are all without them. *)
Definition withoutDetails (entry : LogEntry) : LogEntry :=
  {| title := title entry; filePath := filePath entry; createDate := createDate entry;
     updateDate := updateDate entry; reason := None; errorMessage := None |}.

Definition eraseDetails (log : ImportLog) : ImportLog :=
  {| created := map withoutDetails (created log);
     updated := map withoutDetails (updated log);
     skipped := map withoutDetails (skipped log);
     errors := map withoutDetails (errors log);
     failed := map withoutDetails (failed log);
     globalErrors := globalErrors log;
     summary := summary log |}.

(** *** What a run leaves in the vault *)

(** Both are files, or both are folders. *)
Definition sameKind (x y : AbstractFile) : Prop :=
  match x, y with
  | TFile _, TFile _ => True
  | TFolder, TFolder => True
  | _, _ => False
  end.

(** Every path of [v] is a path of [v'], and holds a file there if it held a
    file and a folder if it held a folder. *)
Definition vaultGrows (v v' : gmap string AbstractFile) : Prop :=
  forall filePath x, v !! filePath = Some x ->
                     exists y, v' !! filePath = Some y /\ sameKind x y.

(** A step that removes nothing from the vault. *)
Definition Grows (p p' : Plugin) : Prop := vaultGrows (vault p) (vault p').

(** The identifiers of a list of messages. *)
Definition idsOf (messages : list ChatMessage) : list string := omap msg_id messages.


(** * Properties *)

(** ** Facts about strings *)

Local Arguments String.append : simpl nomatch.

Lemma append_nil_r (s : string) : s +:+ "" = s.
Proof. induction s as [|c s IH]; simpl; [reflexivity | now rewrite IH]. Qed.

Lemma append_assoc (a b c : string) : (a +:+ b) +:+ c = a +:+ (b +:+ c).
Proof. induction a as [|x a IH]; simpl; [reflexivity | now rewrite IH]. Qed.

Lemma length_append (a b : string) :
  String.length (a +:+ b) = (String.length a + String.length b)%nat.
Proof. induction a as [|x a IH]; simpl; [reflexivity | now rewrite IH]. Qed.

Lemma allChars_append f (a b : string) :
  allChars f (a +:+ b) = allChars f a && allChars f b.
Proof.
  induction a as [|x a IH]; simpl; [reflexivity |].
  rewrite IH. now rewrite andb_assoc.
Qed.

Lemma allChars_impl (f g : ascii -> bool) (s : string) :
  (forall c, f c = true -> g c = true) -> allChars f s = true -> allChars g s = true.
Proof.
  intros Hfg. induction s as [|c s IH]; simpl; [reflexivity |].
  intros [Hc Hs]%andb_prop. rewrite (Hfg _ Hc). now apply IH.
Qed.

Lemma startsWith_append (p r : string) : startsWith (p +:+ r) p = true.
Proof.
  induction p as [|c p IH]; simpl; [reflexivity |].
  now rewrite Ascii.eqb_refl.
Qed.

Lemma startsWith_inv (s p : string) :
  startsWith s p = true -> exists r, s = p +:+ r.
Proof.
  revert s. induction p as [|c p IH]; intros s H; simpl in *.
  - now exists s.
  - destruct s as [|d s]; [discriminate |].
    apply andb_prop in H as [Hc Hp]. apply Ascii.eqb_eq in Hc as ->.
    destruct (IH _ Hp) as [r ->]. now exists r.
Qed.

Lemma startsWith_nil (p : string) : startsWith "" p = true -> p = "".
Proof. destruct p; simpl; [reflexivity | discriminate]. Qed.

(** *** Lines *)

Lemma lines_nonempty (s : string) : lines s <> [].
Proof.
  induction s as [|c s IH]; simpl; [discriminate |].
  destruct (isLineTerminator c); [discriminate |].
  destruct (lines s); discriminate.
Qed.

Lemma lines_cons (s : string) : lines s = takeLine s :: tl (lines s).
Proof.
  induction s as [|c s IH]; simpl; [reflexivity |].
  destruct (isLineTerminator c); [reflexivity |].
  rewrite IH. reflexivity.
Qed.

Lemma lines_plain_append (a b : string) :
  allChars notLineTerminator a = true ->
  lines (a +:+ b) = (a +:+ takeLine b) :: tl (lines b).
Proof.
  induction a as [|c a IH]; simpl; intros H.
  - apply lines_cons.
  - apply andb_prop in H as [Hc Ha]. unfold notLineTerminator in Hc.
    apply negb_true_iff in Hc. rewrite Hc, (IH Ha). reflexivity.
Qed.

Lemma takeLine_dropLine (s : string) : takeLine (dropLine s) = "".
Proof.
  induction s as [|c s IH]; simpl; [reflexivity |].
  destruct (isLineTerminator c) eqn:E; [simpl; now rewrite E | exact IH].
Qed.

Lemma lines_dropLine (s : string) : tl (lines (dropLine s)) = tl (lines s).
Proof.
  induction s as [|c s IH]; simpl; [reflexivity |].
  destruct (isLineTerminator c) eqn:E.
  - simpl. now rewrite E.
  - rewrite IH. now destruct (lines s).
Qed.

Lemma terminators_dropLine (s : string) : terminators (dropLine s) = terminators s.
Proof.
  induction s as [|c s IH]; simpl; [reflexivity |].
  destruct (isLineTerminator c) eqn:E; [simpl; now rewrite E | exact IH].
Qed.

Lemma terminators_plain_append (a b : string) :
  allChars notLineTerminator a = true -> terminators (a +:+ b) = terminators b.
Proof.
  induction a as [|c a IH]; simpl; intros H; [reflexivity |].
  apply andb_prop in H as [Hc Ha]. unfold notLineTerminator in Hc.
  apply negb_true_iff in Hc. rewrite Hc. now apply IH.
Qed.

Lemma startsWith_takeLine (s label : string) :
  allChars notLineTerminator label = true ->
  startsWith (takeLine s) label = startsWith s label.
Proof.
  revert s. induction label as [|a label IH]; intros s H; simpl; [reflexivity |].
  apply andb_prop in H as [Ha Hl]. unfold notLineTerminator in Ha.
  apply negb_true_iff in Ha.
  destruct s as [|b s]; simpl; [reflexivity |].
  destruct (isLineTerminator b) eqn:Eb.
  - destruct (Ascii.eqb a b) eqn:Eab; [| reflexivity].
    apply Ascii.eqb_eq in Eab. congruence.
  - simpl. now rewrite IH.
Qed.

(** *** Replacement patterns *)

Lemma getSubstitution_plain (matched before after r : string) :
  allChars plainChar r = true -> getSubstitution matched before after r = r.
Proof.
  induction r as [|c r IH]; simpl; intros H; [reflexivity |].
  apply andb_prop in H as [Hc Hr]. unfold plainChar in Hc.
  apply andb_prop in Hc as [_ Hc]. apply negb_true_iff in Hc.
  rewrite Hc. now rewrite IH.
Qed.

Lemma plain_notLineTerminator (s : string) :
  allChars plainChar s = true -> allChars notLineTerminator s = true.
Proof.
  apply allChars_impl. intros c H. unfold plainChar in H.
  now apply andb_prop in H as [H _].
Qed.

Section ReplaceLine.
Variables label replacement : string.
Hypothesis label_line : allChars notLineTerminator label = true.
Hypothesis label_nonempty : label <> "".
Hypothesis replacement_plain : allChars plainChar replacement = true.

Lemma replaceLine_lines (s before : string) (lineStart : bool) :
  lines (replaceLine label replacement before lineStart s) =
  if lineStart then replaceFirst (beginsWith label) replacement (lines s)
  else takeLine s :: replaceFirst (beginsWith label) replacement (tl (lines s)).
Proof.
  revert before lineStart.
  induction s as [|c s IH]; intros before lineStart.
  - destruct lineStart; simpl; [| reflexivity].
    unfold beginsWith. destruct (startsWith "" label) eqn:E; [| reflexivity].
    apply startsWith_nil in E. contradiction.
  - cbn [replaceLine].
    destruct (lineStart && startsWith (String c s) label) eqn:E.
    + apply andb_prop in E as [-> E].
      rewrite getSubstitution_plain by exact replacement_plain.
      rewrite lines_plain_append by (now apply plain_notLineTerminator).
      rewrite takeLine_dropLine, append_nil_r, lines_dropLine.
      rewrite (lines_cons (String c s)). cbn [replaceFirst].
      unfold beginsWith. rewrite startsWith_takeLine by exact label_line.
      now rewrite E.
    + cbn [lines]. rewrite IH.
      assert (Hhead : lineStart = true -> beginsWith label (takeLine (String c s)) = false).
      { intros ->. unfold beginsWith. rewrite startsWith_takeLine by exact label_line.
        exact E. }
      destruct (isLineTerminator c) eqn:Ec.
      * destruct lineStart.
        -- cbn [replaceFirst]. specialize (Hhead eq_refl). cbn [takeLine] in Hhead.
           rewrite Ec in Hhead. now rewrite Hhead.
        -- cbn [takeLine tl]. now rewrite Ec.
      * rewrite (lines_cons s). cbn [tl].
        destruct lineStart.
        -- cbn [replaceFirst]. specialize (Hhead eq_refl). cbn [takeLine] in Hhead.
           rewrite Ec in Hhead. now rewrite Hhead.
        -- cbn [takeLine]. now rewrite Ec.
Qed.

Lemma replaceLine_terminators (s before : string) (lineStart : bool) :
  terminators (replaceLine label replacement before lineStart s) = terminators s.
Proof.
  revert before lineStart.
  induction s as [|c s IH]; intros before lineStart.
  - cbn [replaceLine]. destruct (lineStart && startsWith "" label) eqn:E; [| reflexivity].
    apply andb_prop in E as [_ E]. apply startsWith_nil in E. contradiction.
  - cbn [replaceLine].
    destruct (lineStart && startsWith (String c s) label) eqn:E.
    + rewrite getSubstitution_plain by exact replacement_plain.
      rewrite terminators_plain_append by (now apply plain_notLineTerminator).
      apply terminators_dropLine.
    + cbn [terminators]. now rewrite IH.
Qed.

End ReplaceLine.

(** ** The metadata rewrite *)

Section MetadataRewrite.
Context {U : Utils}.

Lemma dateAtTime_plain (t : Z) :
  allChars plainChar (formatTimestamp t FormatDate) = true ->
  allChars plainChar (formatTimestamp t FormatTime) = true ->
  allChars plainChar (dateAtTime t) = true.
Proof.
  intros Hd Ht. unfold dateAtTime.
  rewrite !allChars_append, Hd, Ht. reflexivity.
Qed.

(** C10. For every document text and update time whose formatted form holds
    neither a line terminator nor a [$]: [updateMetadata] keeps every line
    terminator, and the lines of its result are the lines of the document in
    which the first line beginning with [update_time: ] and the first line
    beginning with [Last Updated: ] are set to that label followed by the
    formatted update time; every other line is returned unchanged. *)
Theorem updateMetadata_rewrites_first_label_lines (content : string) (updateTime : Z) :
  allChars plainChar (formatTimestamp updateTime FormatDate) = true ->
  allChars plainChar (formatTimestamp updateTime FormatTime) = true ->
  terminators (updateMetadata content updateTime) = terminators content
  /\ lines (updateMetadata content updateTime) =
     replaceFirst (beginsWith "Last Updated: ")
                  ("Last Updated: " +:+ dateAtTime updateTime)
       (replaceFirst (beginsWith "update_time: ")
                     ("update_time: " +:+ dateAtTime updateTime)
                     (lines content)).
Proof.
  intros Hd Ht.
  pose proof (dateAtTime_plain _ Hd Ht) as Hplain.
  unfold updateMetadata. split.
  - rewrite !replaceLine_terminators; try reflexivity; try discriminate;
      rewrite allChars_append, Hplain; reflexivity.
  - rewrite !replaceLine_lines; try reflexivity; try discriminate;
      rewrite allChars_append, Hplain; reflexivity.
Qed.

(** The two rewrites do not interfere: neither new line begins with the other
    label, so they can be read in either order. *)
Lemma replaceFirst_comm (f g : string -> bool) (nf ng : string) (ls : list string) :
  f ng = false -> g nf = false -> (forall l, f l = true -> g l = false) ->
  replaceFirst f nf (replaceFirst g ng ls) = replaceFirst g ng (replaceFirst f nf ls).
Proof.
  intros Hf Hg Hfg. induction ls as [|l ls IH]; simpl; [reflexivity |].
  destruct (g l) eqn:Egl, (f l) eqn:Efl; simpl.
  - rewrite (Hfg _ Efl) in Egl. discriminate.
  - now rewrite Hf, Egl.
  - now rewrite Hg, Efl.
  - now rewrite Efl, Egl, IH.
Qed.

End MetadataRewrite.

Lemma updateMetadata_rewrites_first_label_lines_witness :
  let content := "---" +:+ nl +:+ "update_time: old" +:+ nl +:+ "---" +:+ nl
                 +:+ "Last Updated: old" +:+ nl +:+ "> update_time: quoted" in
  allChars plainChar (formatTimestamp (Utils := specUtils) 1700000000 FormatDate) = true
  /\ allChars plainChar (formatTimestamp (Utils := specUtils) 1700000000 FormatTime) = true
  /\ lines (updateMetadata (U := specUtils) content 1700000000) =
     ["---"; "update_time: 2023-11-14 at 22:13:20"; "---";
      "Last Updated: 2023-11-14 at 22:13:20"; "> update_time: quoted"].
Proof.
  split; [reflexivity |]. split; [reflexivity |].
  apply (updateMetadata_rewrites_first_label_lines (U := specUtils)); reflexivity.
Defined.

(** ** Markers: rendering, then extraction *)

Lemma startsWith_app_sep (p a b : string) (c : ascii) :
  allChars (differs c) p = true ->
  startsWith (a +:+ String c b) p = startsWith a p.
Proof.
  revert a. induction p as [|x p IH]; intros a H; simpl; [reflexivity |].
  apply andb_prop in H as [Hx Hp]. unfold differs in Hx. apply negb_true_iff in Hx.
  destruct a as [|y a]; simpl.
  - now rewrite Hx.
  - now rewrite IH.
Qed.







Lemma dropChars_append (a b : string) : dropChars (String.length a) (a +:+ b) = b.
Proof. induction a as [|c a IH]; [reflexivity | exact IH]. Qed.












Section Markers.
Context {U : Utils}.

Lemma formatMessage_shape (now : Z) (message : ChatMessage) :
  formatMessage now message =
  headingOf now message +:+ nl +:+ bodyOf message +:+ nl +:+
  uidOpen +:+ uidOf message +:+ uidClose +:+ nl +:+ separatorOf message +:+ nl +:+ nl.
Proof.
  unfold formatMessage, headingOf, bodyOf, separatorOf, uidOf, quoteCharOf, uidOpen, uidClose.
  rewrite !append_assoc. reflexivity.
Qed.

End Markers.

Section MarkerRoundTrip.
Context {U : Utils}.












End MarkerRoundTrip.

Section MarkerTheorem.
Context {U : Utils}.


(** When every node carries a valid message, the rendered messages are all
    the messages of the conversation. *)
Lemma renderedMessages_all_valid (chat : Chat) :
  Forall (fun kv => exists message, node_message (snd kv) = Some message
                                     /\ isValidMessage message = true)
         (chat_mapping chat) ->
  map Some (renderedMessages chat) = map (fun kv => node_message (snd kv)) (chat_mapping chat).
Proof.
  unfold renderedMessages. induction (chat_mapping chat) as [|[key node] nodes IH];
    intros H; [reflexivity |].
  apply Forall_cons in H as [(message & Hm & Hv) Hrest].
  cbn [omap list_omap snd map] in *. rewrite Hm.
  cbn [filter list_filter]. unfold filter in IH |- *.
  destruct (decide (isValidMessage message)) as [_ | Hn].
  - cbn [map]. f_equal. now apply IH.
  - rewrite Hv in Hn. now destruct Hn.
Qed.


End MarkerTheorem.



(** ** Unique file names *)

Lemma to_uint_nonnil (n : nat) : Nat.to_uint n <> Decimal.Nil.
Proof.
  pose proof (Unsigned.to_of (Nat.to_uint n)) as H. rewrite Unsigned.of_to in H.
  rewrite H. apply unorm_nonnil.
Qed.

Lemma decimal_inj (i j : nat) : decimal i = decimal j -> i = j.
Proof.
  unfold decimal. intros H. apply (f_equal NilZero.uint_of_string) in H.
  rewrite !NilZero.usu in H by apply to_uint_nonnil.
  injection H as H. now apply Unsigned.to_uint_inj.
Qed.

Lemma string_of_uint_no_paren (d : Decimal.uint) :
  allChars (differs "(") (NilEmpty.string_of_uint d) = true.
Proof. induction d; simpl; auto. Qed.

Lemma decimal_no_paren (n : nat) : allChars (differs "(") (decimal n) = true.
Proof.
  unfold decimal, NilZero.string_of_uint.
  destruct (Nat.to_uint n); try reflexivity; apply string_of_uint_no_paren.
Qed.

Lemma string_of_uint_no_close (d : Decimal.uint) :
  allChars (differs ")") (NilEmpty.string_of_uint d) = true.
Proof. induction d; simpl; auto. Qed.

Lemma decimal_no_close (n : nat) : allChars (differs ")") (decimal n) = true.
Proof.
  unfold decimal, NilZero.string_of_uint.
  destruct (Nat.to_uint n); try reflexivity; apply string_of_uint_no_close.
Qed.

Lemma allChars_differs_not_in (c : ascii) (a b : string) :
  allChars (differs c) (a +:+ String c b) = false.
Proof.
  induction a as [|x a IH]; simpl.
  - unfold differs. now rewrite Ascii.eqb_refl.
  - rewrite IH. apply andb_false_r.
Qed.

(** A text determines what follows its last [c]. *)
Lemma after_last_unique (c : ascii) (a1 a2 r1 r2 : string) :
  allChars (differs c) r1 = true -> allChars (differs c) r2 = true ->
  a1 +:+ String c r1 = a2 +:+ String c r2 -> r1 = r2.
Proof.
  intros H1 H2. revert a2. induction a1 as [|x a1 IH]; intros [|y a2] E; simpl in E.
  - now injection E.
  - injection E as _ E. rewrite E, allChars_differs_not_in in H1. discriminate.
  - injection E as _ E. rewrite <- E, allChars_differs_not_in in H2. discriminate.
  - injection E as _ E. now apply (IH a2).
Qed.

(** A text determines what precedes its first [c]. *)
Lemma before_first_unique (c : ascii) (a1 a2 r1 r2 : string) :
  allChars (differs c) a1 = true -> allChars (differs c) a2 = true ->
  a1 +:+ String c r1 = a2 +:+ String c r2 -> a1 = a2.
Proof.
  revert a2. induction a1 as [|x a1 IH]; intros [|y a2] H1 H2 E; simpl in *.
  - reflexivity.
  - injection E as -> _. unfold differs in H2. now rewrite Ascii.eqb_refl in H2.
  - injection E as -> _. unfold differs in H1. now rewrite Ascii.eqb_refl in H1.
  - injection E as -> E. apply andb_prop in H1 as [_ H1]. apply andb_prop in H2 as [_ H2].
    f_equal. now apply (IH a2).
Qed.

Lemma endsWith_inv (s p : string) : endsWith s p = true -> exists u, s = u +:+ p.
Proof.
  induction s as [|c s IH]; cbn [endsWith]; intros H.
  - apply orb_prop in H as [H | H]; [| discriminate].
    apply String.eqb_eq in H as <-. now exists "".
  - apply orb_prop in H as [H | H].
    + apply String.eqb_eq in H as <-. now exists "".
    + destruct (IH H) as [u ->]. now exists (String c u).
Qed.

Lemma endsWith_refl (s : string) : endsWith s s = true.
Proof. destruct s; cbn [endsWith]; now rewrite String.eqb_refl. Qed.

Lemma endsWith_append (a b : string) : endsWith (a +:+ b) b = true.
Proof.
  induction a as [|c a IH]; [apply endsWith_refl |].
  change (String c a +:+ b) with (String c (a +:+ b)). cbn [endsWith].
  rewrite IH. apply orb_true_r.
Qed.

Lemma includes_append (a b : string) : includes (a +:+ b) a = true.
Proof.
  destruct a as [|c a]; [destruct b; reflexivity |].
  change (String c a +:+ b) with (String c (a +:+ b)). cbn [includes].
  change (String c (a +:+ b)) with (String c a +:+ b).
  now rewrite startsWith_append.
Qed.

Lemma takeChars_append (a b : string) : takeChars (String.length a) (a +:+ b) = a.
Proof. induction a as [|c a IH]; simpl; [now destruct b | now rewrite IH]. Qed.

Lemma numbered_stem (stem : string) (n : nat) :
  numbered (stem +:+ ".md") n = stem +:+ " (" +:+ decimal n +:+ ").md".
Proof.
  unfold numbered, dropLast. rewrite length_append.
  replace (String.length stem + String.length ".md" - 3)%nat with (String.length stem)
    by (simpl; lia).
  now rewrite takeChars_append.
Qed.

(** An existing path ends with at most one numbered candidate. *)
Lemma numbered_suffix_unique (existingFile stem : string) (i j : nat) :
  endsWith existingFile (stem +:+ " (" +:+ decimal i +:+ ").md") = true ->
  endsWith existingFile (stem +:+ " (" +:+ decimal j +:+ ").md") = true ->
  i = j.
Proof.
  intros [u1 E1]%endsWith_inv [u2 E2]%endsWith_inv.
  rewrite E1 in E2. clear E1.
  assert (E : (u1 +:+ stem +:+ " ") +:+ String "(" (decimal i +:+ ").md")
              = (u2 +:+ stem +:+ " ") +:+ String "(" (decimal j +:+ ").md")).
  { rewrite !append_assoc. exact E2. }
  apply after_last_unique in E;
    [| rewrite allChars_append, decimal_no_paren; reflexivity ..].
  apply decimal_inj.
  apply (before_first_unique ")" _ _ ".md" ".md"); [apply decimal_no_close .. | exact E].
Qed.

(** Among more counters than there are paths, one is blocked by no path,
    when every path blocks at most one counter. *)
Lemma free_counter (blocks : string -> nat -> bool) (paths : list string) :
  (forall p i j, blocks p i = true -> blocks p j = true -> i = j) ->
  forall counters : list nat,
    List.NoDup counters -> (length paths < length counters)%nat ->
    exists n, List.In n counters /\ existsb (fun p => blocks p n) paths = false.
Proof.
  intros Huniq. induction paths as [|p paths IH]; intros counters Hnd Hlen.
  - destruct counters as [|n counters]; [simpl in Hlen; lia |].
    exists n. split; [now left | reflexivity].
  - destruct (existsb (blocks p) counters) eqn:E.
    + apply existsb_exists in E as (i0 & Hin & Hb).
      apply in_split in Hin as (l1 & l2 & ->).
      apply NoDup_remove in Hnd as [Hnd Hnotin].
      destruct (IH (l1 ++ l2) Hnd) as (n & Hn & Hfree).
      { rewrite length_app in *. simpl in Hlen. lia. }
      exists n. split.
      * apply in_app_or in Hn. apply in_or_app. simpl. tauto.
      * cbn [existsb]. rewrite Hfree, orb_false_r.
        destruct (blocks p n) eqn:Ebn; [| reflexivity].
        rewrite (Huniq _ _ _ Ebn Hb) in Hn. contradiction.
    + destruct (IH counters Hnd) as (n & Hn & Hfree); [simpl in Hlen; lia |].
      exists n. split; [exact Hn |].
      cbn [existsb]. rewrite Hfree, orb_false_r.
      destruct (blocks p n) eqn:Ebn; [| reflexivity].
      assert (existsb (blocks p) counters = true) as E'
        by (apply existsb_exists; eauto).
      congruence.
Qed.

(** The loop returns the first free candidate, when one is within reach. *)
Lemma uniqueLoop_returns (taken : string -> bool) (candidate : nat -> string)
    (fuel counter : nat) (potentialFileName : string) :
  taken potentialFileName = true ->
  (exists n, (counter <= n < counter + fuel)%nat /\ taken (candidate n) = false) ->
  exists n, (counter <= n)%nat
            /\ uniqueLoop taken candidate fuel counter potentialFileName = Some (candidate n)
            /\ taken (candidate n) = false
            /\ forall k, (counter <= k < n)%nat -> taken (candidate k) = true.
Proof.
  revert counter potentialFileName.
  induction fuel as [|fuel IH]; intros counter name Htaken (n & Hn & Hfree); [lia |].
  cbn [uniqueLoop]. rewrite Htaken.
  destruct (taken (candidate counter)) eqn:E.
  - destruct (IH (S counter) (candidate counter) E) as (n0 & Hn0 & Hloop & Hfree0 & Hmin).
    { exists n. split; [| exact Hfree].
      assert (n <> counter) by (intros ->; congruence). lia. }
    exists n0. repeat split; [lia | exact Hloop | exact Hfree0 |].
    intros k Hk. destruct (Nat.eq_dec k counter) as [-> | Hne]; [exact E |].
    apply Hmin. lia.
  - exists counter. repeat split; [lia | | exact E | intros k Hk; lia].
    destruct fuel; cbn [uniqueLoop]; now rewrite E.
Qed.

Section UniqueFileName.
Context {U : Utils}.

Lemma getFileName_stem (settings : PluginSettings) (chat : Chat) :
  getFileName settings chat = fileStem settings chat +:+ ".md".
Proof. unfold getFileName, fileStem. now destruct (addDatePrefix settings). Qed.

Lemma nameTaken_elem (existingConversations : gmap string string)
    (folderPath name conversationId : string) :
  existingConversations !! conversationId = Some (folderPath +:+ "/" +:+ name) ->
  nameTaken existingConversations folderPath name = true.
Proof.
  intros H. unfold nameTaken. apply existsb_exists.
  exists (folderPath +:+ "/" +:+ name). split.
  - apply in_map_iff. exists (conversationId, folderPath +:+ "/" +:+ name).
    split; [reflexivity |]. apply list_elem_of_In. now apply elem_of_map_to_list.
  - rewrite includes_append. 
    replace (folderPath +:+ "/" +:+ name) with ((folderPath +:+ "/") +:+ name)
      by apply append_assoc.
    now rewrite endsWith_append.
Qed.

(** The [while] loop of [getUniqueFileName] ends within its fuel. *)
Lemma getUniqueFileName_loop_returns (settings : PluginSettings) (chat : Chat)
    (folderPath : string) (existingConversations : gmap string string) :
  nameTaken existingConversations folderPath (getFileName settings chat) = true ->
  exists n, (1 <= n)%nat
    /\ uniqueLoop (nameTaken existingConversations folderPath)
                  (numbered (getFileName settings chat))
                  (S (size existingConversations)) 1%nat (getFileName settings chat)
       = Some (numbered (getFileName settings chat) n)
    /\ nameTaken existingConversations folderPath (numbered (getFileName settings chat) n) = false
    /\ forall k, (1 <= k < n)%nat ->
         nameTaken existingConversations folderPath (numbered (getFileName settings chat) k) = true.
Proof.
  intros Htaken. apply uniqueLoop_returns; [exact Htaken |].
  set (paths := map snd (map_to_list existingConversations)).
  destruct (free_counter
              (fun p n => includes p folderPath
                          && endsWith p (numbered (getFileName settings chat) n))
              paths) with (counters := seq 1 (S (size existingConversations)))
    as (n & Hn & Hfree).
  - intros p i j [_ Hi]%andb_prop [_ Hj]%andb_prop.
    rewrite getFileName_stem, numbered_stem in Hi, Hj.
    exact (numbered_suffix_unique _ _ _ _ Hi Hj).
  - apply seq_NoDup.
  - unfold paths. rewrite length_map, length_map_to_list, length_seq. lia.
  - exists n. apply in_seq in Hn. split; [lia | exact Hfree].
Qed.

(** The loop of [getUniqueFileName] over the map it is given. For every new
    conversation and every map of existing conversations that holds the
    conversation's base file name in the folder: the chosen
    name is the base name with [ (n)] inserted before the extension, where [n]
    is the smallest positive integer for which no existing path both contains
    the folder path and ends with the numbered name; no existing conversation
    lies at that name in the folder. *)
Theorem getUniqueFileName_numbered (settings : PluginSettings) (chat : Chat)
    (folderPath : string) (existingConversations : gmap string string) :
  (exists conversationId,
      existingConversations !! conversationId
      = Some (folderPath +:+ "/" +:+ getFileName settings chat)) ->
  exists n, (1 <= n)%nat
    /\ getUniqueFileName settings chat folderPath existingConversations
       = fileStem settings chat +:+ " (" +:+ decimal n +:+ ").md"
    /\ nameTaken existingConversations folderPath
         (fileStem settings chat +:+ " (" +:+ decimal n +:+ ").md") = false
    /\ (forall k, (1 <= k < n)%nat ->
          nameTaken existingConversations folderPath
            (fileStem settings chat +:+ " (" +:+ decimal k +:+ ").md") = true)
    /\ (forall conversationId,
          existingConversations !! conversationId
          <> Some (folderPath +:+ "/"
                   +:+ getUniqueFileName settings chat folderPath existingConversations)).
Proof.
  intros [conversationId Hbase].
  pose proof (nameTaken_elem _ _ _ _ Hbase) as Htaken.
  destruct (getUniqueFileName_loop_returns settings chat folderPath existingConversations Htaken)
    as (n & Hn & Hloop & Hfree & Hmin).
  assert (Hres : getUniqueFileName settings chat folderPath existingConversations
                 = fileStem settings chat +:+ " (" +:+ decimal n +:+ ").md").
  { unfold getUniqueFileName. rewrite Hloop. cbn [default].
    now rewrite getFileName_stem, numbered_stem. }
  rewrite getFileName_stem in Hfree, Hmin.
  exists n. split; [exact Hn |]. split; [exact Hres |].
  split; [now rewrite numbered_stem in Hfree |].
  split.
  - intros k Hk. specialize (Hmin k Hk). now rewrite numbered_stem in Hmin.
  - intros other Hother. rewrite Hres in Hother.
    apply nameTaken_elem in Hother. rewrite numbered_stem in Hfree. congruence.
Qed.

End UniqueFileName.

Lemma getUniqueFileName_numbered_witness :
  (exists conversationId,
      oneExisting !! conversationId
      = Some (sampleFolder +:+ "/" +:+ getFileName (U := specUtils) DEFAULT_SETTINGS sampleChat))
  /\ exists n, (1 <= n)%nat
    /\ getUniqueFileName (U := specUtils) DEFAULT_SETTINGS sampleChat sampleFolder oneExisting
       = fileStem (U := specUtils) DEFAULT_SETTINGS sampleChat +:+ " (" +:+ decimal n +:+ ").md"
    /\ nameTaken oneExisting sampleFolder
         (fileStem (U := specUtils) DEFAULT_SETTINGS sampleChat +:+ " (" +:+ decimal n +:+ ").md")
       = false
    /\ (forall k, (1 <= k < n)%nat ->
          nameTaken oneExisting sampleFolder
            (fileStem (U := specUtils) DEFAULT_SETTINGS sampleChat +:+ " (" +:+ decimal k +:+ ").md")
          = true)
    /\ (forall conversationId,
          oneExisting !! conversationId
          <> Some (sampleFolder +:+ "/"
                   +:+ getUniqueFileName (U := specUtils) DEFAULT_SETTINGS sampleChat
                         sampleFolder oneExisting)).
Proof.
  assert (H : exists conversationId,
             oneExisting !! conversationId
             = Some (sampleFolder +:+ "/"
                     +:+ getFileName (U := specUtils) DEFAULT_SETTINGS sampleChat)).
  { exists "old-1". reflexivity. }
  split; [exact H |].
  exact (getUniqueFileName_numbered (U := specUtils) DEFAULT_SETTINGS sampleChat sampleFolder
           oneExisting H).
Defined.

(** The test of the loop is a suffix test: [Chat (1).md] is absent from the
    folder, [My Chat (1).md] is in it, and the name chosen is
    [Chat (2).md]. *)
Lemma getUniqueFileName_not_smallest_counterexample :
  twoExisting !! "old-1"
  = Some (sampleFolder +:+ "/" +:+ getFileName (U := specUtils) DEFAULT_SETTINGS sampleChat)
  /\ existsb (String.eqb (sampleFolder +:+ "/Chat (1).md"))
             (map snd (map_to_list twoExisting)) = false
  /\ getUniqueFileName (U := specUtils) DEFAULT_SETTINGS sampleChat sampleFolder twoExisting
     = "Chat (2).md".
Proof. repeat split; vm_compute; reflexivity. Qed.

(** ** Frames of the engine's steps *)

Lemma errorsExtend_refl (p : Plugin) : errorsExtend p p.
Proof. exists []. now rewrite app_nil_r. Qed.

Lemma errorsExtend_trans (p q r : Plugin) :
  errorsExtend p q -> errorsExtend q r -> errorsExtend p r.
Proof.
  intros [m1 H1] [m2 H2]. exists (m1 ++ m2). now rewrite H2, H1, app_assoc.
Qed.

Lemma sameFiles_refl (v : gmap string AbstractFile) : sameFiles v v.
Proof. intros f c. reflexivity. Qed.

Lemma sameFiles_trans (u v w : gmap string AbstractFile) :
  sameFiles u v -> sameFiles v w -> sameFiles u w.
Proof. intros H1 H2 f c. etransitivity; [apply H2 | apply H1]. Qed.

Lemma sameFiles_insert_folder (v : gmap string AbstractFile) (folderPath : string) :
  v !! folderPath = None -> sameFiles v (<[folderPath := TFolder]> v).
Proof.
  intros Hnone f c. destruct (decide (folderPath = f)) as [<- | Hne].
  - rewrite lookup_insert_eq, Hnone. split; discriminate.
  - now rewrite lookup_insert_ne.
Qed.

Lemma Quiet_refl (p : Plugin) : Quiet p p.
Proof. constructor; try reflexivity; [apply errorsExtend_refl | apply sameFiles_refl]. Qed.

Lemma Quiet_trans (p q r : Plugin) : Quiet p q -> Quiet q r -> Quiet p r.
Proof.
  intros [] []. constructor; try congruence.
  - eapply errorsExtend_trans; eassumption.
  - eapply sameFiles_trans; eassumption.
Qed.

Lemma KeepsCatalogs_refl (p : Plugin) : KeepsCatalogs p p.
Proof. constructor; try reflexivity. apply errorsExtend_refl. Qed.

Lemma KeepsCatalogs_trans (p q r : Plugin) :
  KeepsCatalogs p q -> KeepsCatalogs q r -> KeepsCatalogs p r.
Proof.
  intros [] []. constructor; try congruence.
  eapply errorsExtend_trans; eassumption.
Qed.

Lemma Quiet_KeepsCatalogs (p q : Plugin) : Quiet p q -> KeepsCatalogs p q.
Proof. intros []. constructor; assumption. Qed.

Section Preserves.
Variable R : Plugin -> Plugin -> Prop.
Hypothesis R_refl : forall p, R p p.
Hypothesis R_trans : forall p q r, R p q -> R q r -> R p r.

Lemma preserves_ret {A} (a : A) : preserves R (ret a).
Proof. intros p. apply R_refl. Qed.

Lemma preserves_throw {A} (e : string) : preserves R (@throw A e).
Proof. intros p. apply R_refl. Qed.

Lemma preserves_get {A} (f : Plugin -> A) : preserves R (get f).
Proof. intros p. apply R_refl. Qed.

Lemma preserves_update (f : Plugin -> Plugin) :
  (forall p, R p (f p)) -> preserves R (update f).
Proof. intros H p. apply H. Qed.

Lemma preserves_bind {A B} (m : Async A) (k : A -> Async B) :
  preserves R m -> (forall a, preserves R (k a)) -> preserves R (bind m k).
Proof.
  intros Hm Hk p. unfold exec, bind. specialize (Hm p). unfold exec in Hm.
  destruct (m p) as [[a | e] p']; simpl in *; [| exact Hm].
  eapply R_trans; [exact Hm | apply Hk].
Qed.

Lemma preserves_tryCatch {A} (m : Async A) (handler : string -> Async A) :
  preserves R m -> (forall e, preserves R (handler e)) -> preserves R (tryCatch m handler).
Proof.
  intros Hm Hh p. unfold exec, tryCatch. specialize (Hm p). unfold exec in Hm.
  destruct (m p) as [[a | e] p']; simpl in *; [exact Hm |].
  eapply R_trans; [exact Hm | apply Hh].
Qed.

Lemma preserves_tryFinally {A} (m : Async A) (final : Async unit) :
  preserves R m -> preserves R final -> preserves R (tryFinally m final).
Proof.
  intros Hm Hf p. unfold exec, tryFinally. specialize (Hm p). unfold exec in Hm.
  destruct (m p) as [r p']. specialize (Hf p'). unfold exec in Hf.
  destruct (final p') as [[[] | e] p'']; simpl in *; eapply R_trans; eassumption.
Qed.

End Preserves.

(** Decompose a method into its steps. *)
Ltac frame_steps refl trans :=
  repeat first
    [ apply (preserves_bind _ trans)
    | apply (preserves_tryCatch _ trans)
    | apply (preserves_tryFinally _ trans)
    | apply (preserves_ret _ refl)
    | apply (preserves_throw _ refl)
    | apply (preserves_get _ refl)
    | match goal with
      | |- preserves _ (match ?x with _ => _ end) => destruct x
      | |- preserves _ _ => fail 1
      | |- forall _, _ => intro
      end ].

Section EngineFrames.
Context {U : Utils}.
Variable host : Host.

Lemma errorsExtend_same (p p' : Plugin) :
  globalErrors (importLog p') = globalErrors (importLog p) -> errorsExtend p p'.
Proof. intros H. exists []. now rewrite app_nil_r. Qed.

Lemma errorsExtend_addError (message details : string) (p : Plugin) :
  errorsExtend p (setImportLog (addError message details (importLog p)) p).
Proof. now exists [(message, details)]. Qed.

Lemma logError_quiet (message details : string) : preserves Quiet (logError message details).
Proof.
  intros p. constructor; try reflexivity;
    [apply errorsExtend_addError | apply sameFiles_refl].
Qed.

Lemma logError_keeps (message details : string) :
  preserves KeepsCatalogs (logError message details).
Proof. intros p. apply Quiet_KeepsCatalogs, logError_quiet. Qed.

Lemma ensureFolders_quiet (folders : list string) (currentPath : string) :
  preserves Quiet (ensureFolders host currentPath folders).
Proof.
  revert currentPath. induction folders as [|folder rest IH]; intros currentPath p.
  - apply Quiet_refl.
  - cbn [ensureFolders]. unfold exec, bind at 1, get at 1.
    destruct (vault p !! (currentPath +:+ folder +:+ "/")) as [[content |] |] eqn:E.
    + apply Quiet_refl.
    + apply IH.
    + destruct (createFolderError host (currentPath +:+ folder +:+ "/")) as [error |].
      * destruct (String.eqb error "Folder already exists."); [apply IH |].
        apply (preserves_bind Quiet Quiet_trans); [apply logError_quiet |].
        intros _. apply (preserves_ret Quiet Quiet_refl).
      * unfold bind, update.
        eapply Quiet_trans; [| apply IH].
        constructor; try reflexivity; [now apply errorsExtend_same |].
        now apply sameFiles_insert_folder.
Qed.

Lemma createFolderForChat_quiet (chat : Chat) : preserves Quiet (createFolderForChat host chat).
Proof.
  unfold createFolderForChat. frame_steps Quiet_refl Quiet_trans.
  apply ensureFolders_quiet.
Qed.

(** The updates of the log, the counters and the vault keep the catalogs. *)
Lemma setVault_keeps (f : Plugin -> gmap string AbstractFile) :
  preserves KeepsCatalogs (update (fun p => setVault (f p) p)).
Proof. intros p. constructor; try reflexivity. now apply errorsExtend_same. Qed.

Lemma setCounters_keeps (f : Plugin -> Counters) :
  preserves KeepsCatalogs (update (fun p => setCounters (f p) p)).
Proof. intros p. constructor; try reflexivity. now apply errorsExtend_same. Qed.

Lemma setImportLog_keeps (f : Plugin -> ImportLog) :
  (forall p, globalErrors (f p) = globalErrors (importLog p)) ->
  preserves KeepsCatalogs (update (fun p => setImportLog (f p) p)).
Proof.
  intros H p. constructor; try reflexivity. apply errorsExtend_same. apply H.
Qed.

Ltac keeps_steps :=
  frame_steps KeepsCatalogs_refl KeepsCatalogs_trans;
  try first
    [ apply logError_keeps
    | apply setVault_keeps
    | apply setCounters_keeps
    | apply setImportLog_keeps; intros ?; reflexivity ].

Lemma writeToFile_keeps (fileName content : string) :
  preserves KeepsCatalogs (writeToFile host fileName content).
Proof. unfold writeToFile, vaultModify, vaultCreate. keeps_steps. Qed.

Lemma createNewNote_keeps (chat : Chat) (folderPath : string)
    (existingConversations : gmap string string) :
  preserves KeepsCatalogs (createNewNote host chat folderPath existingConversations).
Proof. unfold createNewNote, writeToFile, vaultModify, vaultCreate. keeps_steps. Qed.

Lemma updateExistingNote_keeps (chat : Chat) (filePath : string) :
  preserves KeepsCatalogs (updateExistingNote host chat filePath).
Proof. unfold updateExistingNote. keeps_steps. Qed.

Lemma handleNewChat_keeps (chat : Chat) (folderPath : string)
    (existingConversations : gmap string string) :
  preserves KeepsCatalogs (handleNewChat host chat folderPath existingConversations).
Proof.
  unfold handleNewChat.
  apply (preserves_bind _ KeepsCatalogs_trans); [apply setCounters_keeps |].
  intros _. apply createNewNote_keeps.
Qed.

Lemma handleExistingChat_keeps (chat : Chat) (record : ConversationRecord)
    (folderPath : string) :
  preserves KeepsCatalogs (handleExistingChat host chat record folderPath).
Proof.
  unfold handleExistingChat. destruct (_ >=? _).
  - now apply setImportLog_keeps.
  - apply (preserves_bind _ KeepsCatalogs_trans); [apply setCounters_keeps |].
    intros _. apply updateExistingNote_keeps.
Qed.

End EngineFrames.

Section SingleChat.
Context {U : Utils}.
Variable host : Host.

Lemma processSingleChat_unfold (chat : Chat) (existingConversations : gmap string string) :
  processSingleChat host chat existingConversations
  = tryCatch (processSingleChatBody host chat existingConversations)
             (fun chatError => logError ("Error processing chat: " +:+ orUntitled chat) chatError).
Proof. reflexivity. Qed.

(** [processSingleChat] never throws. *)
Lemma processSingleChat_returns (chat : Chat) (existingConversations : gmap string string)
    (p : Plugin) :
  fst (processSingleChat host chat existingConversations p) = Return tt.
Proof.
  rewrite processSingleChat_unfold. unfold tryCatch.
  destruct (processSingleChatBody host chat existingConversations p) as [[[] | e] p']; reflexivity.
Qed.

Lemma processChats_cons (chat : Chat) (rest : list Chat)
    (existingConversations : gmap string string) (p : Plugin) :
  exec (processChats host (chat :: rest) existingConversations) p
  = exec (processChats host rest existingConversations)
         (exec (processSingleChat host chat existingConversations) p).
Proof.
  cbn [processChats]. unfold exec, bind.
  pose proof (processSingleChat_returns chat existingConversations p) as H.
  destruct (processSingleChat host chat existingConversations p) as [[[] | e] p'];
    [reflexivity | discriminate].
Qed.

(** The outcome of the [try] block: it returns after writing the record of
    the chat, or it throws with the catalogs as they were. *)
Lemma processSingleChatBody_cases (chat : Chat) (existingConversations : gmap string string)
    (p : Plugin) :
  (exists q folderPath,
      processSingleChatBody host chat existingConversations p
      = (Return tt,
         setConversationRecords
           (<[chat_id chat := recordFor q chat folderPath]> (conversationRecords q)) q)
      /\ KeepsCatalogs p q)
  \/ (exists q e,
        processSingleChatBody host chat existingConversations p = (Throw e, q)
        /\ KeepsCatalogs p q).
Proof.
  remember (processSingleChatBody host chat existingConversations p) as result eqn:Hres.
  unfold processSingleChatBody, bind, get in Hres.
  pose proof (createFolderForChat_quiet host chat p) as H0. unfold exec in H0.
  destruct (createFolderForChat host chat p) as [[folderPath | e] p0]; cbn [snd] in H0;
    apply Quiet_KeepsCatalogs in H0; [| right; subst result; eauto].
  set (step := match conversationRecords p0 !! chat_id chat with
               | Some record => handleExistingChat host chat record folderPath
               | None => handleNewChat host chat folderPath existingConversations
               end) in Hres.
  assert (H1 : KeepsCatalogs p0 (exec step p0)).
  { unfold step. destruct (conversationRecords p0 !! chat_id chat).
    - apply handleExistingChat_keeps.
    - apply handleNewChat_keeps. }
  unfold exec in H1. destruct (step p0) as [[[] | e] p1]; cbn [snd] in H1; subst result.
  - left. exists p1, folderPath. split; [reflexivity |].
    eapply KeepsCatalogs_trans; eassumption.
  - right. exists p1, e. split; [reflexivity |].
    eapply KeepsCatalogs_trans; eassumption.
Qed.

Lemma app_longer {A} (l more : list A) (x : A) : (l ++ more) ++ [x] <> l.
Proof.
  intros H. apply (f_equal (@length A)) in H. rewrite !length_app in H. simpl in H. lia.
Qed.

(** After [processSingleChat]: the settings and the archive catalog are kept,
    the global errors are extended, and either the record of the chat is
    written (with the update time of the chat), or the records are kept and an
    error was logged. *)
Lemma processSingleChat_records (chat : Chat) (existingConversations : gmap string string)
    (p : Plugin) :
  let p' := exec (processSingleChat host chat existingConversations) p in
  settings p' = settings p
  /\ errorsExtend p p'
  /\ ((exists folderPath,
          conversationRecords p'
          = <[chat_id chat := recordFor p chat folderPath]> (conversationRecords p))
      \/ (conversationRecords p' = conversationRecords p
          /\ globalErrors (importLog p') <> globalErrors (importLog p))).
Proof.
  cbn zeta. rewrite processSingleChat_unfold. unfold exec, tryCatch.
  destruct (processSingleChatBody_cases chat existingConversations p)
    as [(q & folderPath & -> & [Hs Ha Hr He]) | (q & e & -> & [Hs Ha Hr He])]; cbn [snd].
  - split; [exact Hs |]. split; [exact He |]. left. exists folderPath.
    cbn [conversationRecords setConversationRecords]. unfold recordFor. now rewrite Hr, Hs.
  - unfold logError, update. cbn [snd].
    split; [exact Hs |]. split.
    + eapply errorsExtend_trans; [exact He | apply errorsExtend_addError].
    + right. split; [exact Hr |]. destruct He as [more He].
      cbn [importLog setImportLog globalErrors addError]. rewrite He. apply app_longer.
Qed.

Lemma processChats_records_other (chats : list Chat)
    (existingConversations : gmap string string) (p : Plugin) (conversationId : string) :
  conversationId ∉ map chat_id chats ->
  conversationRecords (exec (processChats host chats existingConversations) p) !! conversationId
  = conversationRecords p !! conversationId.
Proof.
  revert p. induction chats as [|chat rest IH]; intros p Hnot; [reflexivity |].
  rewrite processChats_cons. cbn [map] in Hnot. apply not_elem_of_cons in Hnot as [Hne Hrest].
  rewrite IH by exact Hrest.
  destruct (processSingleChat_records chat existingConversations p) as (_ & _ & [[f ->] | [-> _]]).
  - now rewrite lookup_insert_ne.
  - reflexivity.
Qed.

Lemma processChats_errorsExtend (chats : list Chat)
    (existingConversations : gmap string string) (p : Plugin) :
  errorsExtend p (exec (processChats host chats existingConversations) p).
Proof.
  revert p. induction chats as [|chat rest IH]; intros p; [apply errorsExtend_refl |].
  rewrite processChats_cons. eapply errorsExtend_trans; [| apply IH].
  apply processSingleChat_records.
Qed.

Lemma errorsExtend_squeeze (p q r : Plugin) :
  errorsExtend p q -> errorsExtend q r ->
  globalErrors (importLog r) = globalErrors (importLog p) ->
  globalErrors (importLog q) = globalErrors (importLog p)
  /\ globalErrors (importLog r) = globalErrors (importLog q).
Proof.
  intros [m1 H1] [m2 H2] H. rewrite H2, H1 in H.
  assert (m1 = [] /\ m2 = []) as [-> ->].
  { apply (f_equal (@length _)) in H. rewrite !length_app in H.
    destruct m1, m2; simpl in H; try lia. auto. }
  rewrite H2, H1, !app_nil_r. auto.
Qed.

(** A run that logs no error leaves, for every conversation of an archive
    with distinct identifiers, a record with the update time of the
    conversation. *)
Lemma processChats_records_complete (chats : list Chat)
    (existingConversations : gmap string string) (p : Plugin) :
  NoDup (map chat_id chats) ->
  globalErrors (importLog (exec (processChats host chats existingConversations) p))
  = globalErrors (importLog p) ->
  forall chat, chat ∈ chats ->
    exists record,
      conversationRecords (exec (processChats host chats existingConversations) p)
        !! chat_id chat = Some record
      /\ updateTime record = chat_update_time chat.
Proof.
  revert p. induction chats as [|first rest IH]; intros p Hnd Herr chat Hin.
  - now apply elem_of_nil in Hin.
  - cbn [map] in Hnd. apply NoDup_cons in Hnd as [Hfresh Hnd].
    rewrite processChats_cons in Herr |- *.
    destruct (processSingleChat_records first existingConversations p) as (_ & He1 & Hrec).
    destruct (errorsExtend_squeeze _ _ _ He1 (processChats_errorsExtend rest _ _) Herr)
      as [Hq Hr].
    apply elem_of_cons in Hin as [-> | Hin].
    + rewrite processChats_records_other by exact Hfresh.
      destruct Hrec as [[folderPath ->] | [_ Hne]]; [| contradiction].
      rewrite lookup_insert_eq. eexists. split; reflexivity.
    + now apply IH.
Qed.

End SingleChat.

Lemma Idle_refl (p : Plugin) : Idle p p.
Proof. constructor; try reflexivity; [apply errorsExtend_refl | apply sameFiles_refl]. Qed.

Lemma Idle_trans (p q r : Plugin) : Idle p q -> Idle q r -> Idle p r.
Proof.
  intros [] []. constructor; try congruence.
  - eapply errorsExtend_trans; eassumption.
  - eapply sameFiles_trans; eassumption.
Qed.

Lemma Quiet_Idle (p q : Plugin) : Quiet p q -> Idle p q.
Proof. intros []. constructor; assumption. Qed.

Section SecondRun.
Context {U : Utils}.
Variable host : Host.

(** A conversation whose record is at least as recent as the conversation is
    skipped: no document is created, nothing is merged. *)
Lemma processSingleChat_idle (chat : Chat) (existingConversations : gmap string string)
    (p : Plugin) (record : ConversationRecord) :
  conversationRecords p !! chat_id chat = Some record ->
  updateTime record >= chat_update_time chat ->
  let p' := exec (processSingleChat host chat existingConversations) p in
  Idle p p'
  /\ (forall other, other <> chat_id chat ->
        conversationRecords p' !! other = conversationRecords p !! other)
  /\ (exists record', conversationRecords p' !! chat_id chat = Some record'
                      /\ updateTime record' >= chat_update_time chat)
  /\ (globalErrors (importLog p') = globalErrors (importLog p) ->
      exists entry, skipped (importLog p') = skipped (importLog p) ++ [entry]
                    /\ title entry = orUntitled chat
                    /\ reason entry = Some "No Updates").
Proof.
  intros Hrec Hge. cbn zeta.
  rewrite processSingleChat_unfold. unfold exec, tryCatch, processSingleChatBody, bind, get.
  pose proof (createFolderForChat_quiet host chat p) as H0. unfold exec in H0.
  destruct (createFolderForChat host chat p) as [[folderPath | e] p0]; cbn [snd] in H0.
  - pose proof (quiet_records _ _ H0) as Hr0. rewrite Hr0, Hrec.
    unfold handleExistingChat.
    replace (updateTime record >=? chat_update_time chat) with true
      by (symmetry; apply Z.geb_le; lia).
    unfold update, updateConversationRecord. cbn [snd].
    destruct H0 as [Hs Ha _ Hc _ _ Hcr Hup Hsk Hfa _ _ He Hfi]. split; [| split; [| split]].
    + constructor; cbn; try assumption.
    + intros other Hne. cbn. rewrite lookup_insert_ne by congruence. now rewrite Hr0.
    + cbn. rewrite lookup_insert_eq. eexists. split; [reflexivity |]. cbn. lia.
    + intros _. cbn. rewrite Hsk. eexists. split; [reflexivity |]. split; reflexivity.
  - unfold logError, update. cbn [snd].
    destruct H0 as [Hs Ha Hr0 Hc _ _ Hcr Hup Hsk Hfa _ _ He Hfi]. split; [| split; [| split]].
    + constructor; cbn; try assumption.
      eapply errorsExtend_trans; [exact He | apply errorsExtend_addError].
    + intros other _. cbn. now rewrite Hr0.
    + cbn. rewrite Hr0, Hrec. exists record. split; [reflexivity | exact Hge].
    + intros Heq. exfalso. destruct He as [more He]. cbn in Heq. rewrite He in Heq.
      exact (app_longer _ _ _ Heq).
Qed.

Lemma processChats_idle (chats : list Chat) (existingConversations : gmap string string)
    (p : Plugin) :
  NoDup (map chat_id chats) ->
  (forall chat, chat ∈ chats ->
     exists record, conversationRecords p !! chat_id chat = Some record
                    /\ updateTime record >= chat_update_time chat) ->
  let p' := exec (processChats host chats existingConversations) p in
  Idle p p'
  /\ (globalErrors (importLog p') = globalErrors (importLog p) ->
      exists entries, skipped (importLog p') = skipped (importLog p) ++ entries
                      /\ skippedFor chats entries).
Proof.
  revert p. induction chats as [|chat rest IH]; intros p Hnd Hinv; cbn zeta.
  - split; [apply Idle_refl |]. intros _. exists []. split; [now rewrite app_nil_r | constructor].
  - cbn [map] in Hnd. apply NoDup_cons in Hnd as [Hfresh Hnd].
    rewrite processChats_cons.
    destruct (Hinv chat) as (record & Hrec & Hge); [now left |].
    destruct (processSingleChat_idle chat existingConversations p record Hrec Hge)
      as (Hidle & Hother & _ & Hskip).
    set (q := exec (processSingleChat host chat existingConversations) p) in *.
    destruct (IH q Hnd) as [Hidle' Hskip'].
    { intros chat' Hin. rewrite Hother; [apply Hinv; now right |].
      intros Heq. apply Hfresh. rewrite <- Heq.
      apply list_elem_of_In, in_map. now apply list_elem_of_In. }
    split; [eapply Idle_trans; eassumption |].
    intros Herr.
    destruct (errorsExtend_squeeze _ _ _ (idle_globalErrors _ _ Hidle)
                (idle_globalErrors _ _ Hidle') Herr) as [Hq Hr].
    destruct (Hskip Hq) as (entry & Hs1 & Ht & Hreason).
    destruct (Hskip' Hr) as (entries & Hs2 & Hall).
    exists (entry :: entries). split.
    + rewrite Hs2, Hs1, <- app_assoc. reflexivity.
    + constructor; auto.
Qed.

(** C1. For every archive whose conversations have distinct identifiers:
    after a synchronization run over it that logged no error, a second run
    over the same archive (from any state with the conversation records the
    first run left) creates no document and merges nothing: the counters, the
    created, updated and failed lists and every file of the vault are as
    before; and when the second run logs no error either, it skips every
    conversation with the reason [No Updates]. *)
Theorem second_run_creates_and_merges_nothing (host1 : Host) (chats : list Chat)
    (existing1 existing2 : gmap string string) (p q : Plugin) :
  NoDup (map chat_id chats) ->
  globalErrors (importLog (exec (processChats host1 chats existing1) p))
  = globalErrors (importLog p) ->
  conversationRecords q = conversationRecords (exec (processChats host1 chats existing1) p) ->
  counters (exec (processChats host chats existing2) q) = counters q
  /\ created (importLog (exec (processChats host chats existing2) q)) = created (importLog q)
  /\ updated (importLog (exec (processChats host chats existing2) q)) = updated (importLog q)
  /\ failed (importLog (exec (processChats host chats existing2) q)) = failed (importLog q)
  /\ sameFiles (vault q) (vault (exec (processChats host chats existing2) q))
  /\ (globalErrors (importLog (exec (processChats host chats existing2) q))
      = globalErrors (importLog q) ->
      exists entries,
        skipped (importLog (exec (processChats host chats existing2) q))
        = skipped (importLog q) ++ entries
        /\ skippedFor chats entries).
Proof.
  intros Hnd Herr Hq.
  destruct (processChats_idle chats existing2 q Hnd) as [[] Hskip].
  { intros chat Hin. rewrite Hq.
    destruct (processChats_records_complete host1 chats existing1 p Hnd Herr chat Hin)
      as (record & Hrec & Htime).
    exists record. split; [exact Hrec | lia]. }
  do 5 (split; [assumption |]). exact Hskip.
Qed.

End SecondRun.

Section Classification.
Context {U : Utils}.
Variable host : Host.

Lemma processSingleChat_after_folder (chat : Chat)
    (existingConversations : gmap string string) (p p0 : Plugin) (folderPath : string) :
  createFolderForChat host chat p = (Return folderPath, p0) ->
  processSingleChat host chat existingConversations p
  = tryCatch (match conversationRecords p !! chat_id chat with
              | Some record => handleExistingChat host chat record folderPath
              | None => handleNewChat host chat folderPath existingConversations
              end ;;
              updateConversationRecord chat folderPath)
             (chatErrorHandler chat) p0.
Proof.
  intros Hfolder.
  pose proof (createFolderForChat_quiet host chat p) as Hq. unfold exec in Hq.
  rewrite Hfolder in Hq. cbn [snd] in Hq.
  pose proof (quiet_records _ _ Hq) as Hrec.
  unfold processSingleChat, chatErrorHandler, tryCatch, bind, get. rewrite Hfolder.
  cbv beta iota. now rewrite Hrec.
Qed.

(** The three branches of [processSingleChat]. For every conversation and
    every state in which the folder of the conversation can be made: with no
    record for the identifier the
    conversation is new and [createNewNote] runs; with a record whose update
    time is at least the conversation's (ties included) the conversation is
    skipped with the reason [No Updates], the vault and the counters stay as
    they are; with a record whose update time is smaller the merge
    [updateExistingNote] runs on the recorded path. In each case the record of
    the conversation is written afterwards: in the skipped branch its update
    time becomes the conversation's, also where the recorded one was
    greater. *)
Theorem processSingleChat_classifies (chat : Chat) (existingConversations : gmap string string)
    (p p0 : Plugin) (folderPath : string) :
  createFolderForChat host chat p = (Return folderPath, p0) ->
  (conversationRecords p !! chat_id chat = None ->
     processSingleChat host chat existingConversations p
     = tryCatch (createNewNote host chat folderPath existingConversations ;;
                 updateConversationRecord chat folderPath)
                (chatErrorHandler chat)
                (setCounters (incrNewToImport (counters p0)) p0))
  /\ (forall record,
        conversationRecords p !! chat_id chat = Some record ->
        updateTime record >= chat_update_time chat ->
        processSingleChat host chat existingConversations p
        = (Return tt,
           setConversationRecords
             (<[chat_id chat := recordFor p chat folderPath]> (conversationRecords p))
             (setImportLog
                (addSkipped (orUntitled chat) (path record)
                            (formatTimestamp (chat_create_time chat) FormatDate)
                            (formatTimestamp (chat_update_time chat) FormatDate)
                            "No Updates" (importLog p0))
                p0)))
  /\ (forall record,
        conversationRecords p !! chat_id chat = Some record ->
        updateTime record < chat_update_time chat ->
        processSingleChat host chat existingConversations p
        = tryCatch (updateExistingNote host chat (path record) ;;
                    updateConversationRecord chat folderPath)
                   (chatErrorHandler chat)
                   (setCounters (incrToUpdate (counters p0)) p0)).
Proof.
  intros Hfolder.
  pose proof (createFolderForChat_quiet host chat p) as Hq. unfold exec in Hq.
  rewrite Hfolder in Hq. cbn [snd] in Hq.
  pose proof (quiet_records _ _ Hq) as Hrec. pose proof (quiet_settings _ _ Hq) as Hset.
  rewrite (processSingleChat_after_folder chat existingConversations p p0 folderPath Hfolder).
  split; [| split].
  - intros ->. unfold handleNewChat, tryCatch, bind, update. reflexivity.
  - intros record -> Hge. unfold handleExistingChat.
    replace (updateTime record >=? chat_update_time chat) with true
      by (symmetry; apply Z.geb_le; lia).
    unfold tryCatch, bind, update, updateConversationRecord, recordFor. cbn.
    now rewrite Hrec, Hset.
  - intros record -> Hlt. unfold handleExistingChat.
    replace (updateTime record >=? chat_update_time chat) with false
      by (symmetry; rewrite Z.geb_leb; apply Z.leb_gt; lia).
    unfold tryCatch, bind, update. reflexivity.
Qed.

End Classification.

Lemma processSingleChat_classifies_witness :
  createFolderForChat (U := specUtils) quietHost sampleChat freshPlugin
  = (Return sampleFolder,
     exec (createFolderForChat (U := specUtils) quietHost sampleChat) freshPlugin)
  /\ (conversationRecords freshPlugin !! chat_id sampleChat = None ->
      processSingleChat (U := specUtils) quietHost sampleChat ∅ freshPlugin
      = tryCatch (createNewNote (U := specUtils) quietHost sampleChat sampleFolder ∅ ;;
                  updateConversationRecord (U := specUtils) sampleChat sampleFolder)
                 (chatErrorHandler sampleChat)
                 (setCounters
                    (incrNewToImport
                       (counters (exec (createFolderForChat (U := specUtils) quietHost sampleChat)
                                       freshPlugin)))
                    (exec (createFolderForChat (U := specUtils) quietHost sampleChat)
                          freshPlugin))).
Proof.
  assert (H : createFolderForChat (U := specUtils) quietHost sampleChat freshPlugin
              = (Return sampleFolder,
                 exec (createFolderForChat (U := specUtils) quietHost sampleChat) freshPlugin)).
  { vm_compute. reflexivity. }
  split; [exact H |].
  exact (proj1 (processSingleChat_classifies (U := specUtils) quietHost sampleChat ∅
                  freshPlugin _ sampleFolder H)).
Defined.

Lemma second_run_creates_and_merges_nothing_witness :
  NoDup (map chat_id sampleArchive)
  /\ globalErrors (importLog afterFirstRun) = globalErrors (importLog freshPlugin)
  /\ conversationRecords afterFirstRun = conversationRecords afterFirstRun
  /\ counters (exec (processChats (U := specUtils) quietHost sampleArchive ∅) afterFirstRun)
     = counters afterFirstRun
  /\ created (importLog (exec (processChats (U := specUtils) quietHost sampleArchive ∅)
                              afterFirstRun))
     = created (importLog afterFirstRun)
  /\ updated (importLog (exec (processChats (U := specUtils) quietHost sampleArchive ∅)
                              afterFirstRun))
     = updated (importLog afterFirstRun).
Proof.
  assert (Hnd : NoDup (map chat_id sampleArchive)).
  { apply (bool_decide_unpack _). vm_compute. exact I. }
  assert (Herr : globalErrors (importLog afterFirstRun) = globalErrors (importLog freshPlugin)).
  { vm_compute. reflexivity. }
  split; [exact Hnd |]. split; [exact Herr |]. split; [reflexivity |].
  pose proof (second_run_creates_and_merges_nothing (U := specUtils) quietHost quietHost
                sampleArchive ∅ ∅ freshPlugin afterFirstRun Hnd Herr eq_refl)
    as (Hcounters & Hcreated & Hupdated & _).
  split; [exact Hcounters |]. split; [exact Hcreated | exact Hupdated].
Defined.

(** ** The loops that look for a free name end within their fuel *)

Lemma string_of_uint_no_space (d : Decimal.uint) :
  allChars (differs " ") (NilEmpty.string_of_uint d) = true.
Proof. induction d; simpl; auto. Qed.

Lemma decimal_no_space (n : nat) : allChars (differs " ") (decimal n) = true.
Proof.
  unfold decimal, NilZero.string_of_uint.
  destruct (Nat.to_uint n); try reflexivity; apply string_of_uint_no_space.
Qed.

Lemma append_inv_l (a x y : string) : a +:+ x = a +:+ y -> x = y.
Proof. induction a as [|c a IH]; simpl; intros H; [exact H | injection H as H; auto]. Qed.

Lemma logName_inj (stamp : string) (i j : nat) :
  logName stamp (Some i) = logName stamp (Some j) -> i = j.
Proof.
  unfold logName. intros H. apply append_inv_l in H.
  change ("-" +:+ decimal i +:+ " - ChatGPT Import log.md")
    with (String "-" (decimal i +:+ String " " "- ChatGPT Import log.md")) in H.
  change ("-" +:+ decimal j +:+ " - ChatGPT Import log.md")
    with (String "-" (decimal j +:+ String " " "- ChatGPT Import log.md")) in H.
  injection H as H. apply decimal_inj.
  exact (before_first_unique " " _ _ _ _ (decimal_no_space i) (decimal_no_space j) H).
Qed.

(** The [while] loop of [writeImportLog] finds a path that is not in the
    vault. *)
Lemma logPath_loop_returns (files : gmap string AbstractFile) (logFolderPath stamp : string) :
  exists logFilePath,
    uniqueLoop (fun candidate => bool_decide (is_Some (files !! candidate)))
               (fun counter => logFolderPath +:+ "/" +:+ logName stamp (Some counter))
               (S (size files)) 1%nat (logFolderPath +:+ "/" +:+ logName stamp None)
    = Some logFilePath
    /\ files !! logFilePath = None.
Proof.
  set (taken := fun candidate : string => bool_decide (is_Some (files !! candidate))).
  set (candidate := fun counter : nat => logFolderPath +:+ "/" +:+ logName stamp (Some counter)).
  assert (Hfree : forall name, taken name = false -> files !! name = None).
  { intros name H. unfold taken in H. apply bool_decide_eq_false in H.
    destruct (files !! name); [exfalso; apply H; eauto | reflexivity]. }
  destruct (taken (logFolderPath +:+ "/" +:+ logName stamp None)) eqn:E.
  - destruct (uniqueLoop_returns taken candidate (S (size files)) 1
                (logFolderPath +:+ "/" +:+ logName stamp None) E)
      as (n & _ & Hloop & Hn & _).
    + destruct (free_counter (fun p n => String.eqb p (candidate n))
                  (map fst (map_to_list files))) with (counters := seq 1 (S (size files)))
        as (n & Hn & Hnone).
      * intros p i j Hi%String.eqb_eq Hj%String.eqb_eq. subst p. unfold candidate in Hj.
        apply append_inv_l, append_inv_l in Hj. now apply logName_inj in Hj.
      * apply seq_NoDup.
      * rewrite length_map, length_map_to_list, length_seq. lia.
      * exists n. apply in_seq in Hn. split; [lia |].
        unfold taken. apply bool_decide_eq_false. intros [entry Hentry].
        assert (existsb (fun p => String.eqb p (candidate n)) (map fst (map_to_list files))
                = true) as Hyes; [| congruence].
        apply existsb_exists. exists (candidate n). split; [| apply String.eqb_refl].
        apply in_map_iff. exists (candidate n, entry). split; [reflexivity |].
        apply list_elem_of_In. now apply elem_of_map_to_list.
    + exists (candidate n). split; [exact Hloop | now apply Hfree].
  - exists (logFolderPath +:+ "/" +:+ logName stamp None). split; [| now apply Hfree].
    cbn [uniqueLoop]. fold taken. now rewrite E.
Qed.

Section LoopsReturn.
Context {U : Utils}.

(** The [while] loop of [getUniqueFileName] returns, whatever the existing
    conversations are. *)
Lemma getUniqueFileName_loop_total (settings : PluginSettings) (chat : Chat)
    (folderPath : string) (existingConversations : gmap string string) :
  uniqueLoop (nameTaken existingConversations folderPath)
             (numbered (getFileName settings chat))
             (S (size existingConversations)) 1%nat (getFileName settings chat)
  = Some (getUniqueFileName settings chat folderPath existingConversations).
Proof.
  unfold getUniqueFileName.
  destruct (nameTaken existingConversations folderPath (getFileName settings chat)) eqn:E.
  - destruct (getUniqueFileName_loop_returns settings chat folderPath existingConversations E)
      as (n & _ & -> & _). reflexivity.
  - cbn [uniqueLoop]. now rewrite E.
Qed.

End LoopsReturn.

(** ** An archive without [conversations.json] *)

Lemma ReportOnly_refl (isReport : string -> Prop) (p : Plugin) : ReportOnly isReport p p.
Proof. constructor; try reflexivity; [apply errorsExtend_refl | auto]. Qed.

Lemma ReportOnly_trans (isReport : string -> Prop) (p q r : Plugin) :
  ReportOnly isReport p q -> ReportOnly isReport q r -> ReportOnly isReport p r.
Proof.
  intros [] []. constructor; try congruence.
  - eapply errorsExtend_trans; eassumption.
  - intros f c H. destruct (report_files1 f c H) as [H' | H']; auto.
Qed.

Lemma Quiet_ReportOnly (isReport : string -> Prop) (p q : Plugin) :
  Quiet p q -> ReportOnly isReport p q.
Proof.
  intros []. constructor; try assumption.
  intros f c H. left. now apply quiet_files0.
Qed.

Lemma includes_append_r (a b p : string) : includes b p = true -> includes (a +:+ b) p = true.
Proof.
  intros H. induction a as [|c a IH]; [exact H |].
  change (String c a +:+ b) with (String c (a +:+ b)). cbn [includes].
  rewrite IH. apply orb_true_r.
Qed.

Lemma includes_middle (a b c : string) : includes (a +:+ b +:+ c) b = true.
Proof. apply includes_append_r, includes_append. Qed.

Section InvalidArchive.
Context {U : Utils}.
Variable host : Host.

Lemma writeToFile_report (fileName content : string) :
  showsInvalidArchive content ->
  preserves (ReportOnly showsInvalidArchive) (writeToFile host fileName content).
Proof.
  intros Hcontent.
  assert (Hset : preserves (ReportOnly showsInvalidArchive)
                   (update (fun p => setVault (<[fileName := TFile content]> (vault p)) p))).
  { intros p. constructor; try reflexivity; [now apply errorsExtend_same |].
    intros f c. cbn. destruct (decide (fileName = f)) as [<- | Hne].
    - rewrite lookup_insert_eq. intros [= <-]. now right.
    - rewrite lookup_insert_ne by exact Hne. now left. }
  unfold writeToFile, vaultModify, vaultCreate.
  frame_steps (ReportOnly_refl showsInvalidArchive) (ReportOnly_trans showsInvalidArchive);
    try exact Hset.
  all: intros p; apply Quiet_ReportOnly, logError_quiet.
Qed.

Lemma notice_report (text : string) : preserves (ReportOnly showsInvalidArchive) (notice text).
Proof. intros p. constructor; try reflexivity; [now apply errorsExtend_same | auto]. Qed.

(** The report of a log whose first global error is the invalid archive. *)
Lemma generateLogContent_shows (log : ImportLog) (more : list (string * string)) :
  globalErrors log = ("Error handling zip file", "Invalid ZIP structure") :: more ->
  showsInvalidArchive (generateLogContent log).
Proof.
  intros H. unfold showsInvalidArchive, generateLogContent.
  rewrite H. cbn [whenNonEmpty]. unfold generateErrorTable. cbn [fold_right fst snd].
  rewrite !append_assoc.
  repeat first [ exact (includes_append invalidArchiveRow _) | apply includes_append_r ].
Qed.

Lemma startsWith_append_l (a b p : string) :
  startsWith a p = true -> startsWith (a +:+ b) p = true.
Proof. intros [r ->]%startsWith_inv. rewrite append_assoc. apply startsWith_append. Qed.

Lemma includes_append_l (a b p : string) : includes a p = true -> includes (a +:+ b) p = true.
Proof.
  induction a as [|c a IH]; intros H.
  - cbn [includes] in H. rewrite orb_false_r in H. apply startsWith_nil in H as ->.
    destruct b; reflexivity.
  - change (String c a +:+ b) with (String c (a +:+ b)). cbn [includes] in H |- *.
    apply orb_prop in H as [H | H].
    + change (String c (a +:+ b)) with (String c a +:+ b).
      now rewrite (startsWith_append_l _ _ _ H).
    + rewrite (IH H). apply orb_true_r.
Qed.

Lemma writeImportLog_report (zipFileName : string) (p : Plugin) (more : list (string * string)) :
  globalErrors (importLog p) = ("Error handling zip file", "Invalid ZIP structure") :: more ->
  ReportOnly showsInvalidArchive p (exec (writeImportLog host zipFileName) p).
Proof.
  intros Hlog. unfold writeImportLog, exec, bind at 1, get at 1. cbv beta iota.
  unfold bind at 1.
  pose proof (ensureFolders_quiet host
                (filter (fun f => negb (String.eqb f ""))
                        (split "/" (archiveFolder (settings p) +:+ "/logs")))
                "" p) as Hq.
  unfold exec in Hq. unfold ensureFolderExists.
  destruct (ensureFolders host "" _ p) as [[[error |] | e] p1]; cbn [snd] in Hq |- *.
  - eapply ReportOnly_trans; [apply Quiet_ReportOnly, Hq |].
    apply (preserves_bind _ (ReportOnly_trans showsInvalidArchive)).
    + intros q. apply Quiet_ReportOnly, logError_quiet.
    + intros _. apply notice_report.
  - eapply ReportOnly_trans; [apply Quiet_ReportOnly, Hq |].
    unfold bind at 1, get at 1. cbv beta iota. unfold bind at 1, get at 1. cbv beta iota.
    apply (preserves_tryCatch _ (ReportOnly_trans showsInvalidArchive)).
    + apply writeToFile_report. unfold showsInvalidArchive.
      destruct (quiet_globalErrors _ _ Hq) as [more' Hmore]. rewrite Hlog in Hmore.
      repeat first
        [ apply includes_append_l; exact (generateLogContent_shows _ _ Hmore)
        | apply includes_append_r ].
    + intros e. apply (preserves_bind _ (ReportOnly_trans showsInvalidArchive)).
      * intros q. apply Quiet_ReportOnly, logError_quiet.
      * intros _. apply notice_report.
  - apply Quiet_ReportOnly, Hq.
Qed.

(** On a host that accepts, the folders are made. *)
Lemma ensureFolders_succeeds (folders : list string) (currentPath : string) (p : Plugin) :
  hostAccepts host -> filesAreNotFolders (vault p) ->
  exists p1, ensureFolders host currentPath folders p = (Return None, p1)
             /\ Quiet p p1 /\ filesAreNotFolders (vault p1).
Proof.
  intros [Hfolder Hfile]. revert currentPath p.
  induction folders as [|folder rest IH]; intros currentPath p Hvault.
  - exists p. split; [reflexivity |]. split; [apply Quiet_refl | exact Hvault].
  - cbn [ensureFolders]. unfold bind at 1, get at 1.
    destruct (vault p !! (currentPath +:+ folder +:+ "/")) as [[content |] |] eqn:E.
    + apply Hvault in E.
      replace (currentPath +:+ folder +:+ "/") with ((currentPath +:+ folder) +:+ "/") in E
        by apply append_assoc.
      rewrite endsWith_append in E. discriminate.
    + apply IH. exact Hvault.
    + rewrite Hfolder. unfold bind, update.
      destruct (IH (currentPath +:+ folder +:+ "/")
                  (setVault (<[currentPath +:+ folder +:+ "/" := TFolder]> (vault p)) p))
        as (p1 & Hrun & Hq & Hv1).
      { intros f c. cbn. destruct (decide (currentPath +:+ folder +:+ "/" = f)) as [<- | Hne].
        - rewrite lookup_insert_eq. discriminate.
        - rewrite lookup_insert_ne by exact Hne. apply Hvault. }
      exists p1. split; [exact Hrun |]. split; [| exact Hv1].
      eapply Quiet_trans; [| exact Hq].
      constructor; try reflexivity; [now apply errorsExtend_same |].
      now apply sameFiles_insert_folder.
Qed.

(** On a host that accepts, [writeImportLog] leaves a report in the vault. *)
Lemma writeImportLog_writes (zipFileName : string) (p : Plugin)
    (more : list (string * string)) :
  hostAccepts host -> filesAreNotFolders (vault p) ->
  globalErrors (importLog p) = ("Error handling zip file", "Invalid ZIP structure") :: more ->
  exists logFilePath content,
    vault (exec (writeImportLog host zipFileName) p) !! logFilePath = Some (TFile content)
    /\ showsInvalidArchive content.
Proof.
  intros Hhost Hvault Hlog.
  unfold writeImportLog, exec, bind at 1, get at 1. cbv beta iota.
  unfold bind at 1, ensureFolderExists.
  destruct (ensureFolders_succeeds
              (filter (fun f => negb (String.eqb f ""))
                      (split "/" (archiveFolder (settings p) +:+ "/logs")))
              "" p Hhost Hvault) as (p1 & -> & Hq & _).
  unfold bind at 1, get at 1. cbv beta iota. unfold bind at 1, get at 1. cbv beta iota.
  destruct (logPath_loop_returns (vault p1) (archiveFolder (settings p) +:+ "/logs")
              (formatTimestamp (clock host) FormatPrefix)) as (logFilePath & -> & Hfree).
  unfold default, from_option, id.
  match goal with
  | |- context [writeToFile host logFilePath ?c] => set (content := c)
  end.
  exists logFilePath, content. split.
  - unfold tryCatch, writeToFile, tryCatch, bind at 1, get at 1. cbv beta iota.
    rewrite Hfree. unfold vaultCreate. rewrite (proj2 Hhost).
    unfold bind, get, update. rewrite Hfree. cbn. apply lookup_insert_eq.
  - unfold content, showsInvalidArchive.
    destruct (quiet_globalErrors _ _ Hq) as [more' Hmore]. rewrite Hlog in Hmore.
    repeat first
      [ apply includes_append_l; exact (generateLogContent_shows _ _ Hmore)
      | apply includes_append_r ].
Qed.

Lemma handleZipFile_invalid (file : File) (zip : Zip) (p : Plugin) :
  file_zip file = inr zip ->
  existsb (String.eqb "conversations.json") (zipFileNames zip) = false ->
  importedArchives p !! file_hash file = None \/ confirmAnswer host = true ->
  exec (handleZipFile host file) p
  = exec (writeImportLog host (file_name file) ;;
          log <- get importLog ;;
          notice (if hasErrors log then noticeError else noticeSuccess))
         (setImportLog invalidArchiveLog p).
Proof.
  intros Hzip Hnames Hgo.
  unfold handleZipFile, exec, bind at 1, update at 1, tryFinally, tryCatch.
  unfold bind at 1, get at 1. cbn [importedArchives setImportLog].
  assert (Hshould : match importedArchives p !! file_hash file with
                    | Some _ => confirmAnswer host
                    | None => true
                    end = true).
  { destruct Hgo as [-> | ->]; [reflexivity | now destruct (_ !! _)]. }
  rewrite Hshould. unfold bind at 1, validateZipFile. rewrite Hzip, Hnames.
  unfold throw, logError, update. cbn [importLog setImportLog].
  fold invalidArchiveLog.
  change (setImportLog invalidArchiveLog (setImportLog newImportLog p))
    with (setImportLog invalidArchiveLog p).
  destruct ((writeImportLog host (file_name file);;
             log <- get importLog;;
             notice (if hasErrors log then noticeError else noticeSuccess))
              (setImportLog invalidArchiveLog p)) as [[[] | e] p']; reflexivity.
Qed.

Lemma invalid_archive_aborts_run_facts (file : File) (zip : Zip) (p : Plugin) :
  file_zip file = inr zip ->
  existsb (String.eqb "conversations.json") (zipFileNames zip) = false ->
  importedArchives p !! file_hash file = None \/ confirmAnswer host = true ->
  exists more,
    globalErrors (importLog (exec (handleZipFile host file) p))
    = ("Error handling zip file", "Invalid ZIP structure") :: more.
Proof.
  intros Hzip Hnames Hgo.
  rewrite (handleZipFile_invalid file zip p Hzip Hnames Hgo).
  unfold exec, bind at 1.
  pose proof (writeImportLog_report (file_name file) (setImportLog invalidArchiveLog p) []
                eq_refl) as Hw.
  unfold exec in Hw.
  destruct (writeImportLog host (file_name file) (setImportLog invalidArchiveLog p))
    as [[[] | e] p1]; cbn [snd] in Hw |- *.
  - destruct (report_globalErrors _ _ _ Hw) as [more Hmore]. cbn in Hmore.
    exists more. unfold bind, get, notice, update. cbn. exact Hmore.
  - destruct (report_globalErrors _ _ _ Hw) as [more Hmore]. cbn in Hmore.
    exists more. exact Hmore.
Qed.

(** What a run leaves of an invalid archive. For every archive whose zip
    container lacks the entry [conversations.json] (and whose import is not
    cancelled in the confirmation dialog): the run processes no conversation.
    The conversation
    records, the archive records, the counters and the saved data are as
    before; the created, updated, skipped and failed lists of the run are
    empty; its first global error is the invalid archive; and every file in
    the vault afterwards is a file from before or a report that shows the
    invalid archive; on a host that accepts the creation of folders and files
    such a report is in the vault. *)
Theorem invalid_archive_aborts_run (file : File) (zip : Zip) (p : Plugin) :
  file_zip file = inr zip ->
  existsb (String.eqb "conversations.json") (zipFileNames zip) = false ->
  importedArchives p !! file_hash file = None \/ confirmAnswer host = true ->
  conversationRecords (exec (handleZipFile host file) p) = conversationRecords p
  /\ importedArchives (exec (handleZipFile host file) p) = importedArchives p
  /\ counters (exec (handleZipFile host file) p) = counters p
  /\ savedData (exec (handleZipFile host file) p) = savedData p
  /\ created (importLog (exec (handleZipFile host file) p)) = []
  /\ updated (importLog (exec (handleZipFile host file) p)) = []
  /\ skipped (importLog (exec (handleZipFile host file) p)) = []
  /\ failed (importLog (exec (handleZipFile host file) p)) = []
  /\ (exists more,
        globalErrors (importLog (exec (handleZipFile host file) p))
        = ("Error handling zip file", "Invalid ZIP structure") :: more)
  /\ (forall filePath content,
        vault (exec (handleZipFile host file) p) !! filePath = Some (TFile content) ->
        vault p !! filePath = Some (TFile content) \/ showsInvalidArchive content)
  /\ (hostAccepts host -> filesAreNotFolders (vault p) ->
      exists logFilePath content,
        vault (exec (handleZipFile host file) p) !! logFilePath = Some (TFile content)
        /\ showsInvalidArchive content).
Proof.
  intros Hzip Hnames Hgo.
  rewrite (handleZipFile_invalid file zip p Hzip Hnames Hgo).
  assert (Hwritten : hostAccepts host -> filesAreNotFolders (vault p) ->
            exists logFilePath content,
              vault (exec (writeImportLog host (file_name file) ;;
                           log <- get importLog ;;
                           notice (if hasErrors log then noticeError else noticeSuccess))
                          (setImportLog invalidArchiveLog p)) !! logFilePath
              = Some (TFile content)
              /\ showsInvalidArchive content).
  { intros Hhost Hvault.
    destruct (writeImportLog_writes (file_name file) (setImportLog invalidArchiveLog p) []
                Hhost Hvault eq_refl) as (logFilePath & content & Hfile & Hshows).
    exists logFilePath, content. split; [| exact Hshows].
    unfold exec, bind at 1. unfold exec in Hfile.
    destruct (writeImportLog host (file_name file) (setImportLog invalidArchiveLog p))
      as [[[] | e] p1]; cbn [snd] in Hfile |- *; exact Hfile. }
  assert (H : ReportOnly showsInvalidArchive (setImportLog invalidArchiveLog p)
                (exec (writeImportLog host (file_name file) ;;
                       log <- get importLog ;;
                       notice (if hasErrors log then noticeError else noticeSuccess))
                      (setImportLog invalidArchiveLog p))).
  { unfold exec, bind at 1.
    pose proof (writeImportLog_report (file_name file) (setImportLog invalidArchiveLog p) []
                  eq_refl) as Hw.
    unfold exec in Hw.
    destruct (writeImportLog host (file_name file) (setImportLog invalidArchiveLog p))
      as [[[] | e] p1]; cbn [snd] in Hw |- *; [| exact Hw].
    eapply ReportOnly_trans; [exact Hw |].
    unfold bind, get. apply notice_report. }
  destruct H as [Hs Ha Hr Hc Hsv Hcr Hup Hsk Hfa _ _ [more He] Hfi].
  cbn in Hs, Ha, Hr, Hc, Hsv, Hcr, Hup, Hsk, Hfa, He, Hfi.
  do 8 (split; [assumption |]). split; [eauto |]. split; [exact Hfi | exact Hwritten].
Qed.

(** [ensureFolderExists] and [writeImportLog] never throw. *)
Lemma ensureFolders_returns (folders : list string) (currentPath : string) (p : Plugin) :
  exists result, fst (ensureFolders host currentPath folders p) = Return result.
Proof.
  revert currentPath p. induction folders as [|folder rest IH]; intros currentPath p.
  - now exists None.
  - cbn [ensureFolders]. unfold bind at 1, get at 1.
    destruct (vault p !! (currentPath +:+ folder +:+ "/")) as [[content |] |].
    + eexists. reflexivity.
    + apply IH.
    + destruct (createFolderError host (currentPath +:+ folder +:+ "/")) as [error |].
      * destruct (String.eqb error "Folder already exists."); [apply IH |].
        eexists. reflexivity.
      * unfold bind, update. apply IH.
Qed.

Lemma writeImportLog_returns (zipFileName : string) (p : Plugin) :
  fst (writeImportLog host zipFileName p) = Return tt.
Proof.
  unfold writeImportLog, bind at 1, get at 1. cbv beta iota.
  unfold bind at 1, ensureFolderExists.
  destruct (ensureFolders_returns
              (filter (fun f => negb (String.eqb f ""))
                      (split "/" (archiveFolder (settings p) +:+ "/logs")))
              "" p) as [result Hresult].
  destruct (ensureFolders host "" _ p) as [outcome p1]. cbn [fst] in Hresult. subst outcome.
  destruct result as [error |].
  - reflexivity.
  - unfold bind at 1, get at 1. cbv beta iota. unfold bind at 1, get at 1. cbv beta iota.
    unfold tryCatch.
    match goal with
    | |- context [writeToFile host ?f ?c p1] => destruct (writeToFile host f c p1) as [[[] | e] p2]
    end; reflexivity.
Qed.

(** For every archive without [conversations.json], on every host and from
    every state: the run logs a global error, and its last notice is the
    success notice. *)
Lemma invalid_archive_notice (file : File) (zip : Zip) (p : Plugin) :
  file_zip file = inr zip ->
  existsb (String.eqb "conversations.json") (zipFileNames zip) = false ->
  importedArchives p !! file_hash file = None \/ confirmAnswer host = true ->
  globalErrors (importLog (exec (handleZipFile host file) p)) <> []
  /\ exists earlier,
       notices (exec (handleZipFile host file) p) = earlier ++ [noticeSuccess].
Proof.
  intros Hzip Hnames Hgo. split.
  - destruct (invalid_archive_aborts_run_facts file zip p Hzip Hnames Hgo) as [more ->].
    discriminate.
  - rewrite (handleZipFile_invalid file zip p Hzip Hnames Hgo).
    unfold exec, bind at 1.
    pose proof (writeImportLog_returns (file_name file) (setImportLog invalidArchiveLog p))
      as Hret.
    pose proof (writeImportLog_report (file_name file) (setImportLog invalidArchiveLog p) []
                  eq_refl) as Hw.
    unfold exec in Hw.
    destruct (writeImportLog host (file_name file) (setImportLog invalidArchiveLog p))
      as [outcome p1]. cbn [fst snd] in Hret, Hw. subst outcome.
    unfold bind, get, notice, update. cbn [snd notices setNotices].
    unfold hasErrors.
    rewrite (report_errors _ _ _ Hw), (report_failed _ _ _ Hw). cbn.
    eexists. reflexivity.
Qed.

End InvalidArchive.

(** ** Runs on concrete archives *)

Lemma invalid_archive_aborts_run_witness :
  file_zip invalidFile
  = inr {| zipFileNames := ["chat.html"; "user.json"]; conversationsJson := inl "unused" |}
  /\ existsb (String.eqb "conversations.json") ["chat.html"; "user.json"] = false
  /\ (importedArchives freshPlugin !! file_hash invalidFile = None
      \/ confirmAnswer quietHost = true)
  /\ conversationRecords (exec (handleZipFile (U := specUtils) quietHost invalidFile) freshPlugin)
     = conversationRecords freshPlugin
  /\ importedArchives (exec (handleZipFile (U := specUtils) quietHost invalidFile) freshPlugin)
     = importedArchives freshPlugin.
Proof.
  assert (Hgo : importedArchives freshPlugin !! file_hash invalidFile = None
                \/ confirmAnswer quietHost = true) by (left; reflexivity).
  split; [reflexivity |]. split; [reflexivity |]. split; [exact Hgo |].
  pose proof (invalid_archive_aborts_run (U := specUtils) quietHost invalidFile _ freshPlugin
                eq_refl eq_refl Hgo) as (Hrecords & Harchives & _).
  split; [exact Hrecords | exact Harchives].
Defined.

(** [addError] is the only writer of the log that [logError] calls, and it
    never changes what [hasErrors] answers. *)
Lemma hasErrors_addError (message details : string) (log : ImportLog) :
  hasErrors (addError message details log) = hasErrors log.
Proof. reflexivity. Qed.

(** C8, at the archive without [conversations.json]: the run records a global
    error and ends with the success notice. *)
Lemma invalid_archive_success_notice :
  globalErrors (importLog (exec (handleZipFile (U := specUtils) quietHost invalidFile)
                                freshPlugin))
  = [("Error handling zip file", "Invalid ZIP structure")]
  /\ notices (exec (handleZipFile (U := specUtils) quietHost invalidFile) freshPlugin)
     = [noticeSuccess].
Proof. split; vm_compute; reflexivity. Qed.

(** C9, at a colliding name: the document is written to [Chat (1).md], the
    earlier note stays at [Chat.md], and the record of the new conversation
    names [Chat.md]. *)
Lemma record_path_misses_disambiguation :
  let p' := exec (handleZipFile (U := specUtils) quietHost chatFile) vaultWithOldNote in
  map filePath (created (importLog p')) = [sampleFolder +:+ "/Chat (1).md"]
  /\ vault p' !! (sampleFolder +:+ "/Chat.md") = Some (TFile oldNote)
  /\ (exists content, vault p' !! (sampleFolder +:+ "/Chat (1).md") = Some (TFile content))
  /\ conversationRecords p' !! "conv-1"
     = Some {| path := sampleFolder +:+ "/Chat.md"; updateTime := 1700000100 |}
  /\ globalErrors (importLog p') = [].
Proof.
  cbn zeta. split; [vm_compute; reflexivity |]. split; [vm_compute; reflexivity |].
  split; [eexists; vm_compute; reflexivity |]. split; vm_compute; reflexivity.
Qed.

(** C4, at a failing merge: the failure is logged and the document is left as
    it was, but the record of the conversation is advanced to the new update
    time, and the next run skips the conversation. *)
Lemma merge_failure_advances_record :
  let p' := exec (processSingleChat (U := specUtils) busyHost laterChat ∅) afterFirstRun in
  updateTime <$> conversationRecords afterFirstRun !! "conv-1" = Some 1700000100
  /\ map errorMessage (failed (importLog p')) = [Some "EBUSY: resource busy or locked"]
  /\ vault p' = vault afterFirstRun
  /\ updateTime <$> conversationRecords p' !! "conv-1" = Some 1700000500
  /\ map reason (skipped (importLog (exec (processSingleChat (U := specUtils) quietHost
                                             laterChat ∅) p')))
     = [Some "No Updates"].
Proof. cbn zeta. repeat split; vm_compute; reflexivity. Qed.

(** C2, at an export whose nodes keep author and content in the [message]
    sub-object: [aaa-3] is a valid message that the document does not hold,
    the candidate set of the merge is empty, and after the merge the document
    still holds the first two markers only. *)
Lemma merge_misses_valid_message :
  let p' := exec (processSingleChat (U := specUtils) quietHost laterChat ∅) afterFirstRun in
  let before := default "" (match vault afterFirstRun !! (sampleFolder +:+ "/Chat.md") with
                            | Some (TFile content) => Some content
                            | _ => None
                            end) in
  let after := default "" (match vault p' !! (sampleFolder +:+ "/Chat.md") with
                           | Some (TFile content) => Some content
                           | _ => None
                           end) in
  extractMessageUIDsFromNote before = ["aaa-1"; "aaa-2"]
  /\ map msg_id (renderedMessages (U := specUtils) laterChat)
     = [Some "aaa-1"; Some "aaa-2"; Some "aaa-3"]
  /\ getNewMessages (U := specUtils) laterChat (extractMessageUIDsFromNote before) = []
  /\ extractMessageUIDsFromNote after = ["aaa-1"; "aaa-2"]
  /\ totalNonEmptyMessagesAdded (counters p') = 0%nat
  /\ length (updated (importLog p')) = 1%nat.
Proof. cbn zeta. repeat split; vm_compute; reflexivity. Qed.

(** C3, at an older export of a recorded conversation: the conversation is
    skipped with [No Updates] and no document is touched, but the record of
    the conversation is written all the same, and its update time is lowered
    to that of the older export. The export that was imported before is then
    no longer unchanged: the next run over it finds a smaller recorded time
    and merges it again. *)
Lemma skipped_chat_lowers_record :
  let p' := exec (processSingleChat (U := specUtils) quietHost earlierChat ∅) afterFirstRun in
  let p'' := exec (processSingleChat (U := specUtils) quietHost sampleChat ∅) p' in
  conversationRecords afterFirstRun !! "conv-1"
  = Some {| path := sampleFolder +:+ "/Chat.md"; updateTime := 1700000100 |}
  /\ chat_update_time earlierChat = 1700000050
  /\ map reason (skipped (importLog p')) = [Some "No Updates"]
  /\ vault p' = vault afterFirstRun
  /\ conversationRecords p' !! "conv-1"
     = Some {| path := sampleFolder +:+ "/Chat.md"; updateTime := 1700000050 |}
  /\ chat_update_time sampleChat = 1700000100
  /\ totalExistingConversationsToUpdate (counters p'') = 1%nat
  /\ map filePath (updated (importLog p'')) = [sampleFolder +:+ "/Chat.md"].
Proof. cbn zeta. repeat split; vm_compute; reflexivity. Qed.

(** C5, at a second archive whose conversation has the title of one imported
    before: the folder holds [Chat.md], written by the first run, but the
    search for existing conversations does not find a document that the
    plugin wrote, so the set of existing names is empty and the name chosen
    for the new conversation is the base name [Chat.md] itself. No
    [Chat (1).md] is made: the document of the first conversation is
    overwritten with the second one, and no error is logged. *)
Lemma namesake_overwrites_imported_note :
  let p1 := exec (handleZipFile (U := specUtils) quietHost chatFile) freshPlugin in
  let p2 := exec (handleZipFile (U := specUtils) quietHost namesakeFile) p1 in
  includes (fileAt (sampleFolder +:+ "/Chat.md") p1) "conversation_id: conv-1" = true
  /\ getFileName (U := specUtils) (settings p1) namesakeChat = "Chat.md"
  /\ getAllExistingConversations p1 = (Return ∅, p1)
  /\ map filePath (created (importLog p2)) = [sampleFolder +:+ "/Chat.md"]
  /\ vault p2 !! (sampleFolder +:+ "/Chat (1).md") = None
  /\ includes (fileAt (sampleFolder +:+ "/Chat.md") p2) "conversation_id: conv-7" = true
  /\ includes (fileAt (sampleFolder +:+ "/Chat.md") p2) "conv-1" = false
  /\ globalErrors (importLog p2) = [].
Proof. cbn zeta. repeat split; vm_compute; reflexivity. Qed.

(** C7, at the archive without [conversations.json]: the invalid archive is
    in the log, and no notice tells of it. On a host where nothing fails the
    report names the error, and the one notice of the run is the success
    notice. On a host whose vault rejects the creation of files no report is
    written either: the vault holds the two folders of the log and no file,
    and the notices are that the log file could not be made, and then the
    success notice. *)
Lemma invalid_archive_is_not_announced :
  let p' := exec (handleZipFile (U := specUtils) quietHost invalidFile) freshPlugin in
  let q' := exec (handleZipFile (U := specUtils) fullDiskHost invalidFile) freshPlugin in
  hd_error (globalErrors (importLog p'))
  = Some ("Error handling zip file", "Invalid ZIP structure")
  /\ includes (fileAt "ChatGPT Archives/logs/20231114 - ChatGPT Import log.md" p')
              "Invalid ZIP structure" = true
  /\ notices p' = [noticeSuccess]
  /\ hd_error (globalErrors (importLog q'))
     = Some ("Error handling zip file", "Invalid ZIP structure")
  /\ map_to_list (vault q')
     = [("ChatGPT Archives/logs/", TFolder); ("ChatGPT Archives/", TFolder)]
  /\ notices q' = ["Failed to create log file. Check console for details."; noticeSuccess].
Proof. cbn zeta. repeat split; vm_compute; reflexivity. Qed.

(** ** The defects, in general form *)

Section Defects.
Context {U : Utils}.
Variable host : Host.

(** When the base name is taken, the name written differs from the base name
    that [updateConversationRecord] records. *)
Lemma getUniqueFileName_differs (settings : PluginSettings) (chat : Chat)
    (folderPath : string) (existingConversations : gmap string string) :
  nameTaken existingConversations folderPath (getFileName settings chat) = true ->
  getUniqueFileName settings chat folderPath existingConversations
  <> getFileName settings chat.
Proof.
  intros Htaken Heq.
  destruct (getUniqueFileName_loop_returns settings chat folderPath existingConversations Htaken)
    as (n & _ & Hloop & Hfree & _).
  unfold getUniqueFileName in Heq. rewrite Hloop in Heq. cbn [default] in Heq.
  unfold from_option, id in Heq. rewrite Heq in Hfree. congruence.
Qed.

(** A new conversation whose document is written: the document lies at the
    unique name, the record names the base name. *)
Lemma new_chat_record_path (chat : Chat) (existingConversations : gmap string string)
    (p p0 : Plugin) (folderPath : string) :
  createFolderForChat host chat p = (Return folderPath, p0) ->
  conversationRecords p !! chat_id chat = None ->
  createError host (folderPath +:+ "/" +:+ getUniqueFileName (settings p) chat folderPath
                                              existingConversations) = None ->
  modifyError host (folderPath +:+ "/" +:+ getUniqueFileName (settings p) chat folderPath
                                              existingConversations) = None ->
  vault p0 !! (folderPath +:+ "/" +:+ getUniqueFileName (settings p) chat folderPath
                                        existingConversations) <> Some TFolder ->
  vault (exec (processSingleChat host chat existingConversations) p)
    !! (folderPath +:+ "/" +:+ getUniqueFileName (settings p) chat folderPath
                                 existingConversations)
  = Some (TFile (generateMarkdownContent (clock host) chat))
  /\ conversationRecords (exec (processSingleChat host chat existingConversations) p)
       !! chat_id chat
     = Some {| path := folderPath +:+ "/" +:+ getFileName (settings p) chat;
               updateTime := chat_update_time chat |}.
Proof.
  intros Hfolder Hnone Hcreate Hmodify Hnotfolder.
  pose proof (createFolderForChat_quiet host chat p) as Hq. unfold exec in Hq.
  rewrite Hfolder in Hq. cbn [snd] in Hq.
  pose proof (quiet_settings _ _ Hq) as Hset.
  unfold exec. remember (processSingleChat host chat existingConversations p) as run eqn:Hrun.
  rewrite (processSingleChat_after_folder host chat existingConversations p p0 folderPath
             Hfolder), Hnone in Hrun.
  unfold handleNewChat, createNewNote in Hrun.
  unfold tryCatch at 1, bind at 1, bind at 1, update at 1 in Hrun.
  unfold tryCatch at 1, bind at 1, get at 1 in Hrun.
  cbv beta iota in Hrun.
  change (settings (setCounters (incrNewToImport (counters p0)) p0)) with (settings p0) in Hrun.
  rewrite Hset in Hrun.
  set (filePath := folderPath +:+ "/" +:+ getUniqueFileName (settings p) chat folderPath
                                            existingConversations) in *.
  unfold bind at 1, writeToFile, tryCatch at 1, bind at 1, get at 1 in Hrun.
  cbv beta iota in Hrun.
  change (vault (setCounters (incrNewToImport (counters p0)) p0)) with (vault p0) in Hrun.
  destruct (vault p0 !! filePath) as [[content |] |] eqn:E.
  - unfold vaultModify in Hrun. rewrite Hmodify in Hrun.
    unfold updateConversationRecord, bind, update in Hrun. cbv beta iota in Hrun.
    subst run. cbn [snd]. unfold setConversationRecords, setCounters, setImportLog, setVault.
    cbn [vault conversationRecords settings]. rewrite Hset. now rewrite !lookup_insert_eq.
  - now contradiction Hnotfolder.
  - unfold vaultCreate in Hrun. rewrite Hcreate in Hrun.
    unfold bind at 1, bind at 1, bind at 1, get at 1 in Hrun. cbv beta iota in Hrun.
    change (vault (setCounters (incrNewToImport (counters p0)) p0)) with (vault p0) in Hrun.
    rewrite E in Hrun.
    unfold updateConversationRecord, bind, update in Hrun. cbv beta iota in Hrun.
    subst run. cbn [snd]. unfold setConversationRecords, setCounters, setImportLog, setVault.
    cbn [vault conversationRecords settings]. rewrite Hset. now rewrite !lookup_insert_eq.
Qed.

(** A merge that the vault rejects: the document is left as it was, the
    failure is logged, and the record is advanced all the same. *)
Lemma failed_merge_advances_record (chat : Chat) (existingConversations : gmap string string)
    (p p0 : Plugin) (folderPath : string) (record : ConversationRecord)
    (content error : string) :
  createFolderForChat host chat p = (Return folderPath, p0) ->
  conversationRecords p !! chat_id chat = Some record ->
  updateTime record < chat_update_time chat ->
  vault p0 !! path record = Some (TFile content) ->
  processError host (path record) = Some error ->
  vault (exec (processSingleChat host chat existingConversations) p) = vault p0
  /\ (exists entry,
        failed (importLog (exec (processSingleChat host chat existingConversations) p))
        = failed (importLog p0) ++ [entry]
        /\ errorMessage entry = Some error)
  /\ updateTime <$> conversationRecords (exec (processSingleChat host chat existingConversations) p)
                      !! chat_id chat
     = Some (chat_update_time chat).
Proof.
  intros Hfolder Hrecord Hlt Hfile Hreject.
  unfold exec. remember (processSingleChat host chat existingConversations p) as run eqn:Hrun.
  rewrite (processSingleChat_after_folder host chat existingConversations p p0 folderPath
             Hfolder), Hrecord in Hrun.
  unfold handleExistingChat in Hrun.
  replace (updateTime record >=? chat_update_time chat) with false in Hrun
    by (symmetry; rewrite Z.geb_leb; apply Z.leb_gt; lia).
  unfold updateExistingNote in Hrun.
  unfold tryCatch at 1, bind at 1, bind at 1, update at 1 in Hrun.
  unfold tryCatch at 1, bind at 1, get at 1 in Hrun.
  cbv beta iota in Hrun.
  change (vault (setCounters (incrToUpdate (counters p0)) p0)) with (vault p0) in Hrun.
  rewrite Hfile, Hreject in Hrun.
  unfold updateConversationRecord, logError, bind, throw, update in Hrun.
  cbv beta iota in Hrun. subst run. cbn [snd].
  unfold setConversationRecords, setCounters, setImportLog, addFailed, addError.
  cbn [vault conversationRecords importLog failed].
  split; [reflexivity |]. split.
  - eexists. split; reflexivity.
  - now rewrite lookup_insert_eq.
Qed.

End Defects.

(** With the validity of the specification, a conversation whose nodes carry
    no author of their own (the shape of an export) has no merge candidate,
    whatever messages its nodes hold. *)
Lemma getNewMessages_of_export_nodes (chat : Chat) (existingMessageIds : list string) :
  Forall (fun kv => msg_author (node_self (snd kv)) = None) (chat_mapping chat) ->
  getNewMessages (U := specUtils) chat existingMessageIds = [].
Proof.
  unfold getNewMessages. induction (chat_mapping chat) as [|[key node] nodes IH]; intros H.
  - reflexivity.
  - apply Forall_cons in H as [Hnode Hrest]. cbn [map snd] in *.
    cbn [filter list_filter]. unfold filter in IH |- *.
    assert (Hinvalid : isValidMessage (Utils := specUtils) (node_self node) = false).
    { cbn. unfold specIsValidMessage. now rewrite Hnode. }
    rewrite Hinvalid, andb_false_r.
    destruct (decide (Is_true false)) as [[] | _]. now apply IH.
Qed.

(** * Further properties of the code *)

(** ** Marker extraction *)

Lemma includes_cons (c : ascii) (s p : string) :
  includes s p = true -> includes (String c s) p = true.
Proof. intros H. cbn [includes]. rewrite H. apply orb_true_r. Qed.

Lemma lazyCapture_inv (s capture rest : string) :
  lazyCapture s = Some (capture, rest) ->
  s = capture +:+ uidClose +:+ rest
  /\ allChars notLineTerminator capture = true
  /\ includes capture uidClose = false.
Proof.
  revert capture rest. induction s as [|c s IH]; intros capture rest.
  - simpl. discriminate.
  - cbn [lazyCapture]. destruct (startsWith (String c s) " -->") eqn:E.
    + apply startsWith_inv in E as [r Hr]. rewrite Hr.
      change (dropChars 4 (" -->" +:+ r)) with r.
      intros [= <- <-]. repeat split; reflexivity.
    + destruct (isLineTerminator c) eqn:Ec; [discriminate |].
      destruct (lazyCapture s) as [[cap r]|] eqn:El; [| discriminate].
      intros [= <- <-]. destruct (IH _ _ eq_refl) as (Hs & Hline & Hclose).
      split; [| split].
      * rewrite Hs at 1. reflexivity.
      * cbn [allChars]. unfold notLineTerminator at 1. now rewrite Ec, Hline.
      * cbn [includes]. rewrite Hclose, orb_false_r.
        destruct (startsWith (String c cap) uidClose) eqn:Ecap; [| reflexivity].
        apply startsWith_inv in Ecap as [u Hu].
        rewrite Hs in E. change (String c (cap +:+ uidClose +:+ r))
          with (String c cap +:+ uidClose +:+ r) in E.
        rewrite Hu, append_assoc in E. unfold uidClose in E at 1.
        now rewrite (startsWith_append " -->") in E.
Qed.

Lemma execAll_sound (fuel : nat) (s : string) :
  Forall (fun i => includes s (uidOpen +:+ i +:+ uidClose) = true
                   /\ allChars notLineTerminator i = true
                   /\ includes i uidClose = false)
         (execAll fuel s).
Proof.
  revert s. induction fuel as [|fuel IH]; intros s; [constructor |].
  cbn [execAll]. destruct (matchUID s) as [[capture rest]|] eqn:E.
  - unfold matchUID in E. destruct (startsWith s "<!-- UID: ") eqn:Es; [| discriminate].
    apply startsWith_inv in Es as [r ->].
    change (dropChars 10 ("<!-- UID: " +:+ r)) with r in E.
    apply lazyCapture_inv in E as (-> & Hline & Hclose).
    constructor.
    + split; [| split; assumption].
      change "<!-- UID: " with uidOpen.
      replace (uidOpen +:+ capture +:+ uidClose +:+ rest)
        with ((uidOpen +:+ capture +:+ uidClose) +:+ rest) by now rewrite !append_assoc.
      apply includes_append.
    + eapply Forall_impl; [apply IH |]. cbn beta. intros i (Hi & Hl & Hc).
      split; [| split; assumption].
      replace ("<!-- UID: " +:+ capture +:+ uidClose +:+ rest)
        with (("<!-- UID: " +:+ capture +:+ uidClose) +:+ rest) by now rewrite !append_assoc.
      now apply includes_append_r.
  - destruct s as [|c s]; [constructor |].
    eapply Forall_impl; [apply IH |]. cbn beta. intros i (Hi & Hl & Hc).
    split; [| split; assumption]. now apply includes_cons.
Qed.

(** A text in which [<!-- UID: ] does not occur holds no identifier. *)
Lemma execAll_none (fuel : nat) (s : string) :
  includes s uidOpen = false -> execAll fuel s = [].
Proof.
  revert s. induction fuel as [|fuel IH]; intros s H; [reflexivity |].
  cbn [execAll]. unfold matchUID.
  destruct s as [|c s].
  - reflexivity.
  - cbn [includes] in H. apply orb_false_elim in H as [Hc Hs].
    unfold uidOpen in Hc. rewrite Hc. now apply IH.
Qed.

(** X1. Every identifier that [extractMessageUIDsFromNote] returns stands in
    the text between [<!-- UID: ] and [ -->], holds no line terminator and does
    not itself contain [ -->]; and a text in which [<!-- UID: ] does not occur
    (the empty text among them) gives no identifier. *)
Theorem extractMessageUIDsFromNote_sound (content : string) :
  Forall (fun i => includes content (uidOpen +:+ i +:+ uidClose) = true
                   /\ allChars notLineTerminator i = true
                   /\ includes i uidClose = false)
         (extractMessageUIDsFromNote content)
  /\ (includes content uidOpen = false -> extractMessageUIDsFromNote content = []).
Proof. split; [apply execAll_sound | apply execAll_none]. Qed.

(** ** Rendering of messages *)

Section MessageRendering.
Context {U : Utils}.

Lemma formatMessage_nonempty (now : Z) (message : ChatMessage) :
  String.eqb (formatMessage now message) "" = false.
Proof.
  unfold formatMessage. destruct (String.eqb (authorNameOf message) "User"); reflexivity.
Qed.

(** X2. [formatNewMessages] drops nothing: for a message object (as
    [getNewMessages] returns them) [formatMessage] never gives the empty
    string, so the result is every message, formatted, in order, with a blank
    line between two of them. *)
Theorem formatNewMessages_keeps_every_message (now : Z) (messages : list ChatMessage) :
  formatNewMessages now messages = join (nl +:+ nl) (map (formatMessage now) messages).
Proof.
  unfold formatNewMessages. f_equal.
  induction messages as [|message messages IH]; [reflexivity |].
  cbn [map]. rewrite filter_cons, formatMessage_nonempty. cbn [negb].
  destruct (decide (Is_true true)) as [_ | H]; [now rewrite IH | now contradiction H].
Qed.

Lemma split_lines_plain (s : string) :
  Forall (fun line => allChars (differs "010") line = true) (split "010" s).
Proof.
  induction s as [|c s IH]; [repeat constructor |].
  cbn [split]. destruct (Ascii.eqb c "010") eqn:E.
  - constructor; [reflexivity | exact IH].
  - destruct (split "010" s) as [|l ls].
    + repeat constructor. cbn [allChars]. unfold differs. now rewrite E.
    + apply Forall_cons in IH as [Hl Hls]. constructor; [| exact Hls].
      cbn [allChars]. unfold differs at 1. now rewrite E, Hl.
Qed.

Lemma allChars_join (f : ascii -> bool) (ls : list string) :
  f "010"%char = true -> forallb (allChars f) ls = true -> allChars f (join nl ls) = true.
Proof.
  intros Hnl. induction ls as [|l ls IH]; [reflexivity |].
  cbn [forallb]. intros [Hl Hls]%andb_prop. destruct ls as [|l' ls].
  - exact Hl.
  - change (join nl (l :: l' :: ls)) with (l +:+ String "010" (join nl (l' :: ls))).
    rewrite allChars_append, Hl. cbn [allChars andb]. rewrite Hnl. now apply IH.
Qed.

Lemma split_allChars (f : ascii -> bool) (sep : ascii) (s : string) :
  allChars f s = true -> Forall (fun line => allChars f line = true) (split sep s).
Proof.
  induction s as [|c s IH]; [repeat constructor |].
  cbn [allChars]. intros [Hc Hs]%andb_prop. specialize (IH Hs). cbn [split].
  destruct (Ascii.eqb c sep).
  - constructor; [reflexivity | exact IH].
  - destruct (split sep s) as [|l ls].
    + repeat constructor. cbn [allChars]. now rewrite Hc.
    + apply Forall_cons in IH as [Hl Hls]. constructor; [| exact Hls].
      cbn [allChars]. now rewrite Hc, Hl.
Qed.

Lemma split_nonempty (sep : ascii) (s : string) : split sep s <> [].
Proof.
  destruct s as [|c s]; cbn [split]; [discriminate |].
  destruct (Ascii.eqb c sep); [discriminate |]. destruct (split sep s); discriminate.
Qed.

(** The texts quoted in the body of a message, line by line. *)
Lemma bodyOf_lines (message : ChatMessage) :
  exists texts,
    bodyOf message = join nl (map (fun line => quoteCharOf message +:+ " " +:+ line) texts)
    /\ texts <> []
    /\ Forall (fun line => allChars (differs "010") line = true) texts
    /\ (forallb (allChars (differs "013")) (textsOf message) = true ->
        Forall (fun line => allChars (differs "013") line = true) texts).
Proof.
  unfold bodyOf, textsOf.
  destruct (msg_content message) as [[[[|p ps]|]]|].
  2: { exists (split "010" (join nl (stringParts (p :: ps)))).
       split; [reflexivity |]. split; [apply split_nonempty |].
       split; [apply split_lines_plain |].
       intros Htexts. apply split_allChars. now apply allChars_join. }
  all: exists ["[No content]"]; split; [reflexivity |]; split; [discriminate |];
    split; [| intros _]; repeat constructor.
Qed.

(** X3. The body of a rendered message is a block quote: the message is its
    heading, then lines that each begin with the quote mark of the author and a
    space and hold no line feed, then the marker and the separator. *)
Theorem formatMessage_quotes_every_line (now : Z) (message : ChatMessage) :
  exists bodyLines,
    formatMessage now message =
      headingOf now message +:+ nl +:+ join nl bodyLines +:+ nl +:+
      uidOpen +:+ uidOf message +:+ uidClose +:+ nl +:+ separatorOf message +:+ nl +:+ nl
    /\ bodyLines <> []
    /\ Forall (fun line => startsWith line (quoteCharOf message +:+ " ") = true
                           /\ allChars (differs "010") line = true) bodyLines.
Proof.
  assert (Hquote : allChars (differs "010") (quoteCharOf message +:+ " ") = true).
  { unfold quoteCharOf. destruct (String.eqb (authorNameOf message) "User"); reflexivity. }
  destruct (bodyOf_lines message) as (texts & Hbody & Hne & Hplain & _).
  exists (map (fun line => quoteCharOf message +:+ " " +:+ line) texts).
  split; [| split].
  - rewrite formatMessage_shape, Hbody. reflexivity.
  - destruct texts; [contradiction | discriminate].
  - apply Forall_map. eapply Forall_impl; [exact Hplain |].
    cbn beta. intros line Hline.
    replace (quoteCharOf message +:+ " " +:+ line)
      with ((quoteCharOf message +:+ " ") +:+ line) by now rewrite append_assoc.
    split; [apply startsWith_append | now rewrite allChars_append, Hquote, Hline].
Qed.

End MessageRendering.

(** ** The metadata rewrite, composed *)

Lemma lines_terminators_inj (s s' : string) :
  lines s = lines s' -> terminators s = terminators s' -> s = s'.
Proof.
  revert s'. induction s as [|c s IH]; intros s' Hl Ht.
  - destruct s' as [|d s']; [reflexivity |]. cbn [lines] in Hl.
    destruct (isLineTerminator d).
    + pose proof (lines_nonempty s'). destruct (lines s'); [contradiction | discriminate].
    + destruct (lines s'); discriminate.
  - destruct s' as [|d s'].
    + cbn [lines] in Hl. destruct (isLineTerminator c).
      * pose proof (lines_nonempty s). destruct (lines s); [contradiction | discriminate].
      * destruct (lines s); discriminate.
    + cbn [lines terminators] in Hl, Ht.
      destruct (isLineTerminator c) eqn:Ec, (isLineTerminator d) eqn:Ed.
      * injection Hl as Hl. injection Ht as -> Ht. f_equal. now apply IH.
      * destruct (lines s'); discriminate.
      * destruct (lines s); discriminate.
      * pose proof (lines_nonempty s) as Hs. pose proof (lines_nonempty s') as Hs'.
        destruct (lines s) as [|l ls] eqn:Els; [contradiction |].
        destruct (lines s') as [|l' ls'] eqn:Els'; [contradiction |].
        injection Hl as -> -> ->. f_equal. apply IH; [| exact Ht].
        now rewrite Els'.
Qed.

Lemma replaceFirst_twice (f : string -> bool) (new1 new2 : string) (ls : list string) :
  f new1 = true ->
  replaceFirst f new2 (replaceFirst f new1 ls) = replaceFirst f new2 ls.
Proof.
  intros H. induction ls as [|l ls IH]; [reflexivity |].
  cbn [replaceFirst]. destruct (f l) eqn:E; cbn [replaceFirst].
  - now rewrite H.
  - now rewrite E, IH.
Qed.

Section MetadataComposed.
Context {U : Utils}.

Lemma updateMetadata_lines (content : string) (updateTime : Z) :
  allChars plainChar (dateAtTime updateTime) = true ->
  terminators (updateMetadata content updateTime) = terminators content
  /\ lines (updateMetadata content updateTime) =
     replaceFirst (beginsWith "Last Updated: ")
                  ("Last Updated: " +:+ dateAtTime updateTime)
       (replaceFirst (beginsWith "update_time: ")
                     ("update_time: " +:+ dateAtTime updateTime)
                     (lines content)).
Proof.
  intros Hplain. unfold updateMetadata. split.
  - rewrite !replaceLine_terminators; try reflexivity; try discriminate;
      rewrite allChars_append, Hplain; reflexivity.
  - rewrite !replaceLine_lines; try reflexivity; try discriminate;
      rewrite allChars_append, Hplain; reflexivity.
Qed.

(** X4. Of two metadata rewrites in a row the later one decides: the result
    is that of the later rewrite alone (and a rewrite repeated with the same
    time changes nothing more). Both formatted times are free of line
    terminators and of [$]. *)
Theorem updateMetadata_last_wins (content : string) (first later : Z) :
  allChars plainChar (dateAtTime first) = true ->
  allChars plainChar (dateAtTime later) = true ->
  updateMetadata (updateMetadata content first) later = updateMetadata content later.
Proof.
  intros Hfirst Hlater.
  destruct (updateMetadata_lines content first Hfirst) as [Ht1 Hl1].
  destruct (updateMetadata_lines content later Hlater) as [Ht2 Hl2].
  destruct (updateMetadata_lines (updateMetadata content first) later Hlater) as [Ht3 Hl3].
  apply lines_terminators_inj; [| congruence].
  rewrite Hl3, Hl2, Hl1.
  rewrite (replaceFirst_comm (beginsWith "update_time: ") (beginsWith "Last Updated: "));
    [| reflexivity | reflexivity |].
  - rewrite replaceFirst_twice by reflexivity.
    now rewrite replaceFirst_twice by reflexivity.
  - intros l. unfold beginsWith. destruct l as [|c l]; [discriminate |].
    cbn [startsWith]. destruct (Ascii.eqb "u" c) eqn:E; [| discriminate].
    apply Ascii.eqb_eq in E as <-. reflexivity.
Qed.

End MetadataComposed.

Lemma updateMetadata_last_wins_witness :
  let content := "---" +:+ nl +:+ "update_time: old" +:+ nl +:+ "---" +:+ nl
                 +:+ "Last Updated: old" +:+ nl +:+ "> update_time: quoted" in
  updateMetadata (U := specUtils) (updateMetadata (U := specUtils) content 1700000000) 1700000500
  = updateMetadata (U := specUtils) content 1700000500.
Proof.
  apply (updateMetadata_last_wins (U := specUtils)); reflexivity.
Defined.

Lemma lines_line (a b : string) :
  allChars notLineTerminator a = true -> lines (a +:+ nl +:+ b) = a :: lines b.
Proof.
  intros H. rewrite lines_plain_append by exact H.
  change (takeLine (nl +:+ b)) with "". now rewrite append_nil_r.
Qed.

Lemma lines_labelled (label value b : string) :
  allChars notLineTerminator label = true ->
  allChars notLineTerminator value = true ->
  lines (label +:+ value +:+ nl +:+ b) = (label +:+ value) :: lines b.
Proof.
  intros Hl Hv. rewrite <- append_assoc. apply lines_line.
  now rewrite allChars_append, Hl, Hv.
Qed.

Lemma terminators_line (a b : string) :
  allChars notLineTerminator a = true ->
  terminators (a +:+ nl +:+ b) = "010"%char :: terminators b.
Proof. intros H. now rewrite terminators_plain_append by exact H. Qed.

Lemma terminators_labelled (label value b : string) :
  allChars notLineTerminator label = true ->
  allChars notLineTerminator value = true ->
  terminators (label +:+ value +:+ nl +:+ b) = "010"%char :: terminators b.
Proof.
  intros Hl Hv. rewrite <- append_assoc. apply terminators_line.
  now rewrite allChars_append, Hl, Hv.
Qed.

Lemma lines_nl (b : string) : lines (nl +:+ b) = "" :: lines b.
Proof. reflexivity. Qed.

Lemma terminators_nl (b : string) : terminators (nl +:+ b) = "010"%char :: terminators b.
Proof. reflexivity. Qed.

Section HeaderRewrite.
Context {U : Utils}.

Lemma generateHeader_lines (title conversationId createTimeStr updateTimeStr rest : string) :
  allChars notLineTerminator title = true ->
  allChars notLineTerminator conversationId = true ->
  allChars notLineTerminator createTimeStr = true ->
  allChars notLineTerminator updateTimeStr = true ->
  lines (generateHeader title conversationId createTimeStr updateTimeStr +:+ rest)
  = "---" :: ("aliases: " +:+ title) :: ("conversation_id: " +:+ conversationId)
    :: ("create_time: " +:+ createTimeStr) :: ("update_time: " +:+ updateTimeStr)
    :: "---" :: "" :: ("# Topic: " +:+ title) :: ("Created: " +:+ createTimeStr)
    :: ("Last Updated: " +:+ updateTimeStr) :: "" :: "" :: lines rest
  /\ terminators (generateHeader title conversationId createTimeStr updateTimeStr +:+ rest)
     = repeat "010"%char 12 ++ terminators rest.
Proof.
  intros Ht Hi Hc Hu. unfold generateHeader. rewrite !append_assoc. split.
  - rewrite (lines_line "---") by reflexivity.
    rewrite (lines_labelled "aliases: ") by (reflexivity || assumption).
    rewrite (lines_labelled "conversation_id: ") by (reflexivity || assumption).
    rewrite (lines_labelled "create_time: ") by (reflexivity || assumption).
    rewrite (lines_labelled "update_time: ") by (reflexivity || assumption).
    rewrite (lines_line "---") by reflexivity.
    rewrite lines_nl.
    rewrite (lines_labelled "# Topic: ") by (reflexivity || assumption).
    rewrite (lines_labelled "Created: ") by (reflexivity || assumption).
    rewrite (lines_labelled "Last Updated: ") by (reflexivity || assumption).
    rewrite lines_nl.
    rewrite lines_nl.
    reflexivity.
  - rewrite (terminators_line "---") by reflexivity.
    rewrite (terminators_labelled "aliases: ") by (reflexivity || assumption).
    rewrite (terminators_labelled "conversation_id: ") by (reflexivity || assumption).
    rewrite (terminators_labelled "create_time: ") by (reflexivity || assumption).
    rewrite (terminators_labelled "update_time: ") by (reflexivity || assumption).
    rewrite (terminators_line "---") by reflexivity.
    rewrite terminators_nl.
    rewrite (terminators_labelled "# Topic: ") by (reflexivity || assumption).
    rewrite (terminators_labelled "Created: ") by (reflexivity || assumption).
    rewrite (terminators_labelled "Last Updated: ") by (reflexivity || assumption).
    rewrite terminators_nl.
    rewrite terminators_nl.
    reflexivity.
Qed.

(** X5. Rewriting the metadata of a generated document gives the document
    generated for the conversation with the new update time: the two
    [update time] lines of the header are found and nothing else is touched.
    The formatted title, the identifier and the formatted times hold no line
    terminator, and the new formatted time no [$]. *)
Theorem updateMetadata_regenerates_document (now : Z) (chat : Chat) (updateTime : Z) :
  allChars notLineTerminator (formatTitle (chat_title chat)) = true ->
  allChars notLineTerminator (chat_id chat) = true ->
  allChars notLineTerminator (dateAtTime (chat_create_time chat)) = true ->
  allChars notLineTerminator (dateAtTime (chat_update_time chat)) = true ->
  allChars plainChar (dateAtTime updateTime) = true ->
  updateMetadata (generateMarkdownContent now chat) updateTime
  = generateMarkdownContent now (withUpdateTime updateTime chat).
Proof.
  intros Ht Hi Hc Hu Hnew.
  pose proof (plain_notLineTerminator _ Hnew) as Hnew'.
  destruct (updateMetadata_lines (generateMarkdownContent now chat) updateTime Hnew)
    as [Hterm Hlines].
  unfold generateMarkdownContent in *. cbn [withUpdateTime chat_title chat_id chat_create_time
    chat_update_time] in *.
  destruct (generateHeader_lines _ _ _ _ (generateMessagesContent now chat) Ht Hi Hc Hu)
    as [Hl0 Ht0].
  destruct (generateHeader_lines _ _ _ _ (generateMessagesContent now (withUpdateTime updateTime chat))
              Ht Hi Hc Hnew') as [Hl1 Ht1].
  change (generateMessagesContent now (withUpdateTime updateTime chat))
    with (generateMessagesContent now chat) in *.
  apply lines_terminators_inj.
  - rewrite Hlines, Hl0, Hl1. reflexivity.
  - rewrite Hterm, Ht0, Ht1. reflexivity.
Qed.

End HeaderRewrite.

Lemma updateMetadata_regenerates_document_witness :
  updateMetadata (U := specUtils) (generateMarkdownContent (U := specUtils) 1700000200 sampleChat)
                 1700000500
  = generateMarkdownContent (U := specUtils) 1700000200 (withUpdateTime 1700000500 sampleChat).
Proof.
  apply (updateMetadata_regenerates_document (U := specUtils)); reflexivity.
Defined.

(** ** Whole runs *)

Lemma Processing_refl (p : Plugin) : Processing p p.
Proof. constructor; reflexivity. Qed.

Lemma Processing_trans (p q r : Plugin) : Processing p q -> Processing q r -> Processing p r.
Proof. intros [] []. constructor; congruence. Qed.

Lemma Quiet_Processing (p q : Plugin) : Quiet p q -> Processing p q.
Proof. intros []. constructor; assumption. Qed.

Ltac processing_steps :=
  frame_steps Processing_refl Processing_trans;
  try (intros ?; constructor; reflexivity).

Section RunFrames.
Context {U : Utils}.
Variable host : Host.

Lemma createFolderForChat_processing (chat : Chat) :
  preserves Processing (createFolderForChat host chat).
Proof. intros p. apply Quiet_Processing, createFolderForChat_quiet. Qed.

Lemma processSingleChat_processing (chat : Chat) (existingConversations : gmap string string) :
  preserves Processing (processSingleChat host chat existingConversations).
Proof.
  unfold processSingleChat.
  apply (preserves_tryCatch _ Processing_trans); [| processing_steps].
  apply (preserves_bind _ Processing_trans); [apply createFolderForChat_processing |].
  intros folderPath.
  unfold handleExistingChat, handleNewChat, createNewNote, updateExistingNote,
    updateConversationRecord, writeToFile, vaultModify, vaultCreate.
  processing_steps.
  all: destruct (_ >=? _); processing_steps.
Qed.

Lemma processChats_processing (chats : list Chat) (existingConversations : gmap string string) :
  preserves Processing (processChats host chats existingConversations).
Proof.
  induction chats as [|chat rest IH]; cbn [processChats]; [processing_steps |].
  apply (preserves_bind _ Processing_trans); [apply processSingleChat_processing |].
  intros _. exact IH.
Qed.

Lemma processConversations_processing (zip : Zip) (file : File) :
  preserves Processing (processConversations host zip file).
Proof.
  unfold processConversations, extractChatsFromZip, getAllExistingConversations, updateImportLog.
  apply (preserves_tryCatch _ Processing_trans); [| processing_steps].
  apply (preserves_bind _ Processing_trans).
  { destruct (existsb _ _); [destruct (conversationsJson zip) |]; processing_steps. }
  intros chats. processing_steps. apply processChats_processing.
Qed.

End RunFrames.

Section RunShapes.
Context {U : Utils}.
Variable host : Host.

Lemma processConversations_returns (zip : Zip) (file : File) (p : Plugin) :
  fst (processConversations host zip file p) = Return tt.
Proof.
  unfold processConversations, tryCatch.
  match goal with
  | |- fst (match ?m p with _ => _ end) = _ => destruct (m p) as [[[] | e] p']
  end; reflexivity.
Qed.

Lemma reportRun_returns (file : File) (p : Plugin) :
  fst (reportRun host file p) = Return tt.
Proof.
  unfold reportRun, bind at 1.
  pose proof (writeImportLog_returns host (file_name file) p) as H.
  destruct (writeImportLog host (file_name file) p) as [outcome p1].
  cbn [fst] in H. subst outcome. reflexivity.
Qed.

Lemma tryFinally_returns (m : Async unit) (file : File) (p q : Plugin) :
  m p = (Return tt, q) ->
  tryFinally m (writeImportLog host (file_name file) ;;
                log <- get importLog ;;
                notice (if hasErrors log then noticeError else noticeSuccess)) p
  = (Return tt, exec (reportRun host file) q).
Proof.
  intros H. unfold tryFinally. rewrite H. fold (reportRun host file).
  unfold exec. pose proof (reportRun_returns file q) as Hr.
  destruct (reportRun host file q) as [outcome q']. cbn [fst] in Hr. now subst outcome.
Qed.

(** The three ways through [handleZipFile]. *)
Lemma handleZipFile_cancelled (file : File) (p : Plugin) (info : ArchiveInfo) :
  importedArchives p !! file_hash file = Some info ->
  confirmAnswer host = false ->
  handleZipFile host file p
  = (Return tt,
     exec (reportRun host file)
          (setNotices (notices p ++ ["Import cancelled."]) (setImportLog newImportLog p))).
Proof.
  intros Hknown Hno. unfold handleZipFile, bind at 1, update at 1.
  apply tryFinally_returns.
  unfold tryCatch, bind at 1, get at 1. cbn [importedArchives setImportLog].
  rewrite Hknown, Hno. reflexivity.
Qed.

Lemma shouldReimport_true (p : Plugin) (file : File) :
  importedArchives p !! file_hash file = None \/ confirmAnswer host = true ->
  match importedArchives p !! file_hash file with
  | Some _ => confirmAnswer host
  | None => true
  end = true.
Proof. intros [-> | ->]; [reflexivity | now destruct (_ !! _)]. Qed.

Lemma handleZipFile_rejected (file : File) (p : Plugin) (error : string) :
  importedArchives p !! file_hash file = None \/ confirmAnswer host = true ->
  validateZipFile file (setImportLog newImportLog p)
  = (Throw error, setImportLog newImportLog p) ->
  handleZipFile host file p
  = (Return tt,
     exec (reportRun host file)
          (setImportLog (addError "Error handling zip file" error newImportLog) p)).
Proof.
  intros Hgo Hthrow. unfold handleZipFile, bind at 1, update at 1.
  apply tryFinally_returns.
  unfold tryCatch, bind at 1, get at 1. cbn [importedArchives setImportLog].
  rewrite (shouldReimport_true p file Hgo). unfold bind at 1. rewrite Hthrow.
  reflexivity.
Qed.

Lemma handleZipFile_validated (file : File) (zip : Zip) (p : Plugin) :
  importedArchives p !! file_hash file = None \/ confirmAnswer host = true ->
  file_zip file = inr zip ->
  existsb (String.eqb "conversations.json") (zipFileNames zip) = true ->
  handleZipFile host file p
  = (Return tt,
     exec (reportRun host file)
          (exec (recordArchive host file)
                (exec (processConversations host zip file) (setImportLog newImportLog p)))).
Proof.
  intros Hgo Hzip Hentry. unfold handleZipFile, bind at 1, update at 1.
  apply tryFinally_returns.
  unfold tryCatch, bind at 1, get at 1. cbn [importedArchives setImportLog].
  rewrite (shouldReimport_true p file Hgo).
  unfold bind at 1, validateZipFile. rewrite Hzip, Hentry. unfold ret.
  unfold bind at 1. unfold exec at 2.
  pose proof (processConversations_returns zip file (setImportLog newImportLog p)) as Hr.
  destruct (processConversations host zip file (setImportLog newImportLog p)) as [outcome q].
  cbn [fst snd] in Hr |- *. subst outcome. reflexivity.
Qed.

Lemma validateZipFile_cases (file : File) (p : Plugin) :
  (exists zip, file_zip file = inr zip
               /\ existsb (String.eqb "conversations.json") (zipFileNames zip) = true)
  \/ (exists error, validateZipFile file p = (Throw error, p)).
Proof.
  unfold validateZipFile. destruct (file_zip file) as [e | zip].
  - right. eexists. reflexivity.
  - destruct (existsb _ _) eqn:E; [left; eauto | right; eexists; reflexivity].
Qed.

End RunShapes.

Section Reports.
Context {U : Utils}.
Variable host : Host.

Lemma writeToFile_reports (isReport : string -> Prop) (fileName content : string) :
  isReport content ->
  preserves (ReportOnly isReport) (writeToFile host fileName content).
Proof.
  intros Hcontent.
  assert (Hset : preserves (ReportOnly isReport)
                   (update (fun p => setVault (<[fileName := TFile content]> (vault p)) p))).
  { intros p. constructor; try reflexivity; [now apply errorsExtend_same |].
    intros f c. cbn. destruct (decide (fileName = f)) as [<- | Hne].
    - rewrite lookup_insert_eq. intros [= <-]. now right.
    - rewrite lookup_insert_ne by exact Hne. now left. }
  unfold writeToFile, vaultModify, vaultCreate.
  frame_steps (ReportOnly_refl isReport) (ReportOnly_trans isReport); try exact Hset.
  all: intros p; apply Quiet_ReportOnly, logError_quiet.
Qed.

Lemma notice_reports (isReport : string -> Prop) (text : string) :
  preserves (ReportOnly isReport) (notice text).
Proof. intros p. constructor; try reflexivity; [now apply errorsExtend_same | auto]. Qed.

Lemma writeImportLog_reports (zipFileName : string) :
  preserves (ReportOnly isImportReport) (writeImportLog host zipFileName).
Proof.
  intros p. unfold writeImportLog, exec, bind at 1, get at 1. cbv beta iota.
  unfold bind at 1.
  pose proof (ensureFolders_quiet host
                (filter (fun f => negb (String.eqb f ""))
                        (split "/" (archiveFolder (settings p) +:+ "/logs")))
                "" p) as Hq.
  unfold exec in Hq. unfold ensureFolderExists.
  destruct (ensureFolders host "" _ p) as [[[error |] | e] p1]; cbn [snd] in Hq |- *.
  - eapply ReportOnly_trans; [apply Quiet_ReportOnly, Hq |].
    apply (preserves_bind _ (ReportOnly_trans isImportReport)).
    + intros q. apply Quiet_ReportOnly, logError_quiet.
    + intros _. apply notice_reports.
  - eapply ReportOnly_trans; [apply Quiet_ReportOnly, Hq |].
    unfold bind at 1, get at 1. cbv beta iota. unfold bind at 1, get at 1. cbv beta iota.
    apply (preserves_tryCatch _ (ReportOnly_trans isImportReport)).
    + apply writeToFile_reports. unfold isImportReport, reportHead.
      reflexivity.
    + intros e. apply (preserves_bind _ (ReportOnly_trans isImportReport)).
      * intros q. apply Quiet_ReportOnly, logError_quiet.
      * intros _. apply notice_reports.
  - apply Quiet_ReportOnly, Hq.
Qed.
End Reports.

Section Closing.
Context {U : Utils}.
Variable host : Host.

Lemma writeImportLog_notices (zipFileName : string) :
  preserves (fun p p' => exists more, notices p' = notices p ++ more)
            (writeImportLog host zipFileName).
Proof.
  assert (Hrefl : forall p : Plugin, exists more, notices p = notices p ++ more).
  { intros p. exists []. now rewrite app_nil_r. }
  assert (Htrans : forall p q r : Plugin,
             (exists more, notices q = notices p ++ more) ->
             (exists more, notices r = notices q ++ more) ->
             exists more, notices r = notices p ++ more).
  { intros p q r [m1 H1] [m2 H2]. exists (m1 ++ m2). now rewrite H2, H1, app_assoc. }
  unfold writeImportLog, writeToFile, vaultModify, vaultCreate.
  frame_steps Hrefl Htrans.
  all: try (intros p; exists []; rewrite app_nil_r; reflexivity).
  all: try (intros p; eexists; reflexivity).
  intros p. pose proof (ensureFolders_quiet host
                (filter (fun f => negb (String.eqb f "")) (split "/" (a +:+ "/logs"))) "" p) as Hq.
  exists []. rewrite app_nil_r. apply (quiet_notices _ _ Hq).
Qed.

Lemma hasErrors_closing (log : ImportLog) :
  errors log = [] ->
  (if hasErrors log then noticeError else noticeSuccess) = closingNotice log.
Proof.
  intros H. unfold hasErrors, closingNotice. rewrite H. now destruct (failed log).
Qed.

Lemma reportRun_closes (file : File) (q : Plugin) :
  errors (importLog q) = [] ->
  ReportOnly isImportReport q (exec (reportRun host file) q)
  /\ exists middle,
       notices (exec (reportRun host file) q)
       = notices q ++ middle ++ [closingNotice (importLog (exec (reportRun host file) q))].
Proof.
  intros Herrors.
  pose proof (writeImportLog_returns host (file_name file) q) as Hret.
  pose proof (writeImportLog_reports host (file_name file) q) as Hrep.
  pose proof (writeImportLog_notices (file_name file) q) as [middle Hnot].
  assert (Hexec : exec (reportRun host file) q
                  = setNotices
                      (notices (exec (writeImportLog host (file_name file)) q)
                       ++ [if hasErrors (importLog (exec (writeImportLog host (file_name file)) q))
                           then noticeError else noticeSuccess])
                      (exec (writeImportLog host (file_name file)) q)).
  { unfold reportRun, exec, bind at 1.
    destruct (writeImportLog host (file_name file) q) as [outcome q1].
    cbn [fst] in Hret. subst outcome. reflexivity. }
  rewrite Hexec. clear Hexec Hret.
  set (q1 := exec (writeImportLog host (file_name file)) q) in *.
  rewrite hasErrors_closing by (rewrite (report_errors _ _ _ Hrep); exact Herrors).
  split.
  - eapply ReportOnly_trans; [exact Hrep |].
    constructor; try reflexivity; [now apply errorsExtend_same | auto].
  - exists middle. cbn [notices setNotices importLog]. now rewrite Hnot, app_assoc.
Qed.

Lemma handleZipFile_closes (file : File) (p : Plugin) :
  fst (handleZipFile host file p) = Return tt
  /\ errors (importLog (exec (handleZipFile host file) p)) = []
  /\ exists earlier,
       notices (exec (handleZipFile host file) p)
       = notices p ++ earlier
         ++ [closingNotice (importLog (exec (handleZipFile host file) p))].
Proof.
  assert (Hshape : exists q earlier,
             handleZipFile host file p = (Return tt, exec (reportRun host file) q)
             /\ errors (importLog q) = []
             /\ notices q = notices p ++ earlier).
  { destruct (importedArchives p !! file_hash file) as [info |] eqn:Hknown.
    - destruct (confirmAnswer host) eqn:Hanswer.
      + destruct (validateZipFile_cases file (setImportLog newImportLog p))
          as [(zip & Hzip & Hentry) | (error & Hthrow)].
        * eexists _, []. split; [apply (handleZipFile_validated host file zip); auto |].
          pose proof (processConversations_processing host zip file
                        (setImportLog newImportLog p)) as [_ _ _ Hn He].
          rewrite app_nil_r. split; [exact He | exact Hn].
        * eexists _, []. split; [apply (handleZipFile_rejected host file p error); auto |].
          rewrite app_nil_r. split; reflexivity.
      + eexists _, _. split; [apply (handleZipFile_cancelled host file p info); auto |].
        split; reflexivity.
    - destruct (validateZipFile_cases file (setImportLog newImportLog p))
        as [(zip & Hzip & Hentry) | (error & Hthrow)].
      + eexists _, []. split; [apply (handleZipFile_validated host file zip); auto |].
        pose proof (processConversations_processing host zip file
                      (setImportLog newImportLog p)) as [_ _ _ Hn He].
        rewrite app_nil_r. split; [exact He | exact Hn].
      + eexists _, []. split; [apply (handleZipFile_rejected host file p error); auto |].
        rewrite app_nil_r. split; reflexivity. }
  destruct Hshape as (q & earlier & Hrun & Herrors & Hnotices).
  destruct (reportRun_closes file q Herrors) as [Hrep [middle Hmiddle]].
  unfold exec at 1 2 3. rewrite Hrun. cbn [fst snd].
  split; [reflexivity |]. split.
  - rewrite (report_errors _ _ _ Hrep). exact Herrors.
  - exists (earlier ++ middle). rewrite Hmiddle, Hnotices. now rewrite <- !app_assoc.
Qed.

(** X6. [handleZipFile] never throws, whatever the file, the host and the
    state. It leaves the [errors] list of the log empty, and the last notice
    it shows is decided by the failed list alone: the error notice when an
    entry was added to it, the success notice otherwise. *)
Theorem handleZipFile_always_closes (file : File) (p : Plugin) :
  fst (handleZipFile host file p) = Return tt
  /\ errors (importLog (exec (handleZipFile host file) p)) = []
  /\ exists earlier,
       notices (exec (handleZipFile host file) p)
       = notices p ++ earlier
         ++ [closingNotice (importLog (exec (handleZipFile host file) p))].
Proof. apply handleZipFile_closes. Qed.

End Closing.

Section Runs.
Context {U : Utils}.
Variable host : Host.

Lemma processChats_returns (chats : list Chat)
    (existingConversations : gmap string string) (p : Plugin) :
  processChats host chats existingConversations p
  = (Return tt, exec (processChats host chats existingConversations) p).
Proof.
  revert p. induction chats as [|chat rest IH]; intros p; [reflexivity |].
  cbn [processChats]. unfold exec, bind.
  pose proof (processSingleChat_returns host chat existingConversations p) as H.
  destruct (processSingleChat host chat existingConversations p) as [outcome q].
  cbn [fst] in H. subst outcome. rewrite IH. reflexivity.
Qed.

(** X7. The loop over the conversations never stops early: it returns, and
    the state it ends in is the state reached by processing every conversation
    of the list in order, each from the state the one before left. Whatever
    fails inside one conversation is caught there. *)
Theorem processChats_visits_every_chat (chats : list Chat)
    (existingConversations : gmap string string) (p : Plugin) :
  processChats host chats existingConversations p
  = (Return tt,
     fold_left (fun q chat => exec (processSingleChat host chat existingConversations) q)
               chats p).
Proof.
  revert p. induction chats as [|chat rest IH]; intros p; [reflexivity |].
  cbn [processChats fold_left]. unfold bind, exec.
  pose proof (processSingleChat_returns host chat existingConversations p) as H.
  destruct (processSingleChat host chat existingConversations p) as [outcome q].
  cbn [fst snd] in H |- *. subst outcome. apply IH.
Qed.

Lemma handleZipFile_validated_saved (file : File) (zip : Zip) (p : Plugin) :
  importedArchives p !! file_hash file = None \/ confirmAnswer host = true ->
  file_zip file = inr zip ->
  existsb (String.eqb "conversations.json") (zipFileNames zip) = true ->
  importedArchives (exec (handleZipFile host file) p)
  = <[file_hash file := {| fileName := file_name file; date := isoDate host |}]>
      (importedArchives p)
  /\ settings (exec (handleZipFile host file) p) = settings p
  /\ catalogsSaved (exec (handleZipFile host file) p).
Proof.
  intros Hgo Hzip Hentry. unfold exec at 1 2 3, catalogsSaved.
  rewrite (handleZipFile_validated host file zip p Hgo Hzip Hentry). cbn [snd].
  pose proof (processConversations_processing host zip file (setImportLog newImportLog p))
    as [Hs Ha _ _ He].
  set (q0 := exec (processConversations host zip file) (setImportLog newImportLog p)) in *.
  destruct (reportRun_closes host file (exec (recordArchive host file) q0)) as [Hrep _].
  { exact He. }
  rewrite (report_archives _ _ _ Hrep), (report_settings _ _ _ Hrep),
    (report_saved _ _ _ Hrep), (report_records _ _ _ Hrep).
  unfold recordArchive, saveSettings, exec, bind, update.
  cbn [snd importedArchives settings savedData conversationRecords setSavedData
       setImportedArchives].
  rewrite Ha, Hs. auto.
Qed.

(** X8. Every archive that passes validation and is not declined is entered
    in the archive catalog under its hash, with its file name and the date of
    the host, and the settings and both catalogs are saved as the run leaves
    them. This does not depend on what happens to the conversations: it holds
    as well when [conversations.json] cannot be parsed or when conversations
    fail. *)
Theorem handleZipFile_records_validated_archive (file : File) (zip : Zip) (p : Plugin) :
  importedArchives p !! file_hash file = None \/ confirmAnswer host = true ->
  file_zip file = inr zip ->
  existsb (String.eqb "conversations.json") (zipFileNames zip) = true ->
  importedArchives (exec (handleZipFile host file) p)
  = <[file_hash file := {| fileName := file_name file; date := isoDate host |}]>
      (importedArchives p)
  /\ settings (exec (handleZipFile host file) p) = settings p
  /\ catalogsSaved (exec (handleZipFile host file) p).
Proof. apply handleZipFile_validated_saved. Qed.

(** X9. [handleZipFile] keeps the catalogs saved: from a state whose
    settings and catalogs are the saved ones, every run (declined, rejected or
    completed) ends in such a state. *)
Theorem handleZipFile_keeps_catalogs_saved (file : File) (p : Plugin) :
  catalogsSaved p -> catalogsSaved (exec (handleZipFile host file) p).
Proof.
  intros Hsaved.
  assert (Hkept : forall q, errors (importLog q) = [] ->
            settings q = settings p -> importedArchives q = importedArchives p ->
            conversationRecords q = conversationRecords p -> savedData q = savedData p ->
            catalogsSaved (exec (reportRun host file) q)).
  { intros q He Hs Ha Hr Hd. destruct (reportRun_closes host file q He) as [Hrep _].
    unfold catalogsSaved.
    rewrite (report_archives _ _ _ Hrep), (report_settings _ _ _ Hrep),
      (report_saved _ _ _ Hrep), (report_records _ _ _ Hrep).
    now rewrite Hs, Ha, Hr, Hd. }
  assert (Hvalid : forall zip,
            importedArchives p !! file_hash file = None \/ confirmAnswer host = true ->
            file_zip file = inr zip ->
            existsb (String.eqb "conversations.json") (zipFileNames zip) = true ->
            catalogsSaved (exec (handleZipFile host file) p)).
  { intros zip Hgo Hzip Hentry.
    apply (handleZipFile_validated_saved file zip p Hgo Hzip Hentry). }
  destruct (importedArchives p !! file_hash file) as [info |] eqn:Hknown.
  - destruct (confirmAnswer host) eqn:Hanswer.
    + destruct (validateZipFile_cases file (setImportLog newImportLog p))
        as [(zip & Hzip & Hentry) | (error & Hthrow)].
      * apply (Hvalid zip); auto.
      * unfold exec at 1. rewrite (handleZipFile_rejected host file p error); auto.
        cbn [snd]. now apply Hkept.
    + unfold exec at 1. rewrite (handleZipFile_cancelled host file p info); auto.
      cbn [snd]. now apply Hkept.
  - destruct (validateZipFile_cases file (setImportLog newImportLog p))
      as [(zip & Hzip & Hentry) | (error & Hthrow)].
    + apply (Hvalid zip); auto.
    + unfold exec at 1. rewrite (handleZipFile_rejected host file p error); auto.
      cbn [snd]. now apply Hkept.
Qed.

(** X10. An archive whose [conversations.json] cannot be parsed (and whose
    import is not declined): no conversation is processed. The conversation
    records and the counters are unchanged, the four entry lists of the run
    are empty, no summary is set, and every file of the vault is a file from
    before or a report; the first global error is the parse error; the last
    notice is the success notice. *)
Theorem unparsable_archive_processes_nothing (file : File) (zip : Zip) (p : Plugin)
    (syntaxError : string) :
  importedArchives p !! file_hash file = None \/ confirmAnswer host = true ->
  file_zip file = inr zip ->
  existsb (String.eqb "conversations.json") (zipFileNames zip) = true ->
  conversationsJson zip = inl syntaxError ->
  conversationRecords (exec (handleZipFile host file) p) = conversationRecords p
  /\ counters (exec (handleZipFile host file) p) = counters p
  /\ created (importLog (exec (handleZipFile host file) p)) = []
  /\ updated (importLog (exec (handleZipFile host file) p)) = []
  /\ skipped (importLog (exec (handleZipFile host file) p)) = []
  /\ failed (importLog (exec (handleZipFile host file) p)) = []
  /\ summary (importLog (exec (handleZipFile host file) p)) = None
  /\ (exists more,
        globalErrors (importLog (exec (handleZipFile host file) p))
        = ("Error processing conversations", syntaxError) :: more)
  /\ (forall filePath content,
        vault (exec (handleZipFile host file) p) !! filePath = Some (TFile content) ->
        vault p !! filePath = Some (TFile content) \/ isImportReport content)
  /\ (exists earlier,
        notices (exec (handleZipFile host file) p) = notices p ++ earlier ++ [noticeSuccess]).
Proof.
  intros Hgo Hzip Hentry Hjson.
  destruct (handleZipFile_closes host file p) as (_ & _ & earlier & Hnotices).
  revert Hnotices. unfold exec at 1 2.
  unfold exec at 1 2 3 4 5 6 7 8 9 10.
  rewrite (handleZipFile_validated host file zip p Hgo Hzip Hentry). cbn [snd].
  assert (Hq0 : exec (processConversations host zip file) (setImportLog newImportLog p)
                = setImportLog (addError "Error processing conversations" syntaxError
                                         newImportLog) p).
  { unfold processConversations, exec, tryCatch, bind at 1, extractChatsFromZip.
    rewrite Hentry, Hjson. reflexivity. }
  rewrite Hq0.
  set (q := exec (recordArchive host file) _).
  destruct (reportRun_closes host file q eq_refl)
    as [[Hs Ha Hr Hc Hsv Hcr Hup Hsk Hfa Her Hsu [more Hge] Hfi] _].
  intros Hnotices.
  rewrite Hr, Hc, Hcr, Hup, Hsk, Hfa, Hsu.
  do 7 (split; [reflexivity |]).
  split; [exists more; exact Hge |]. split; [exact Hfi |].
  exists earlier. rewrite Hnotices. unfold closingNotice. now rewrite Hfa.
Qed.

(** X11. A declined import of a known archive processes nothing, and yet a
    report is written and the run closes with the success notice: relative to
    the state with a fresh log, the settings, both catalogs, the counters,
    the saved data and the entry lists are unchanged, every file of the vault
    is a file from before or a report, and the notices shown are
    [Import cancelled.], then (after those of the report, if any) the success
    notice. *)
Theorem declined_import_still_reports (file : File) (p : Plugin) (info : ArchiveInfo) :
  importedArchives p !! file_hash file = Some info ->
  confirmAnswer host = false ->
  ReportOnly isImportReport (setImportLog newImportLog p) (exec (handleZipFile host file) p)
  /\ exists middle,
       notices (exec (handleZipFile host file) p)
       = notices p ++ ["Import cancelled."] ++ middle ++ [noticeSuccess].
Proof.
  intros Hknown Hno. unfold exec at 1 2.
  rewrite (handleZipFile_cancelled host file p info Hknown Hno). cbn [snd].
  set (q := setNotices (notices p ++ ["Import cancelled."]) (setImportLog newImportLog p)).
  destruct (reportRun_closes host file q eq_refl) as [Hrep [middle Hmiddle]].
  split.
  - eapply ReportOnly_trans; [| exact Hrep].
    constructor; try reflexivity; [now apply errorsExtend_same | auto].
  - exists middle. rewrite Hmiddle. unfold closingNotice.
    rewrite (report_failed _ _ _ Hrep). cbn [failed importLog setNotices setImportLog
      newImportLog notices q]. now rewrite <- app_assoc.
Qed.

End Runs.

Lemma handleZipFile_records_validated_archive_witness :
  importedArchives (exec (handleZipFile (U := specUtils) quietHost chatFile) freshPlugin)
  = <[ "a1b2" := {| fileName := "export.zip"; date := "2023-11-14T22:16:40.000Z" |} ]> ∅
  /\ settings (exec (handleZipFile (U := specUtils) quietHost chatFile) freshPlugin)
     = DEFAULT_SETTINGS
  /\ catalogsSaved (exec (handleZipFile (U := specUtils) quietHost chatFile) freshPlugin).
Proof.
  exact (handleZipFile_records_validated_archive (U := specUtils) quietHost chatFile
           {| zipFileNames := ["conversations.json"]; conversationsJson := inr [sampleChat] |}
           freshPlugin (or_introl eq_refl) eq_refl eq_refl).
Defined.

Lemma handleZipFile_keeps_catalogs_saved_witness :
  catalogsSaved afterChatFile
  /\ catalogsSaved (exec (handleZipFile (U := specUtils) decliningHost chatFile) afterChatFile).
Proof.
  assert (H : catalogsSaved afterChatFile) by (vm_compute; reflexivity).
  split; [exact H |].
  exact (handleZipFile_keeps_catalogs_saved (U := specUtils) decliningHost chatFile
           afterChatFile H).
Defined.

Lemma unparsable_archive_processes_nothing_witness :
  conversationRecords (exec (handleZipFile (U := specUtils) quietHost brokenJsonFile) freshPlugin)
  = ∅
  /\ exists more,
       globalErrors (importLog (exec (handleZipFile (U := specUtils) quietHost brokenJsonFile)
                                     freshPlugin))
       = ("Error processing conversations", "Unexpected end of JSON input") :: more.
Proof.
  pose proof (unparsable_archive_processes_nothing (U := specUtils) quietHost brokenJsonFile
                {| zipFileNames := ["conversations.json"];
                   conversationsJson := inl "Unexpected end of JSON input" |}
                freshPlugin "Unexpected end of JSON input"
                (or_introl eq_refl) eq_refl eq_refl eq_refl) as H.
  split; [apply H | apply H].
Defined.

Lemma declined_import_still_reports_witness :
  exists middle,
    notices (exec (handleZipFile (U := specUtils) decliningHost chatFile) afterChatFile)
    = notices afterChatFile ++ ["Import cancelled."] ++ middle ++ [noticeSuccess].
Proof.
  apply (declined_import_still_reports (U := specUtils) decliningHost chatFile afterChatFile
           {| fileName := "export.zip"; date := "2023-11-14T22:16:40.000Z" |}).
  - vm_compute. reflexivity.
  - reflexivity.
Defined.

(** ** Counters and entry lists *)

Lemma SameCounts_refl (p : Plugin) : SameCounts p p.
Proof. constructor; reflexivity. Qed.

Lemma SameCounts_trans (p q r : Plugin) : SameCounts p q -> SameCounts q r -> SameCounts p r.
Proof. intros [] []. constructor; congruence. Qed.

Lemma Quiet_SameCounts (p q : Plugin) : Quiet p q -> SameCounts p q.
Proof. intros []. constructor; assumption. Qed.

Lemma ReportOnly_SameCounts (isReport : string -> Prop) (p q : Plugin) :
  ReportOnly isReport p q -> SameCounts p q.
Proof. intros []. constructor; assumption. Qed.

Lemma Tally_SameCounts (n : nat) (p q : Plugin) : SameCounts p q -> Tally n p -> Tally n q.
Proof.
  intros [Hc H1 H2 H3 H4] []. constructor; rewrite ?Hc, ?H1, ?H2, ?H3, ?H4; assumption.
Qed.

Lemma Tally_S (n : nat) (p : Plugin) : Tally n p -> Tally (S n) p.
Proof. intros []. constructor; try assumption. lia. Qed.

Section Tallies.
Context {U : Utils}.
Variable host : Host.

Lemma writeToFile_counts (fileName content : string) :
  preserves SameCounts (writeToFile host fileName content).
Proof.
  intros p. apply (ReportOnly_SameCounts (fun _ => True)).
  now apply writeToFile_reports.
Qed.

Lemma logError_counts (message details : string) :
  preserves SameCounts (logError message details).
Proof. intros p. apply Quiet_SameCounts, logError_quiet. Qed.

Lemma updateConversationRecord_counts (chat : Chat) (folderPath : string) :
  preserves SameCounts (updateConversationRecord chat folderPath).
Proof. intros p. constructor; reflexivity. Qed.

(** A new conversation: counted as found, and then either written, listed and
    counted as imported, or not written and neither listed nor counted. *)
Lemma handleNewChat_tally (chat : Chat) (folderPath : string)
    (existingConversations : gmap string string) (n : nat) (p : Plugin) :
  Tally n p ->
  Tally (S n) (exec (handleNewChat host chat folderPath existingConversations) p).
Proof.
  intros HT. unfold handleNewChat, exec, bind at 1, update at 1.
  unfold createNewNote, tryCatch, bind at 1, get at 1. cbv beta iota.
  unfold bind at 1.
  match goal with
  | |- context [writeToFile host ?f ?c ?q] =>
      pose proof (writeToFile_counts f c q) as Hw; unfold exec in Hw;
      destruct (writeToFile host f c q) as [[[] | e] p1]
  end; cbn [snd] in Hw; destruct Hw as [Hc H1 H2 H3 H4]; destruct HT.
  - unfold bind, update. cbn [snd].
    constructor; cbn; rewrite ?Hc, ?H1, ?H2, ?H3, ?H4, ?length_app; cbn; lia.
  - unfold bind, logError, update, throw. cbn [snd].
    constructor; cbn; rewrite ?Hc, ?H1, ?H2, ?H3, ?H4; cbn; lia.
Qed.

(** A known conversation: skipped, or counted as changed and then merged and
    listed as updated, or listed as failed, or (no file at the recorded path)
    neither. *)
Lemma handleExistingChat_tally (chat : Chat) (record : ConversationRecord)
    (folderPath : string) (n : nat) (p : Plugin) :
  Tally n p ->
  fst (handleExistingChat host chat record folderPath p) = Return tt
  /\ Tally (S n) (exec (handleExistingChat host chat record folderPath) p).
Proof.
  intros []. unfold exec.
  remember (handleExistingChat host chat record folderPath p) as run eqn:Hrun.
  unfold handleExistingChat in Hrun.
  destruct (updateTime record >=? chat_update_time chat).
  - subst run. split; [reflexivity |]. unfold update. cbn [snd].
    constructor; cbn; rewrite ?length_app; cbn; lia.
  - unfold bind at 1, update at 1 in Hrun.
    unfold updateExistingNote, tryCatch, bind at 1, get at 1 in Hrun.
    cbv beta iota in Hrun.
    change (vault (setCounters (incrToUpdate (counters p)) p)) with (vault p) in Hrun.
    destruct (vault p !! path record) as [[content |] |].
    + destruct (processError host (path record)) as [error |].
      * unfold bind, throw, logError, update in Hrun. cbv beta iota in Hrun. subst run.
        split; [reflexivity |]. cbn [snd].
        constructor; cbn; rewrite ?length_app; cbn; lia.
      * unfold bind, update in Hrun. cbv beta iota in Hrun. subst run.
        split; [reflexivity |]. cbn [snd].
        constructor; cbn; rewrite ?length_app; cbn; lia.
    + unfold ret in Hrun. subst run. split; [reflexivity |]. cbn [snd].
      constructor; cbn; lia.
    + unfold ret in Hrun. subst run. split; [reflexivity |]. cbn [snd].
      constructor; cbn; lia.
Qed.

Lemma processSingleChat_tally (chat : Chat) (existingConversations : gmap string string)
    (n : nat) (p : Plugin) :
  Tally n p -> Tally (S n) (exec (processSingleChat host chat existingConversations) p).
Proof.
  intros HT. unfold exec.
  pose proof (createFolderForChat_quiet host chat p) as Hq. unfold exec in Hq.
  destruct (createFolderForChat host chat p) as [[folderPath | e] p0] eqn:Hfolder;
    cbn [snd] in Hq.
  - rewrite (processSingleChat_after_folder host chat existingConversations p p0 folderPath
               Hfolder).
    apply (Tally_SameCounts _ _ _ (Quiet_SameCounts _ _ Hq)) in HT.
    unfold tryCatch, bind at 1.
    destruct (conversationRecords p !! chat_id chat) as [record |].
    + destruct (handleExistingChat_tally chat record folderPath n p0 HT) as [Hret Hstep].
      unfold exec in Hstep.
      destruct (handleExistingChat host chat record folderPath p0) as [outcome p1].
      cbn [fst snd] in Hret, Hstep. subst outcome.
      eapply Tally_SameCounts; [| exact Hstep]. apply updateConversationRecord_counts.
    + pose proof (handleNewChat_tally chat folderPath existingConversations n p0 HT) as Hstep.
      unfold exec in Hstep.
      destruct (handleNewChat host chat folderPath existingConversations p0)
        as [[[] | e] p1]; cbn [snd] in Hstep.
      * eapply Tally_SameCounts; [| exact Hstep]. apply updateConversationRecord_counts.
      * eapply Tally_SameCounts; [| exact Hstep]. apply logError_counts.
  - unfold processSingleChat, tryCatch, bind at 1. rewrite Hfolder.
    apply Tally_S. eapply Tally_SameCounts; [| exact HT].
    eapply SameCounts_trans; [apply (Quiet_SameCounts _ _ Hq) |]. apply logError_counts.
Qed.

Lemma processChats_tally (chats : list Chat) (existingConversations : gmap string string)
    (n : nat) (p : Plugin) :
  Tally n p ->
  Tally (n + length chats) (exec (processChats host chats existingConversations) p).
Proof.
  revert n p. induction chats as [|chat rest IH]; intros n p HT.
  - cbn. now rewrite Nat.add_0_r.
  - rewrite processChats_cons. cbn [length].
    replace (n + S (length rest))%nat with (S n + length rest)%nat by lia.
    apply IH. now apply processSingleChat_tally.
Qed.

End Tallies.

Section CompletedRun.
Context {U : Utils}.
Variable host : Host.

Lemma processConversations_parsed (zip : Zip) (file : File) (chats : list Chat) (p : Plugin) :
  existsb (String.eqb "conversations.json") (zipFileNames zip) = true ->
  conversationsJson zip = inr chats ->
  exists existingConversations,
    getAllExistingConversations p = (Return existingConversations, p)
    /\ exec (processConversations host zip file) p
       = exec updateImportLog
           (exec (processChats host chats existingConversations)
                 (setCounters (initialCounters (size existingConversations)) p)).
Proof.
  intros Hentry Hjson. eexists. split; [reflexivity |].
  unfold processConversations, exec at 1, tryCatch, bind at 1, extractChatsFromZip.
  rewrite Hentry, Hjson. unfold ret at 1. unfold bind at 1.
  unfold getAllExistingConversations at 1, get at 1.
  unfold bind at 1, update at 1. unfold bind at 1.
  rewrite (processChats_returns host). reflexivity.
Qed.

(** X12. The counters and the log of a completed run agree. For an archive
    that passes validation, is not declined and whose [conversations.json]
    parses to [chats]: at the end of [handleZipFile] the created list is as
    long as the count of imported conversations, the updated list is no longer
    than the count of merged conversations, neither count exceeds the count of
    conversations found new (changed), the updated and failed lists together
    are no longer than the count of changed conversations, the new, changed
    and skipped conversations together are no more than the conversations of
    the archive, [totalNonEmptyMessagesToAdd] is zero, and the summary of the
    log shows the final counters. *)
Theorem completed_run_tallies (file : File) (zip : Zip) (chats : list Chat) (p : Plugin) :
  importedArchives p !! file_hash file = None \/ confirmAnswer host = true ->
  file_zip file = inr zip ->
  existsb (String.eqb "conversations.json") (zipFileNames zip) = true ->
  conversationsJson zip = inr chats ->
  Tally (length chats) (exec (handleZipFile host file) p)
  /\ summary (importLog (exec (handleZipFile host file) p))
     = summary (addSummary
                  (totalExistingConversations (counters (exec (handleZipFile host file) p)))
                  (totalNewConversationsSuccessfullyImported
                     (counters (exec (handleZipFile host file) p)))
                  (totalConversationsActuallyUpdated
                     (counters (exec (handleZipFile host file) p)))
                  (totalNonEmptyMessagesAdded (counters (exec (handleZipFile host file) p)))
                  newImportLog).
Proof.
  intros Hgo Hzip Hentry Hjson.
  assert (Hrun : exec (handleZipFile host file) p
                 = exec (reportRun host file)
                     (exec (recordArchive host file)
                        (exec (processConversations host zip file)
                              (setImportLog newImportLog p)))).
  { unfold exec at 1. now rewrite (handleZipFile_validated host file zip p Hgo Hzip Hentry). }
  rewrite Hrun. clear Hrun.
  destruct (processConversations_parsed zip file chats (setImportLog newImportLog p)
              Hentry Hjson) as (existingConversations & _ & ->).
  set (q0 := setCounters (initialCounters (size existingConversations))
                         (setImportLog newImportLog p)).
  assert (H0 : Tally 0 q0) by (constructor; cbn; lia).
  pose proof (processChats_tally host chats existingConversations 0 q0 H0) as H1.
  cbn [Nat.add] in H1.
  set (q1 := exec (processChats host chats existingConversations) q0) in *.
  pose proof (processChats_processing host chats existingConversations q0) as [_ _ _ _ He].
  fold q1 in He.
  set (q2 := exec (recordArchive host file) (exec updateImportLog q1)).
  destruct (reportRun_closes host file q2 He) as [Hrep _].
  split.
  - eapply Tally_SameCounts; [apply (ReportOnly_SameCounts _ _ _ Hrep) |].
    eapply Tally_SameCounts; [| exact H1]. constructor; reflexivity.
  - rewrite (report_summary _ _ _ Hrep), (report_counters _ _ _ Hrep). reflexivity.
Qed.

End CompletedRun.

Lemma completed_run_tallies_witness :
  Tally 1 (exec (handleZipFile (U := specUtils) quietHost chatFile) freshPlugin).
Proof.
  apply (completed_run_tallies (U := specUtils) quietHost chatFile
           {| zipFileNames := ["conversations.json"]; conversationsJson := inr [sampleChat] |}
           [sampleChat] freshPlugin (or_introl eq_refl) eq_refl eq_refl eq_refl).
Defined.

(** ** Conversations that fail *)

Section FailingConversations.
Context {U : Utils}.
Variable host : Host.

(** X13. A conversation whose folder cannot be made or reached is left
    alone: [processSingleChat] touches nothing but folders and the list of
    global errors (no record, no counter, no entry list, no file changes), and
    the last global error names the conversation and carries the message of
    the failure. *)
Theorem folder_failure_leaves_conversation (chat : Chat)
    (existingConversations : gmap string string) (p p0 : Plugin) (error : string) :
  createFolderForChat host chat p = (Throw error, p0) ->
  Quiet p (exec (processSingleChat host chat existingConversations) p)
  /\ globalErrors (importLog (exec (processSingleChat host chat existingConversations) p))
     = globalErrors (importLog p0)
       ++ [("Error processing chat: " +:+ orUntitled chat, error)].
Proof.
  intros Hfolder.
  pose proof (createFolderForChat_quiet host chat p) as Hq. unfold exec in Hq.
  rewrite Hfolder in Hq. cbn [snd] in Hq.
  assert (Hrun : processSingleChat host chat existingConversations p
                 = logError ("Error processing chat: " +:+ orUntitled chat) error p0).
  { unfold processSingleChat, tryCatch, bind at 1. now rewrite Hfolder. }
  unfold exec. rewrite Hrun. split; [| reflexivity].
  eapply Quiet_trans; [exact Hq | apply logError_quiet].
Qed.

(** X14. A new conversation whose document the vault refuses to create is
    not recorded and not listed: the conversation records and the four entry
    lists (the failed list among them) are as before, the vault is as the
    folder step left it, the conversation is counted as found but not as
    imported, and three global errors are added: that of [writeToFile], that
    of [createNewNote], and that of [processSingleChat], whose message is the
    reference error raised in the [catch] block of [createNewNote]. *)
Theorem unwritten_note_is_not_listed (chat : Chat)
    (existingConversations : gmap string string) (p p0 : Plugin)
    (folderPath error : string) :
  createFolderForChat host chat p = (Return folderPath, p0) ->
  conversationRecords p !! chat_id chat = None ->
  vault p0 !! (folderPath +:+ "/" +:+ getUniqueFileName (settings p) chat folderPath
                                        existingConversations) = None ->
  createError host (folderPath +:+ "/" +:+ getUniqueFileName (settings p) chat folderPath
                                             existingConversations) = Some error ->
  conversationRecords (exec (processSingleChat host chat existingConversations) p)
  = conversationRecords p
  /\ vault (exec (processSingleChat host chat existingConversations) p) = vault p0
  /\ SameCounts (setCounters (incrNewToImport (counters p)) p)
                (exec (processSingleChat host chat existingConversations) p)
  /\ globalErrors (importLog (exec (processSingleChat host chat existingConversations) p))
     = globalErrors (importLog p0)
       ++ [("Error creating or modifying file '"
            +:+ (folderPath +:+ "/" +:+ getUniqueFileName (settings p) chat folderPath
                                          existingConversations) +:+ "'", error);
           ("Error creating new note", error);
           ("Error processing chat: " +:+ orUntitled chat, "filePath is not defined")].
Proof.
  intros Hfolder Hnone Hfree Hcreate.
  pose proof (createFolderForChat_quiet host chat p) as Hq. unfold exec in Hq.
  rewrite Hfolder in Hq. cbn [snd] in Hq.
  pose proof (quiet_settings _ _ Hq) as Hsettings.
  pose proof (quiet_records _ _ Hq) as Hrecords.
  unfold exec. remember (processSingleChat host chat existingConversations p) as run eqn:Hrun.
  rewrite (processSingleChat_after_folder host chat existingConversations p p0 folderPath
             Hfolder), Hnone in Hrun.
  unfold handleNewChat, createNewNote in Hrun.
  unfold tryCatch at 1, bind at 1, bind at 1, update at 1 in Hrun.
  unfold tryCatch at 1, bind at 1, get at 1 in Hrun.
  cbv beta iota in Hrun.
  change (settings (setCounters (incrNewToImport (counters p0)) p0)) with (settings p0) in Hrun.
  rewrite Hsettings in Hrun.
  set (filePath := folderPath +:+ "/" +:+ getUniqueFileName (settings p) chat folderPath
                                            existingConversations) in *.
  unfold bind at 1, writeToFile, tryCatch at 1, bind at 1, get at 1 in Hrun.
  cbv beta iota in Hrun.
  change (vault (setCounters (incrNewToImport (counters p0)) p0)) with (vault p0) in Hrun.
  rewrite Hfree in Hrun. unfold vaultCreate in Hrun. rewrite Hcreate in Hrun.
  unfold chatErrorHandler, logError, bind, throw, update in Hrun. cbv beta iota in Hrun.
  subst run. cbn [snd].
  split; [exact Hrecords |]. split; [reflexivity |]. split.
  - destruct Hq. constructor; cbn; congruence.
  - cbn. now rewrite <- !app_assoc.
Qed.

End FailingConversations.

Lemma folder_failure_leaves_conversation_witness :
  Quiet freshPlugin
        (exec (processSingleChat (U := specUtils) readOnlyHost sampleChat ∅) freshPlugin).
Proof.
  eapply (folder_failure_leaves_conversation (U := specUtils) readOnlyHost sampleChat ∅
            freshPlugin).
  vm_compute. reflexivity.
Defined.

Lemma unwritten_note_is_not_listed_witness :
  conversationRecords (exec (processSingleChat (U := specUtils) fullDiskHost sampleChat ∅)
                            freshPlugin)
  = ∅.
Proof.
  eapply (unwritten_note_is_not_listed (U := specUtils) fullDiskHost sampleChat ∅ freshPlugin).
  - vm_compute. reflexivity.
  - reflexivity.
  - vm_compute. reflexivity.
  - reflexivity.
Defined.

(** ** Folders *)

Section Folders.
Context {U : Utils}.
Variable host : Host.

Lemma ensureFolders_spec (folders : list string) (currentPath : string) (p : Plugin) :
  exists result p1,
    ensureFolders host currentPath folders p = (Return result, p1)
    /\ (forall filePath entry, vault p !! filePath = Some entry ->
                               vault p1 !! filePath = Some entry)
    /\ (forall filePath, vault p !! filePath = None ->
          vault p1 !! filePath = None
          \/ (vault p1 !! filePath = Some TFolder
              /\ filePath ∈ folderPaths currentPath folders))
    /\ folderOutcome host (vault p) (vault p1) (folderPaths currentPath folders) result.
Proof.
  revert currentPath p. induction folders as [|folder rest IH]; intros currentPath p.
  - exists None, p. split; [reflexivity |]. split; [auto |]. split; [auto |]. constructor.
  - cbn [ensureFolders folderPaths]. unfold bind at 1, get at 1.
    set (visitedPath := currentPath +:+ folder +:+ "/").
    destruct (vault p !! visitedPath) as [[content |] |] eqn:E.
    + eexists _, p. split; [reflexivity |]. split; [auto |]. split; [auto |].
      exists visitedPath. split; [apply list_elem_of_here |]. left. eauto.
    + destruct (IH visitedPath p) as (result & p1 & Hrun & Hgrow & Hnew & Hout).
      exists result, p1. split; [exact Hrun |]. split; [exact Hgrow |]. split.
      * intros f Hf. destruct (Hnew f Hf) as [H | [H Hin]]; [now left | right].
        split; [exact H | now apply list_elem_of_further].
      * destruct result as [error |]; cbn [folderOutcome] in Hout |- *.
        -- destruct Hout as (v & Hin & Hv). exists v.
           split; [now apply list_elem_of_further | exact Hv].
        -- constructor; [left; now apply Hgrow | exact Hout].
    + destruct (createFolderError host visitedPath) as [reason |] eqn:Ecreate.
      * destruct (String.eqb reason "Folder already exists.") eqn:Ereason.
        -- apply String.eqb_eq in Ereason. subst reason.
           destruct (IH visitedPath p) as (result & p1 & Hrun & Hgrow & Hnew & Hout).
           exists result, p1. split; [exact Hrun |]. split; [exact Hgrow |]. split.
           ++ intros f Hf. destruct (Hnew f Hf) as [H | [H Hin]]; [now left | right].
              split; [exact H | now apply list_elem_of_further].
           ++ destruct result as [error |]; cbn [folderOutcome] in Hout |- *.
              ** destruct Hout as (v & Hin & Hv). exists v.
                 split; [now apply list_elem_of_further | exact Hv].
              ** constructor; [now right | exact Hout].
        -- apply String.eqb_neq in Ereason.
           eexists _, _. split; [reflexivity |]. split; [auto |]. split; [auto |].
           exists visitedPath. split; [apply list_elem_of_here |]. right.
           exists reason. auto.
      * unfold bind at 1, update at 1.
        destruct (IH visitedPath (setVault (<[visitedPath := TFolder]> (vault p)) p))
          as (result & p1 & Hrun & Hgrow & Hnew & Hout).
        cbn [vault setVault] in Hgrow, Hnew, Hout.
        exists result, p1. split; [exact Hrun |].
        assert (Hmade : vault p1 !! visitedPath = Some TFolder).
        { apply Hgrow. apply lookup_insert_eq. }
        split; [| split].
        -- intros f x Hf. apply Hgrow. rewrite lookup_insert_ne; [exact Hf |].
           intros <-. congruence.
        -- intros f Hf. destruct (decide (visitedPath = f)) as [<- | Hne].
           ++ right. split; [exact Hmade | apply list_elem_of_here].
           ++ destruct (Hnew f) as [H | [H Hin]].
              ** now rewrite lookup_insert_ne.
              ** now left.
              ** right. split; [exact H | now apply list_elem_of_further].
        -- destruct result as [error |]; cbn [folderOutcome] in Hout |- *.
           ++ destruct Hout as (v & Hin & Hv). exists v.
              split; [now apply list_elem_of_further |].
              assert (Hne : visitedPath <> v).
              { intros <-. rewrite lookup_insert_eq in Hv.
                destruct Hv as [(c & Hc & _) | (r & Hc & _)]; discriminate. }
              rewrite lookup_insert_ne in Hv by exact Hne. exact Hv.
           ++ constructor; [now left | exact Hout].
Qed.

(** X15. [ensureFolderExists] never throws and never changes or removes an
    entry of the vault; what it adds is folders at the paths it visits (the
    folders named in the path, one under the other). When it reports success,
    every visited path is a folder of the vault (or the host said that the
    folder already exists); when it reports a failure, a visited path holds a
    file, or the host refused to create it, and the message names that path
    and the reason. *)
Theorem ensureFolderExists_makes_the_folders (folderPath : string) (p : Plugin) :
  exists result p1,
    ensureFolderExists host folderPath p = (Return result, p1)
    /\ (forall filePath entry, vault p !! filePath = Some entry ->
                               vault p1 !! filePath = Some entry)
    /\ (forall filePath, vault p !! filePath = None ->
          vault p1 !! filePath = None
          \/ (vault p1 !! filePath = Some TFolder
              /\ filePath ∈ folderPaths "" (foldersOf folderPath)))
    /\ folderOutcome host (vault p) (vault p1) (folderPaths "" (foldersOf folderPath)) result.
Proof. apply ensureFolders_spec. Qed.

Lemma ensureFolders_again (folders : list string) (currentPath : string) (p p1 : Plugin) :
  ensureFolders host currentPath folders p = (Return None, p1) ->
  ensureFolders host currentPath folders p1 = (Return None, p1).
Proof.
  revert currentPath p. induction folders as [|folder rest IH]; intros currentPath p.
  - cbn. now intros [= <-].
  - cbn [ensureFolders]. set (visitedPath := currentPath +:+ folder +:+ "/").
    intros Hrun. unfold bind at 1, get at 1 in Hrun. unfold bind at 1, get at 1.
    destruct (vault p !! visitedPath) as [[content |] |] eqn:E.
    + discriminate.
    + destruct (ensureFolders_spec rest visitedPath p) as (r & q & Hq & Hgrow & _).
      rewrite Hrun in Hq. injection Hq as <- <-.
      rewrite (Hgrow _ _ E). now apply (IH visitedPath p).
    + destruct (createFolderError host visitedPath) as [reason |] eqn:Ecreate.
      * destruct (String.eqb reason "Folder already exists.") eqn:Ereason.
        -- destruct (ensureFolders_spec rest visitedPath p) as (r & q & Hq & Hgrow & Hnew & _).
           rewrite Hrun in Hq. injection Hq as <- <-.
           destruct (Hnew _ E) as [H | [H _]]; rewrite H; now apply (IH visitedPath p).
        -- unfold bind, logError, update, ret in Hrun. discriminate.
      * unfold bind at 1, update at 1 in Hrun.
        destruct (ensureFolders_spec rest visitedPath
                    (setVault (<[visitedPath := TFolder]> (vault p)) p))
          as (r & q & Hq & Hgrow & _).
        rewrite Hrun in Hq. injection Hq as <- <-.
        rewrite (Hgrow visitedPath TFolder) by apply lookup_insert_eq.
        now apply (IH visitedPath (setVault (<[visitedPath := TFolder]> (vault p)) p)).
Qed.

(** X16. Once [ensureFolderExists] has succeeded for a path, calling it
    again for that path succeeds and changes nothing. *)
Theorem ensureFolderExists_again (folderPath : string) (p p1 : Plugin) :
  ensureFolderExists host folderPath p = (Return None, p1) ->
  ensureFolderExists host folderPath p1 = (Return None, p1).
Proof. apply ensureFolders_again. Qed.

End Folders.

Lemma ensureFolderExists_again_witness :
  ensureFolderExists quietHost "ChatGPT Archives/2023-11"
    (exec (ensureFolderExists quietHost "ChatGPT Archives/2023-11") freshPlugin)
  = (Return None, exec (ensureFolderExists quietHost "ChatGPT Archives/2023-11") freshPlugin).
Proof.
  apply (ensureFolderExists_again quietHost "ChatGPT Archives/2023-11" freshPlugin).
  vm_compute. reflexivity.
Defined.

(** ** The report of a run *)

Section ReportFile.
Context {U : Utils}.
Variable host : Host.

Lemma writeImportLog_vault (zipFileName : string) (p : Plugin) :
  exists p1,
    (forall filePath entry, vault p !! filePath = Some entry ->
                            vault p1 !! filePath = Some entry)
    /\ (forall filePath content, vault p1 !! filePath = Some (TFile content) ->
                                 vault p !! filePath = Some (TFile content))
    /\ (vault (exec (writeImportLog host zipFileName) p) = vault p1
        \/ exists logFilePath content,
             vault p1 !! logFilePath = None
             /\ isImportReport content
             /\ vault (exec (writeImportLog host zipFileName) p)
                = <[logFilePath := TFile content]> (vault p1)).
Proof.
  unfold exec. remember (writeImportLog host zipFileName p) as run eqn:Hrun.
  unfold writeImportLog, bind at 1, get at 1 in Hrun. cbv beta iota in Hrun.
  unfold bind at 1, ensureFolderExists in Hrun.
  destruct (ensureFolders_spec host (filter (fun f => negb (String.eqb f ""))
                                            (split "/" (archiveFolder (settings p) +:+ "/logs")))
              "" p) as (result & p1 & Hfolders & Hgrow & Hnew & _).
  rewrite Hfolders in Hrun.
  exists p1. split; [exact Hgrow |]. split.
  { intros f c Hf. destruct (vault p !! f) as [x |] eqn:E.
    - rewrite (Hgrow _ _ E) in Hf. congruence.
    - destruct (Hnew _ E) as [H | [H _]]; congruence. }
  destruct result as [error |].
  - left. subst run. reflexivity.
  - unfold bind at 1, get at 1 in Hrun. cbv beta iota in Hrun.
    unfold bind at 1, get at 1 in Hrun. cbv beta iota in Hrun.
    destruct (logPath_loop_returns (vault p1) (archiveFolder (settings p) +:+ "/logs")
                (formatTimestamp (clock host) FormatPrefix)) as (logFilePath & Hloop & Hfree).
    rewrite Hloop in Hrun. unfold default, from_option, id in Hrun.
    match type of Hrun with
    | context [writeToFile host logFilePath ?c] => set (content := c) in Hrun
    end.
    unfold tryCatch, writeToFile, tryCatch, bind at 1, get at 1 in Hrun.
    cbv beta iota in Hrun. rewrite Hfree in Hrun. unfold vaultCreate in Hrun.
    destruct (createError host logFilePath) as [error |].
    + left. subst run. reflexivity.
    + right. exists logFilePath, content. split; [exact Hfree |]. split; [reflexivity |].
      unfold bind, get, update in Hrun. rewrite Hfree in Hrun. subst run. reflexivity.
Qed.

(** X17. [writeImportLog] never overwrites: every entry of the vault is the
    same afterwards, and a file that is in the vault afterwards is a file from
    before or a report at a path that was free. *)
Theorem writeImportLog_never_overwrites (zipFileName : string) (p : Plugin) :
  (forall filePath entry,
      vault p !! filePath = Some entry ->
      vault (exec (writeImportLog host zipFileName) p) !! filePath = Some entry)
  /\ (forall filePath content,
        vault (exec (writeImportLog host zipFileName) p) !! filePath = Some (TFile content) ->
        vault p !! filePath = Some (TFile content)
        \/ (vault p !! filePath = None /\ isImportReport content)).
Proof.
  destruct (writeImportLog_vault zipFileName p)
    as (p1 & Hgrow & Hfiles & [-> | (logFilePath & content & Hfree & Hreport & ->)]).
  - split; [exact Hgrow | intros f c Hf; left; now apply Hfiles].
  - split.
    + intros f x Hf. rewrite lookup_insert_ne; [now apply Hgrow |].
      intros <-. rewrite (Hgrow _ _ Hf) in Hfree. discriminate.
    + intros f c. destruct (decide (logFilePath = f)) as [<- | Hne].
      * rewrite lookup_insert_eq. intros [= <-]. right. split; [| exact Hreport].
        destruct (vault p !! logFilePath) as [x |] eqn:E; [| reflexivity].
        rewrite (Hgrow _ _ E) in Hfree. discriminate.
      * rewrite lookup_insert_ne by exact Hne. intros Hf. left. now apply Hfiles.
Qed.

End ReportFile.

(** ** The search for conversation identifiers *)

Lemma search_plain (a rest : string) :
  allChars notLineTerminator a = true ->
  searchConversationId false (a +:+ rest) = searchConversationId false rest.
Proof.
  induction a as [|c a IH]; [reflexivity |].
  cbn [allChars]. intros [Hc Ha]%andb_prop.
  unfold notLineTerminator in Hc. apply negb_true_iff in Hc.
  change (String c a +:+ rest) with (String c (a +:+ rest)).
  cbn [searchConversationId]. rewrite Hc. now apply IH.
Qed.

Lemma search_line (a rest : string) :
  allChars notLineTerminator a = true ->
  startsWith a "-" = false ->
  searchConversationId true (a +:+ nl +:+ rest) = searchConversationId true rest.
Proof.
  intros Ha Hdash. destruct a as [|c a].
  - reflexivity.
  - cbn [allChars] in Ha. apply andb_prop in Ha as [Hc Ha].
    unfold notLineTerminator in Hc. apply negb_true_iff in Hc.
    cbn [startsWith] in Hdash. rewrite andb_true_r in Hdash.
    change (String c a +:+ nl +:+ rest) with (String c (a +:+ nl +:+ rest)).
    cbn [searchConversationId]. unfold matchConversationId.
    cbn [startsWith]. rewrite Hdash. cbn [andb]. rewrite Hc.
    now rewrite search_plain by exact Ha.
Qed.

Lemma search_labelled (label value rest : string) :
  allChars notLineTerminator label = true ->
  allChars notLineTerminator value = true ->
  startsWith label "-" = false -> label <> "" ->
  searchConversationId true (label +:+ value +:+ nl +:+ rest)
  = searchConversationId true rest.
Proof.
  intros Hl Hv Hdash Hne. rewrite <- append_assoc. apply search_line.
  - now rewrite allChars_append, Hl, Hv.
  - destruct label as [|c label]; [contradiction | exact Hdash].
Qed.

Lemma search_dashes (rest : string) :
  startsWith (dropWhile isWhiteSpace rest) "conversation_id:" = false ->
  searchConversationId true ("---" +:+ nl +:+ rest) = searchConversationId true rest.
Proof.
  intros H.
  change ("---" +:+ nl +:+ rest) with (String "-" (String "-" (String "-" (String "010" rest)))).
  cbn [searchConversationId]. unfold matchConversationId.
  change (startsWith (String "-" (String "-" (String "-" (String "010" rest)))) "---") with true.
  cbv iota.
  change (dropWhile isWhiteSpace (dropChars 3 (String "-" (String "-" (String "-" (String "010" rest))))))
    with (dropWhile isWhiteSpace rest).
  rewrite H. reflexivity.
Qed.

Lemma search_nl (rest : string) :
  searchConversationId true (nl +:+ rest) = searchConversationId true rest.
Proof. reflexivity. Qed.

Lemma search_lines (ls : list string) (rest : string) :
  ls <> [] ->
  Forall (fun l => allChars notLineTerminator l = true /\ startsWith l "-" = false) ls ->
  searchConversationId true (join nl ls +:+ nl +:+ rest) = searchConversationId true rest.
Proof.
  induction ls as [|l ls IH]; [contradiction |].
  intros _ [[Hl Hd] Hls]%Forall_cons. destruct ls as [|l' ls].
  - cbn [join String.concat]. now apply search_line.
  - change (join nl (l :: l' :: ls)) with (l +:+ nl +:+ join nl (l' :: ls)).
    rewrite !append_assoc. rewrite search_line by assumption.
    apply IH; [discriminate | exact Hls].
Qed.

Section GeneratedNotes.
Context {U : Utils}.

Lemma renderNodes_head (now : Z) (nodes : list (string * MappingNode)) :
  startsWith (dropWhile isWhiteSpace (renderNodes now nodes)) "conversation_id:" = false.
Proof.
  induction nodes as [|[key node] nodes IH]; [reflexivity |].
  cbn [renderNodes]. destruct (node_message node) as [message |]; [| exact IH].
  destruct (isValidMessage message); [| exact IH].
  unfold formatMessage. destruct (String.eqb (authorNameOf message) "User"); reflexivity.
Qed.

Lemma authorNameOf_cases (message : ChatMessage) :
  authorNameOf message = "User" \/ authorNameOf message = "ChatGPT"
  \/ authorNameOf message = "Unknown".
Proof.
  unfold authorNameOf. destruct (msg_author message) as [[[r |]] |]; cbn [role]; auto.
  destruct (String.eqb r "user"); auto.
Qed.

Lemma search_formatMessage (now : Z) (message : ChatMessage) (nodes : list (string * MappingNode)) :
  searchSafe now message = true ->
  searchConversationId true (formatMessage now message +:+ renderNodes now nodes)
  = searchConversationId true (renderNodes now nodes).
Proof.
  unfold searchSafe. intros [[[Hdate Htime]%andb_prop Huid]%andb_prop Htexts]%andb_prop.
  destruct (bodyOf_lines message) as (texts & Hbody & Hne & Hlf & Hcr).
  specialize (Hcr Htexts).
  rewrite formatMessage_shape, Hbody, !append_assoc.
  assert (Hquote : allChars notLineTerminator (quoteCharOf message +:+ " ") = true
                   /\ startsWith (quoteCharOf message +:+ " ") "-" = false).
  { unfold quoteCharOf. destruct (String.eqb (authorNameOf message) "User"); split; reflexivity. }
  (* the heading *)
  rewrite search_line.
  2: { unfold headingOf. rewrite !allChars_append, Hdate, Htime.
       destruct (authorNameOf_cases message) as [-> | [-> | ->]]; reflexivity. }
  2: { unfold headingOf. destruct (String.eqb (authorNameOf message) "User"); reflexivity. }
  (* the quoted lines *)
  rewrite search_lines.
  2: { destruct texts; [contradiction | discriminate]. }
  2: { apply Forall_map. rewrite Forall_forall in Hlf, Hcr. apply Forall_forall.
       intros line Hin. specialize (Hlf line Hin). specialize (Hcr line Hin). cbn beta.
       replace (quoteCharOf message +:+ " " +:+ line)
         with ((quoteCharOf message +:+ " ") +:+ line) by now rewrite append_assoc.
       split.
       - rewrite allChars_append, (proj1 Hquote). cbn [andb].
         clear -Hlf Hcr. induction line as [|c line IH]; [reflexivity |].
         cbn [allChars] in *. apply andb_prop in Hlf as [Hc1 Hl1].
         apply andb_prop in Hcr as [Hc2 Hl2]. rewrite (IH Hl1 Hl2), andb_true_r.
         unfold notLineTerminator, isLineTerminator, differs in *.
         apply negb_true_iff in Hc1, Hc2. now rewrite Hc1, Hc2.
       - destruct Hquote as [_ Hq]. revert Hq.
         unfold quoteCharOf. destruct (String.eqb (authorNameOf message) "User"); reflexivity. }
  (* the marker *)
  rewrite <- (append_assoc (uidOf message) uidClose), <- (append_assoc uidOpen).
  rewrite search_line.
  2: { rewrite !allChars_append, Huid. reflexivity. }
  2: { reflexivity. }
  (* the separator and the two empty lines *)
  unfold separatorOf. destruct (String.eqb (authorNameOf message) "ChatGPT").
  - rewrite !append_assoc. rewrite search_nl. rewrite search_dashes.
    + now rewrite !search_nl.
    + change (dropWhile isWhiteSpace (nl +:+ nl +:+ renderNodes now nodes))
        with (dropWhile isWhiteSpace (renderNodes now nodes)).
      apply renderNodes_head.
  - change ("" +:+ nl +:+ nl +:+ renderNodes now nodes)
      with (nl +:+ nl +:+ renderNodes now nodes).
    now rewrite !search_nl.
Qed.

Lemma search_renderNodes (now : Z) (nodes : list (string * MappingNode)) :
  forallb (searchSafe now)
          (filter (fun message => isValidMessage message)
                  (omap (fun kv => node_message (snd kv)) nodes)) = true ->
  searchConversationId true (renderNodes now nodes) = None.
Proof.
  induction nodes as [|[key node] nodes IH]; intros H; [reflexivity |].
  cbn [renderNodes omap list_omap snd] in *.
  destruct (node_message node) as [message |]; [| now apply IH].
  cbn [filter list_filter] in *. unfold filter in IH, H |- *.
  destruct (decide (isValidMessage message)) as [Hv | Hv].
  - apply Is_true_true in Hv. rewrite Hv.
    cbn [forallb] in H. apply andb_prop in H as [Hm Hrest].
    rewrite search_formatMessage by exact Hm. now apply IH.
  - apply Is_true_false in Hv. rewrite Hv. now apply IH.
Qed.

Lemma search_generated (now : Z) (chat : Chat) :
  plainHeader chat = true ->
  forallb (searchSafe now) (renderedMessages chat) = true ->
  searchConversationId true (generateMarkdownContent now chat) = None.
Proof.
  unfold plainHeader. intros [[[Ht Hi]%andb_prop Hc]%andb_prop Hu]%andb_prop Hmessages.
  unfold generateMarkdownContent, generateHeader. rewrite !append_assoc.
  rewrite search_dashes by reflexivity.
  rewrite (search_labelled "aliases: ") by (reflexivity || assumption || discriminate).
  rewrite (search_labelled "conversation_id: ") by (reflexivity || assumption || discriminate).
  rewrite (search_labelled "create_time: ") by (reflexivity || assumption || discriminate).
  rewrite (search_labelled "update_time: ") by (reflexivity || assumption || discriminate).
  rewrite search_dashes by reflexivity.
  rewrite search_nl.
  rewrite (search_labelled "# Topic: ") by (reflexivity || assumption || discriminate).
  rewrite (search_labelled "Created: ") by (reflexivity || assumption || discriminate).
  rewrite (search_labelled "Last Updated: ") by (reflexivity || assumption || discriminate).
  rewrite !search_nl.
  now apply search_renderNodes.
Qed.

End GeneratedNotes.

Lemma noteConversation_fold (entries : list (string * AbstractFile))
    (conversations : gmap string string) :
  let result := fold_left noteConversation entries conversations in
  (forall conversationId filePath,
      result !! conversationId = Some filePath ->
      conversations !! conversationId = Some filePath
      \/ exists content,
           (filePath, TFile content) ∈ entries
           /\ endsWith filePath ".md" = true
           /\ conversationIdOf content = Some conversationId)
  /\ (forall conversationId,
        is_Some (conversations !! conversationId) -> is_Some (result !! conversationId))
  /\ (forall filePath content conversationId,
        (filePath, TFile content) ∈ entries ->
        endsWith filePath ".md" = true ->
        conversationIdOf content = Some conversationId ->
        is_Some (result !! conversationId)).
Proof.
  revert conversations. induction entries as [|entry entries IH]; intros conversations.
  - cbn. split; [auto |]. split; [auto |]. intros f c i Hin. now apply elem_of_nil in Hin.
  - cbn [fold_left]. cbn zeta.
    destruct (IH (noteConversation conversations entry)) as (Hsound & Hkeep & Hfound).
    assert (Hstep : forall conversationId filePath,
               noteConversation conversations entry !! conversationId = Some filePath ->
               conversations !! conversationId = Some filePath
               \/ exists content,
                    entry = (filePath, TFile content)
                    /\ endsWith filePath ".md" = true
                    /\ conversationIdOf content = Some conversationId).
    { intros i f. unfold noteConversation. destruct entry as [path [content |]]; [| auto].
      destruct (endsWith path ".md") eqn:Emd; [| auto].
      destruct (searchConversationId true content) as [capture |] eqn:Es; [| auto].
      destruct (decide (trim capture = i)) as [<- | Hne].
      - rewrite lookup_insert_eq. intros [= <-]. right. exists content.
        split; [reflexivity |]. split; [exact Emd |]. unfold conversationIdOf. now rewrite Es.
      - rewrite lookup_insert_ne by exact Hne. auto. }
    assert (Hgrow : forall conversationId,
               is_Some (conversations !! conversationId) ->
               is_Some (noteConversation conversations entry !! conversationId)).
    { intros i Hi. unfold noteConversation. destruct entry as [path [content |]]; [| auto].
      destruct (endsWith path ".md"); [| auto].
      destruct (searchConversationId true content) as [capture |]; [| auto].
      destruct (decide (trim capture = i)) as [<- | Hne].
      - rewrite lookup_insert_eq. eauto.
      - now rewrite lookup_insert_ne. }
    split; [| split].
    + intros i f Hf. destruct (Hsound i f Hf) as [H | (content & Hin & Hmd & Hid)].
      * destruct (Hstep i f H) as [H' | (content & -> & Hmd & Hid)]; [now left |].
        right. exists content. split; [apply list_elem_of_here | auto].
      * right. exists content. split; [now apply list_elem_of_further | auto].
    + intros i Hi. apply Hkeep, Hgrow, Hi.
    + intros f c i Hin Hmd Hid. apply elem_of_cons in Hin as [<- | Hin].
      * apply Hkeep. unfold noteConversation. rewrite Hmd.
        unfold conversationIdOf in Hid.
        destruct (searchConversationId true c) as [capture |]; [| discriminate].
        injection Hid as <-. rewrite lookup_insert_eq. eauto.
      * now apply (Hfound f c i).
Qed.

Lemma getAllExistingConversations_fold (p : Plugin) :
  getAllExistingConversations p
  = (Return (fold_left noteConversation (map_to_list (vault p)) ∅), p).
Proof. reflexivity. Qed.

(** X18. [getAllExistingConversations] changes nothing and returns a map
    that is sound and complete for the markdown files of the vault: an
    identifier is mapped to a path only if the file at that path has a name
    ending in [.md] and the search finds that identifier in it, and the
    identifier found in any such file is a key of the map. *)
Theorem getAllExistingConversations_sound_and_complete (p : Plugin) :
  exists conversations,
    getAllExistingConversations p = (Return conversations, p)
    /\ (forall conversationId filePath,
          conversations !! conversationId = Some filePath ->
          exists content,
            vault p !! filePath = Some (TFile content)
            /\ endsWith filePath ".md" = true
            /\ conversationIdOf content = Some conversationId)
    /\ (forall filePath content conversationId,
          vault p !! filePath = Some (TFile content) ->
          endsWith filePath ".md" = true ->
          conversationIdOf content = Some conversationId ->
          is_Some (conversations !! conversationId)).
Proof.
  eexists. split; [apply getAllExistingConversations_fold |].
  destruct (noteConversation_fold (map_to_list (vault p)) ∅) as (Hsound & _ & Hfound).
  split.
  - intros i f Hf. destruct (Hsound i f Hf) as [H | (content & Hin & Hmd & Hid)].
    + rewrite lookup_empty in H. discriminate.
    + exists content. split; [now apply elem_of_map_to_list | auto].
  - intros f c i Hf Hmd Hid. apply (Hfound f c i); [| assumption | assumption].
    now apply elem_of_map_to_list.
Qed.

Section GeneratedVault.
Context {U : Utils}.

(** X19. The notes the plugin generates are not found by its own search:
    the regular expression of [getAllExistingConversations] wants
    [conversation_id:] right after the opening [---], and a generated note has
    its [aliases:] line there. So for a vault whose markdown files are all
    generated notes (with title, identifier, times and message identifiers on
    one line each and message texts without carriage return),
    [getAllExistingConversations] returns the empty map. *)
Theorem generated_notes_are_not_found (p : Plugin) :
  (forall filePath content,
      vault p !! filePath = Some (TFile content) ->
      endsWith filePath ".md" = true ->
      generatedNote content) ->
  getAllExistingConversations p = (Return ∅, p).
Proof.
  intros Hvault. rewrite getAllExistingConversations_fold. f_equal. f_equal.
  apply map_eq. intros i. rewrite lookup_empty.
  destruct (fold_left noteConversation (map_to_list (vault p)) ∅ !! i) as [f |] eqn:E;
    [| reflexivity].
  destruct (noteConversation_fold (map_to_list (vault p)) ∅) as (Hsound & _ & _).
  destruct (Hsound i f E) as [H | (content & Hin & Hmd & Hid)].
  - rewrite lookup_empty in H. discriminate.
  - apply elem_of_map_to_list in Hin.
    destruct (Hvault f content Hin Hmd) as (now & chat & -> & Hheader & Hmessages).
    unfold conversationIdOf in Hid.
    rewrite (search_generated now chat Hheader Hmessages) in Hid. discriminate.
Qed.

End GeneratedVault.

Lemma generated_notes_are_not_found_witness :
  getAllExistingConversations generatedVault = (Return ∅, generatedVault).
Proof.
  apply (generated_notes_are_not_found (U := specUtils)).
  intros filePath content Hfile _.
  unfold generatedVault in Hfile. cbn [vault setVault] in Hfile.
  apply lookup_singleton_Some in Hfile as [_ Hcontent].
  injection Hcontent as <-.
  exists 1700000200, sampleChat. split; [reflexivity |]. split; reflexivity.
Defined.

(** *** Front matter that begins with the identifier *)

Lemma rev_app_rev_app (s a b : string) :
  String.rev_app (String.rev_app s a) b = String.rev_app a (s +:+ b).
Proof.
  revert a b. induction s as [|c s IH]; intros a b; [reflexivity |].
  cbn [String.rev_app]. rewrite IH. reflexivity.
Qed.

Lemma rev_involutive (s : string) : String.rev (String.rev s) = s.
Proof. unfold String.rev. rewrite rev_app_rev_app. cbn. apply append_nil_r. Qed.

Lemma allChars_rev_app (f : ascii -> bool) (s a : string) :
  allChars f s = true -> allChars f a = true -> allChars f (String.rev_app s a) = true.
Proof.
  revert a. induction s as [|c s IH]; intros a Hs Ha; [exact Ha |].
  cbn [allChars] in Hs. apply andb_prop in Hs as [Hc Hs].
  cbn [String.rev_app]. apply IH; [exact Hs |]. cbn [allChars]. now rewrite Hc, Ha.
Qed.

Lemma dropWhile_none (s : string) :
  allChars notWhiteSpace s = true -> dropWhile isWhiteSpace s = s.
Proof.
  destruct s as [|c s]; [reflexivity |]. cbn [allChars dropWhile].
  intros [Hc _]%andb_prop. unfold notWhiteSpace in Hc. apply negb_true_iff in Hc.
  now rewrite Hc.
Qed.

Lemma trim_none (s : string) : allChars notWhiteSpace s = true -> trim s = s.
Proof.
  intros H. unfold trim. rewrite (dropWhile_none s H).
  rewrite dropWhile_none by (now apply allChars_rev_app).
  apply rev_involutive.
Qed.

Lemma lazyUntilDashes_identifier (i rest : string) :
  allChars notWhiteSpace i = true ->
  includes i "---" = false ->
  lazyUntilDashes (i +:+ nl +:+ "---" +:+ rest) = Some i.
Proof.
  intros Hws Hdashes. induction i as [|c i IH].
  - reflexivity.
  - cbn [includes] in Hdashes. apply orb_false_elim in Hdashes as [Hc Hi].
    cbn [allChars] in Hws. apply andb_prop in Hws as [Hcw Hiw].
    unfold notWhiteSpace in Hcw. apply negb_true_iff in Hcw.
    change (String c i +:+ nl +:+ "---" +:+ rest)
      with (String c (i +:+ nl +:+ "---" +:+ rest)).
    cbn [lazyUntilDashes dropWhile]. rewrite Hcw.
    change (String c (i +:+ nl +:+ "---" +:+ rest))
      with (String c i +:+ String "010" ("---" +:+ rest)).
    rewrite startsWith_app_sep by reflexivity. rewrite Hc.
    change (String c i +:+ String "010" ("---" +:+ rest))
      with (String c (i +:+ nl +:+ "---" +:+ rest)).
    now rewrite (IH Hiw Hi).
Qed.

Lemma matchConversationId_front (x : string) :
  matchConversationId ("---" +:+ nl +:+ "conversation_id: " +:+ x)
  = lazyUntilDashes (dropWhile isWhiteSpace x).
Proof. reflexivity. Qed.

Lemma search_match (s capture : string) :
  matchConversationId s = Some capture -> searchConversationId true s = Some capture.
Proof. intros H. destruct s; cbn [searchConversationId]; now rewrite H. Qed.

(** X20. A note whose text begins with the front matter
    [---], [conversation_id: ] and the identifier, then [---] on the next
    line, is recognised: for an identifier without white space and without
    [---] the search returns the identifier, whatever follows. *)
Theorem front_matter_identifier_is_found (conversationId rest : string) :
  allChars notWhiteSpace conversationId = true ->
  includes conversationId "---" = false ->
  conversationIdOf ("---" +:+ nl +:+ "conversation_id: " +:+ conversationId +:+ nl
                    +:+ "---" +:+ rest)
  = Some conversationId.
Proof.
  intros Hws Hdashes. unfold conversationIdOf.
  rewrite (search_match _ conversationId).
  - cbn [fmap option_fmap option_map]. now rewrite trim_none.
  - rewrite matchConversationId_front.
    destruct conversationId as [|c i]; [reflexivity |].
    pose proof Hws as Hws'. cbn [allChars] in Hws'. apply andb_prop in Hws' as [Hcw _].
    unfold notWhiteSpace in Hcw. apply negb_true_iff in Hcw.
    change (String c i +:+ nl +:+ "---" +:+ rest)
      with (String c (i +:+ nl +:+ "---" +:+ rest)).
    cbn [dropWhile]. rewrite Hcw.
    change (String c (i +:+ nl +:+ "---" +:+ rest))
      with (String c i +:+ nl +:+ "---" +:+ rest).
    now apply lazyUntilDashes_identifier.
Qed.

Lemma front_matter_identifier_is_found_witness :
  conversationIdOf oldNote = Some "old-1".
Proof.
  apply (front_matter_identifier_is_found "old-1" (nl +:+ "An earlier note")); reflexivity.
Defined.

(** ** Conversations of one archive with the same file name *)

Lemma md_not_slash (x u : string) : x +:+ ".md" <> u +:+ "/".
Proof.
  revert u. induction x as [|c x IH]; intros u H.
  - destruct u as [|c1 [|c2 [|c3 [|c4 u]]]]; discriminate.
  - destruct u as [|c' u]; [destruct x; discriminate |].
    injection H as _ H. now apply IH in H.
Qed.

Lemma endsWith_md_slash (x : string) : endsWith (x +:+ ".md") "/" = false.
Proof.
  destruct (endsWith (x +:+ ".md") "/") eqn:E; [| reflexivity].
  apply endsWith_inv in E as [u Hu]. now apply md_not_slash in Hu.
Qed.

Lemma folderPaths_slash (folders : list string) (currentPath visitedPath : string) :
  visitedPath ∈ folderPaths currentPath folders -> endsWith visitedPath "/" = true.
Proof.
  revert currentPath. induction folders as [|folder rest IH]; intros currentPath Hin.
  - now apply elem_of_nil in Hin.
  - cbn [folderPaths] in Hin. apply elem_of_cons in Hin as [-> | Hin]; [| now apply IH in Hin].
    rewrite <- append_assoc. apply endsWith_append.
Qed.

Section Twins.
Context {U : Utils}.
Variable host : Host.

Lemma getUniqueFileName_md (settings : PluginSettings) (chat : Chat) (folderPath : string)
    (existingConversations : gmap string string) :
  exists stem,
    getUniqueFileName settings chat folderPath existingConversations = stem +:+ ".md".
Proof.
  unfold getUniqueFileName.
  destruct (nameTaken existingConversations folderPath (getFileName settings chat)) eqn:E.
  - destruct (getUniqueFileName_loop_returns settings chat folderPath existingConversations E)
      as (n & _ & -> & _).
    cbn [default]. unfold from_option, id.
    rewrite getFileName_stem, numbered_stem.
    exists (fileStem settings chat +:+ " (" +:+ decimal n +:+ ")").
    now rewrite !append_assoc.
  - cbn [uniqueLoop]. rewrite E. cbn [default]. unfold from_option, id.
    exists (fileStem settings chat). apply getFileName_stem.
Qed.

Lemma notePath_not_folder (settings : PluginSettings) (chat : Chat) (folderPath : string)
    (existingConversations : gmap string string) :
  endsWith (folderPath +:+ "/" +:+
            getUniqueFileName settings chat folderPath existingConversations) "/" = false.
Proof.
  destruct (getUniqueFileName_md settings chat folderPath existingConversations) as [stem ->].
  rewrite <- !append_assoc. apply endsWith_md_slash.
Qed.

(** On a host that accepts, the folder of a conversation is made, and no
    path that is not the path of a folder is touched. *)
Lemma createFolderForChat_succeeds (chat : Chat) (p : Plugin) :
  hostAccepts host -> filesAreNotFolders (vault p) ->
  exists p0,
    createFolderForChat host chat p
    = (Return (archiveFolder (settings p) +:+ "/" +:+ getYearMonthFolder (chat_create_time chat)),
       p0)
    /\ Quiet p p0 /\ filesAreNotFolders (vault p0)
    /\ (forall filePath, endsWith filePath "/" = false ->
                         vault p0 !! filePath = vault p !! filePath).
Proof.
  intros Hhost Hvault. unfold createFolderForChat, bind at 1, get at 1.
  unfold bind at 1, ensureFolderExists.
  set (folders := filter (fun f => negb (String.eqb f "")) _).
  destruct (ensureFolders_succeeds host folders "" p Hhost Hvault) as (p0 & Hrun & Hq & Hv0).
  destruct (ensureFolders_spec host folders "" p) as (r & q & Hspec & Hgrow & Hnew & _).
  rewrite Hrun in Hspec. injection Hspec as <- <-.
  rewrite Hrun. exists p0. split; [reflexivity |]. split; [exact Hq |]. split; [exact Hv0 |].
  intros f Hf. destruct (vault p !! f) as [x |] eqn:E.
  - now apply Hgrow.
  - destruct (Hnew f E) as [H | [_ Hin]]; [exact H |].
    apply folderPaths_slash in Hin. congruence.
Qed.

(** The state after a new conversation is written. *)
Lemma new_chat_written (chat : Chat) (existingConversations : gmap string string)
    (p p0 : Plugin) (folderPath : string) :
  createFolderForChat host chat p = (Return folderPath, p0) ->
  conversationRecords p !! chat_id chat = None ->
  createError host (folderPath +:+ "/" +:+ getUniqueFileName (settings p) chat folderPath
                                              existingConversations) = None ->
  modifyError host (folderPath +:+ "/" +:+ getUniqueFileName (settings p) chat folderPath
                                              existingConversations) = None ->
  vault p0 !! (folderPath +:+ "/" +:+ getUniqueFileName (settings p) chat folderPath
                                        existingConversations) <> Some TFolder ->
  vault (exec (processSingleChat host chat existingConversations) p)
  = <[folderPath +:+ "/" +:+ getUniqueFileName (settings p) chat folderPath
                               existingConversations
      := TFile (generateMarkdownContent (clock host) chat)]> (vault p0)
  /\ conversationRecords (exec (processSingleChat host chat existingConversations) p)
     = <[chat_id chat := {| path := folderPath +:+ "/" +:+ getFileName (settings p) chat;
                           updateTime := chat_update_time chat |}]> (conversationRecords p)
  /\ settings (exec (processSingleChat host chat existingConversations) p) = settings p
  /\ map filePath (created (importLog (exec (processSingleChat host chat existingConversations)
                                            p)))
     = map filePath (created (importLog p))
       ++ [folderPath +:+ "/" +:+ getUniqueFileName (settings p) chat folderPath
                                    existingConversations].
Proof.
  intros Hfolder Hnone Hcreate Hmodify Hnotfolder.
  pose proof (createFolderForChat_quiet host chat p) as Hq. unfold exec in Hq.
  rewrite Hfolder in Hq. cbn [snd] in Hq.
  pose proof (quiet_settings _ _ Hq) as Hset.
  pose proof (quiet_records _ _ Hq) as Hrec.
  pose proof (quiet_created _ _ Hq) as Hcr.
  unfold exec. remember (processSingleChat host chat existingConversations p) as run eqn:Hrun.
  rewrite (processSingleChat_after_folder host chat existingConversations p p0 folderPath
             Hfolder), Hnone in Hrun.
  unfold handleNewChat, createNewNote in Hrun.
  unfold tryCatch at 1, bind at 1, bind at 1, update at 1 in Hrun.
  unfold tryCatch at 1, bind at 1, get at 1 in Hrun.
  cbv beta iota in Hrun.
  change (settings (setCounters (incrNewToImport (counters p0)) p0)) with (settings p0) in Hrun.
  rewrite Hset in Hrun.
  set (notePath := folderPath +:+ "/" +:+ getUniqueFileName (settings p) chat folderPath
                                            existingConversations) in *.
  unfold bind at 1, writeToFile, tryCatch at 1, bind at 1, get at 1 in Hrun.
  cbv beta iota in Hrun.
  change (vault (setCounters (incrNewToImport (counters p0)) p0)) with (vault p0) in Hrun.
  destruct (vault p0 !! notePath) as [[content |] |] eqn:E.
  - unfold vaultModify in Hrun. rewrite Hmodify in Hrun.
    unfold updateConversationRecord, bind, update in Hrun. cbv beta iota in Hrun.
    subst run. cbn [snd]. unfold setConversationRecords, setCounters, setImportLog, setVault.
    cbn [vault conversationRecords settings importLog created addCreated].
    rewrite Hset, Hrec, Hcr, map_app. auto.
  - now contradiction Hnotfolder.
  - unfold vaultCreate in Hrun. rewrite Hcreate in Hrun.
    unfold bind at 1, bind at 1, bind at 1, get at 1 in Hrun. cbv beta iota in Hrun.
    change (vault (setCounters (incrNewToImport (counters p0)) p0)) with (vault p0) in Hrun.
    rewrite E in Hrun.
    unfold updateConversationRecord, bind, update in Hrun. cbv beta iota in Hrun.
    subst run. cbn [snd]. unfold setConversationRecords, setCounters, setImportLog, setVault.
    cbn [vault conversationRecords settings importLog created addCreated].
    rewrite Hset, Hrec, Hcr, map_app. auto.
Qed.

(** X21. The existing conversations are read once, before the loop, and
    the notes written during a run are not added to them: two new
    conversations of one archive that have the same file name and the same
    month folder get the same path. On a host that accepts every change, from
    a vault whose files are not folders and in which that path is free, the
    second conversation overwrites the note of the first; both are listed as
    created and both records name the one path. *)
Theorem same_name_conversations_share_one_note (first second : Chat)
    (existingConversations : gmap string string) (p : Plugin) :
  let folderPath :=
    archiveFolder (settings p) +:+ "/" +:+ getYearMonthFolder (chat_create_time first) in
  let notePath :=
    folderPath +:+ "/" +:+ getUniqueFileName (settings p) first folderPath
                             existingConversations in
  let p' := exec (processChats host [first; second] existingConversations) p in
  hostAcceptsAll host ->
  filesAreNotFolders (vault p) ->
  chat_id first <> chat_id second ->
  conversationRecords p !! chat_id first = None ->
  conversationRecords p !! chat_id second = None ->
  getFileName (settings p) first = getFileName (settings p) second ->
  getYearMonthFolder (chat_create_time first) = getYearMonthFolder (chat_create_time second) ->
  vault p !! notePath = None ->
  vault p' !! notePath = Some (TFile (generateMarkdownContent (clock host) second))
  /\ map filePath (created (importLog p'))
     = map filePath (created (importLog p)) ++ [notePath; notePath]
  /\ path <$> conversationRecords p' !! chat_id first
     = Some (folderPath +:+ "/" +:+ getFileName (settings p) first)
  /\ path <$> conversationRecords p' !! chat_id second
     = Some (folderPath +:+ "/" +:+ getFileName (settings p) first).
Proof.
  intros folderPath notePath p'.
  intros [Hhost Hmodify] Hvault Hids Hnone1 Hnone2 Hname Hmonth Hfree.
  (* the first conversation *)
  destruct (createFolderForChat_succeeds first p Hhost Hvault)
    as (p0 & Hfolder1 & Hq1 & Hv0 & Hsame0).
  fold folderPath in Hfolder1.
  assert (Hslash : endsWith notePath "/" = false) by apply notePath_not_folder.
  assert (Hfree0 : vault p0 !! notePath = None) by (now rewrite Hsame0).
  destruct (new_chat_written first existingConversations p p0 folderPath Hfolder1 Hnone1)
    as (Hvault1 & Hrecords1 & Hsettings1 & Hcreated1).
  { apply Hhost. } { apply Hmodify. } { fold notePath. now rewrite Hfree0. }
  fold notePath in Hvault1, Hcreated1.
  set (p1 := exec (processSingleChat host first existingConversations) p) in *.
  (* the second conversation *)
  assert (Hv1 : filesAreNotFolders (vault p1)).
  { intros f c. rewrite Hvault1. destruct (decide (notePath = f)) as [<- | Hne].
    - intros _. exact Hslash.
    - rewrite lookup_insert_ne by exact Hne. apply Hv0. }
  destruct (createFolderForChat_succeeds second p1 Hhost Hv1)
    as (p2 & Hfolder2 & Hq2 & _ & Hsame2).
  rewrite Hsettings1, <- Hmonth in Hfolder2. fold folderPath in Hfolder2.
  assert (Hnone2' : conversationRecords p1 !! chat_id second = None).
  { rewrite Hrecords1, lookup_insert_ne by exact Hids. exact Hnone2. }
  assert (Hunique : getUniqueFileName (settings p1) second folderPath existingConversations
                    = getUniqueFileName (settings p) first folderPath existingConversations).
  { unfold getUniqueFileName. now rewrite Hsettings1, Hname. }
  assert (Hthere : vault p2 !! notePath
                   = Some (TFile (generateMarkdownContent (clock host) first))).
  { rewrite Hsame2 by exact Hslash. rewrite Hvault1. apply lookup_insert_eq. }
  destruct (new_chat_written second existingConversations p1 p2 folderPath Hfolder2 Hnone2')
    as (Hvault2 & Hrecords2 & _ & Hcreated2).
  { apply Hhost. } { apply Hmodify. }
  { rewrite Hunique. fold notePath. rewrite Hthere. discriminate. }
  rewrite Hunique in Hvault2, Hcreated2. fold notePath in Hvault2, Hcreated2.
  assert (Hp' : p' = exec (processSingleChat host second existingConversations) p1).
  { unfold p'. rewrite processChats_cons. fold p1. rewrite processChats_cons. reflexivity. }
  rewrite Hp'. split; [| split; [| split]].
  - rewrite Hvault2. apply lookup_insert_eq.
  - rewrite Hcreated2, Hcreated1, <- app_assoc. reflexivity.
  - rewrite Hrecords2, lookup_insert_ne by (intros H; now apply Hids).
    rewrite Hrecords1, lookup_insert_eq. reflexivity.
  - rewrite Hrecords2, lookup_insert_eq. cbn. now rewrite Hsettings1, Hname.
Qed.

End Twins.

Lemma same_name_conversations_share_one_note_witness :
  vault (exec (processChats (U := specUtils) quietHost [sampleChat; twinChat] ∅) freshPlugin)
    !! "ChatGPT Archives/2023-11/Chat.md"
  = Some (TFile (generateMarkdownContent (U := specUtils) 1700000200 twinChat)).
Proof.
  pose proof (same_name_conversations_share_one_note (U := specUtils) quietHost
                sampleChat twinChat ∅ freshPlugin) as H.
  cbv zeta in H.
  assert (Hhost : hostAcceptsAll quietHost).
  { split; [split |]; intros ?; reflexivity. }
  assert (Hvault : filesAreNotFolders (vault freshPlugin)).
  { intros f c Hf. cbn in Hf. rewrite lookup_empty in Hf. discriminate. }
  specialize (H Hhost Hvault).
  destruct H as [H _]; [discriminate | reflexivity | reflexivity | reflexivity
                       | vm_compute; reflexivity | reflexivity |].
  exact H.
Defined.

(** ** The hash of an archive *)

Lemma hexOfHash_cons (b : Byte.byte) (hashArray : list Byte.byte) :
  hexOfHash (b :: hashArray) = padStart 2 "0" (toString16 b) +:+ hexOfHash hashArray.
Proof.
  unfold hexOfHash. cbn [map]. destruct hashArray as [|b' rest].
  - cbn [map join String.concat]. now rewrite append_nil_r.
  - reflexivity.
Qed.

Lemma hex_byte (b : Byte.byte) :
  exists c1 c2,
    padStart 2 "0" (toString16 b) = String c1 (String c2 "")
    /\ Byte.of_nat (16 * hexValue c1 + hexValue c2) = Some b
    /\ isHexDigit c1 && isHexDigit c2 = true.
Proof. destruct b; eexists _, _; repeat split; reflexivity. Qed.

(** X22. The hexadecimal form that [getFileHash] gives a digest can be read
    back: it has two characters for every byte, all of them digits or letters
    from [a] to [f], and decoding it gives the bytes of the digest. So two
    digests have the same key in the archive catalog only if they are the same
    digest. *)
Theorem hexOfHash_reads_back (hashArray : list Byte.byte) :
  String.length (hexOfHash hashArray) = (2 * length hashArray)%nat
  /\ allChars isHexDigit (hexOfHash hashArray) = true
  /\ bytesOfHex (hexOfHash hashArray) = hashArray.
Proof.
  induction hashArray as [|b rest (IHlen & IHdigits & IHbytes)]; [repeat split; reflexivity |].
  rewrite hexOfHash_cons. destruct (hex_byte b) as (c1 & c2 & -> & Hb & Hdigits).
  apply andb_prop in Hdigits as [H1 H2]. split; [| split].
  - cbn [String.append String.length length]. rewrite IHlen. lia.
  - cbn [String.append allChars]. now rewrite H1, H2, IHdigits.
  - cbn [String.append bytesOfHex]. rewrite Hb. now rewrite IHbytes.
Qed.

(** ** Persistent data *)

(** X23. What [saveSettings] saves, [loadSettings] restores: loading the
    saved object gives the settings and both catalogs of the saving state,
    whatever the loading state was. Keys that are missing are defaulted: with
    no data at all the settings are the default settings and the catalogs are
    empty. *)
Theorem loadSettings_restores_saved (p q : Plugin) :
  settings (exec (loadSettings (storedOf <$> savedData (exec saveSettings p))) q) = settings p
  /\ importedArchives (exec (loadSettings (storedOf <$> savedData (exec saveSettings p))) q)
     = importedArchives p
  /\ conversationRecords (exec (loadSettings (storedOf <$> savedData (exec saveSettings p))) q)
     = conversationRecords p
  /\ settings (exec (loadSettings None) q) = DEFAULT_SETTINGS
  /\ importedArchives (exec (loadSettings None) q) = ∅
  /\ conversationRecords (exec (loadSettings None) q) = ∅.
Proof.
  repeat split; try reflexivity.
  cbn. now destruct (settings p).
Qed.

Section ResetThenImport.
Context {U : Utils}.
Variable host : Host.


End ResetThenImport.


(** ** File names *)

Section FreeNames.
Context {U : Utils}.

(** X25. For every conversation, folder and map of existing conversations,
    [getUniqueFileName] returns (its loop ends), the name it returns is not
    taken (no existing path contains the folder path and ends with the name),
    the name ends with [.md], and it is the plain file name of the
    conversation when that one is not taken. *)
Theorem getUniqueFileName_is_free (settings : PluginSettings) (chat : Chat)
    (folderPath : string) (existingConversations : gmap string string) :
  nameTaken existingConversations folderPath
    (getUniqueFileName settings chat folderPath existingConversations) = false
  /\ endsWith (getUniqueFileName settings chat folderPath existingConversations) ".md" = true
  /\ (nameTaken existingConversations folderPath (getFileName settings chat) = false ->
      getUniqueFileName settings chat folderPath existingConversations
      = getFileName settings chat).
Proof.
  assert (Hbase : nameTaken existingConversations folderPath (getFileName settings chat) = false
                  -> getUniqueFileName settings chat folderPath existingConversations
                     = getFileName settings chat).
  { intros E. unfold getUniqueFileName. cbn [uniqueLoop]. now rewrite E. }
  split; [| split; [| exact Hbase]].
  - destruct (nameTaken existingConversations folderPath (getFileName settings chat)) eqn:E.
    + destruct (getUniqueFileName_loop_returns settings chat folderPath existingConversations E)
        as (n & _ & Hloop & Hfree & _).
      unfold getUniqueFileName. rewrite Hloop. exact Hfree.
    + now rewrite (Hbase eq_refl).
  - destruct (nameTaken existingConversations folderPath (getFileName settings chat)) eqn:E.
    + destruct (getUniqueFileName_loop_returns settings chat folderPath existingConversations E)
        as (n & _ & Hloop & _).
      unfold getUniqueFileName. rewrite Hloop. cbn [default]. unfold from_option, id.
      unfold numbered. change ").md" with (")" +:+ ".md").
      rewrite <- !append_assoc. apply endsWith_append.
    + rewrite (Hbase eq_refl). unfold getFileName. apply endsWith_append.
Qed.

End FreeNames.

(** ** The tables of the report *)

Lemma generateTable_rows (heading emoji : string) (entries : list LogEntry) :
  generateTable heading entries emoji
  = "## " +:+ heading +:+ nl +:+ nl +:+
    "| | Title | Created | Updated |" +:+ nl +:+
    "|---|:---|:---:|:---:|" +:+ nl +:+
    fold_right (fun entry rest => tableRow emoji entry +:+ rest) "" entries +:+ nl +:+ nl.
Proof.
  assert (Hrows : fold_right (fun entry rest => tableRow emoji entry +:+ rest) "" entries
                  = fold_right (fun entry rest =>
                       "| " +:+ emoji +:+ " | [[" +:+ filePath entry +:+ "\|"
                       +:+ trim (newlinesToSpaces (title entry)) +:+ "]] | "
                       +:+ createDate entry +:+ " | " +:+ updateDate entry +:+ " |" +:+ nl
                       +:+ rest) "" entries).
  { induction entries as [|entry entries IH]; [reflexivity |].
    cbn [fold_right]. rewrite IH. unfold tableRow. now rewrite !append_assoc. }
  unfold generateTable. now rewrite Hrows.
Qed.

Lemma generateErrorTable_rows (heading emoji : string) (entries : list (string * string)) :
  generateErrorTable heading entries emoji
  = "## " +:+ heading +:+ nl +:+ nl +:+
    "| | Error | Details |" +:+ nl +:+
    "|---|:---|:---|" +:+ nl +:+
    fold_right (fun entry rest => errorRow emoji entry +:+ rest) "" entries +:+ nl +:+ nl.
Proof.
  assert (Hrows : fold_right (fun entry rest => errorRow emoji entry +:+ rest) "" entries
                  = fold_right (fun entry rest =>
                       "| " +:+ emoji +:+ " | " +:+ fst entry +:+ " | " +:+ snd entry +:+ " |"
                       +:+ nl +:+ rest) "" entries).
  { induction entries as [|entry entries IH]; [reflexivity |].
    cbn [fold_right]. rewrite IH. unfold errorRow. now rewrite !append_assoc. }
  unfold generateErrorTable. now rewrite Hrows.
Qed.

Lemma includes_rows {A} (row : A -> string) (entries : list A) (entry : A) :
  entry ∈ entries ->
  includes (fold_right (fun e rest => row e +:+ rest) "" entries) (row entry) = true.
Proof.
  induction entries as [|e entries IH]; intros Hin; [now apply elem_of_nil in Hin |].
  cbn [fold_right]. apply elem_of_cons in Hin as [<- | Hin].
  - apply includes_append.
  - apply includes_append_r. now apply IH.
Qed.

Lemma generateTable_includes (heading emoji : string) (entries : list LogEntry)
    (entry : LogEntry) :
  entry ∈ entries ->
  includes (whenNonEmpty entries (generateTable heading entries emoji)) (tableRow emoji entry)
  = true.
Proof.
  intros Hin. destruct entries as [|e entries]; [now apply elem_of_nil in Hin |].
  cbn [whenNonEmpty]. rewrite generateTable_rows.
  repeat first [ apply includes_append_l; now apply includes_rows | apply includes_append_r ].
Qed.

Lemma generateErrorTable_includes (heading emoji : string) (entries : list (string * string))
    (entry : string * string) :
  entry ∈ entries ->
  includes (whenNonEmpty entries (generateErrorTable heading entries emoji))
           (errorRow emoji entry) = true.
Proof.
  intros Hin. destruct entries as [|e entries]; [now apply elem_of_nil in Hin |].
  cbn [whenNonEmpty]. rewrite generateErrorTable_rows.
  repeat first [ apply includes_append_l; now apply includes_rows | apply includes_append_r ].
Qed.

(** X26. The report shows every entry of the log: for each entry of the
    created, updated, skipped and failed lists the text of
    [generateLogContent] holds the row of that entry (pictogram, link to the
    file with the title on one line, and the two dates), and for each global
    error the row with its message and details. *)
Theorem generateLogContent_shows_every_entry (log : ImportLog) :
  (forall entry, entry ∈ created log ->
                 includes (generateLogContent log) (tableRow emojiCreated entry) = true)
  /\ (forall entry, entry ∈ updated log ->
                    includes (generateLogContent log) (tableRow emojiUpdated entry) = true)
  /\ (forall entry, entry ∈ skipped log ->
                    includes (generateLogContent log) (tableRow emojiSkipped entry) = true)
  /\ (forall entry, entry ∈ failed log ->
                    includes (generateLogContent log) (tableRow emojiFailed entry) = true)
  /\ (forall entry, entry ∈ globalErrors log ->
                    includes (generateLogContent log) (errorRow emojiGlobal entry) = true).
Proof.
  unfold generateLogContent.
  repeat split; intros entry Hin.
  all: repeat first
    [ now apply generateErrorTable_includes
    | apply includes_append_l; now apply generateTable_includes
    | apply includes_append_r ].
Qed.

Lemma generateTable_withoutDetails (heading emoji : string) (entries : list LogEntry) :
  generateTable heading (map withoutDetails entries) emoji = generateTable heading entries emoji.
Proof.
  assert (Hrows : forall (row : LogEntry -> string),
             (forall entry, row (withoutDetails entry) = row entry) ->
             fold_right (fun entry rest => row entry +:+ rest) "" (map withoutDetails entries)
             = fold_right (fun entry rest => row entry +:+ rest) "" entries).
  { intros row Hrow. induction entries as [|entry entries IH]; [reflexivity |].
    cbn [map fold_right]. now rewrite IH, Hrow. }
  rewrite !generateTable_rows. now rewrite Hrows.
Qed.

Lemma whenNonEmpty_map {A B} (f : A -> B) (l : list A) (s : string) :
  whenNonEmpty (map f l) s = whenNonEmpty l s.
Proof. now destruct l. Qed.

(** X27. The reason of a skipped entry and the error message of a failed
    entry never reach the report: [generateLogContent] gives the same text for
    a log and for the log with these two fields erased from every entry. (The
    message of a failed merge is shown only as the global error that
    [updateExistingNote] logs beside it.) *)
Theorem generateLogContent_ignores_details (log : ImportLog) :
  generateLogContent (eraseDetails log) = generateLogContent log.
Proof.
  unfold generateLogContent, eraseDetails.
  cbn [created updated skipped failed globalErrors summary].
  now rewrite !whenNonEmpty_map, !generateTable_withoutDetails.
Qed.

(** ** Merge candidates *)

Section Candidates.
Context {U : Utils}.

Lemma includesId_app (ids more : list string) (i : string) :
  includesId (ids ++ more) i = includesId ids i || includesId more i.
Proof. unfold includesId. apply existsb_app. Qed.

Lemma includesId_elem (ids : list string) (i : string) :
  i ∈ ids -> includesId ids i = true.
Proof.
  intros Hin. unfold includesId. apply existsb_exists. exists i.
  split; [now apply list_elem_of_In | apply String.eqb_refl].
Qed.

Lemma filter_none {A} (f : A -> bool) (l : list A) :
  (forall x, x ∈ l -> f x = false) -> filter (fun x => f x) l = [].
Proof.
  induction l as [|x l IH]; intros H; [reflexivity |].
  rewrite filter_cons. rewrite (H x) by apply list_elem_of_here.
  destruct (decide (Is_true false)) as [[] | _].
  apply IH. intros y Hy. apply H. now apply list_elem_of_further.
Qed.

(** X28. Once the identifiers of the merge candidates are among the
    identifiers of the note, no candidate is left: [getNewMessages], given the
    existing identifiers together with those of the messages it returned for
    them, returns nothing. *)
Theorem getNewMessages_none_after_merge (chat : Chat) (existingMessageIds : list string) :
  getNewMessages chat
    (existingMessageIds ++ idsOf (getNewMessages chat existingMessageIds)) = [].
Proof.
  unfold getNewMessages at 1.
  set (candidates := getNewMessages chat existingMessageIds).
  apply filter_none. intros message Hin.
  destruct (truthy (msg_id message)) eqn:Etruthy; [| reflexivity].
  destruct (isValidMessage message) eqn:Evalid; [| now rewrite andb_false_r].
  rewrite andb_true_r. cbn [andb]. apply negb_false_iff.
  destruct (msg_id message) as [i |] eqn:Eid; [| discriminate].
  cbn [default]. unfold from_option, id. rewrite includesId_app.
  destruct (includesId existingMessageIds i) eqn:Eold; [reflexivity |].
  cbn [orb]. apply includesId_elem. unfold idsOf. apply list_elem_of_omap.
  exists message. split; [| exact Eid].
  unfold candidates, getNewMessages. apply list_elem_of_filter. split; [| exact Hin].
  rewrite Eid. cbn [default]. unfold from_option, id.
  rewrite Etruthy, Eold, Evalid. exact I.
Qed.

End Candidates.

(** ** Nothing is removed from the vault *)

Lemma sameKind_refl (x : AbstractFile) : sameKind x x.
Proof. now destruct x. Qed.

Lemma sameKind_trans (x y z : AbstractFile) : sameKind x y -> sameKind y z -> sameKind x z.
Proof. destruct x, y, z; cbn; auto. Qed.

Lemma Grows_refl (p : Plugin) : Grows p p.
Proof. intros f x H. exists x. split; [exact H | apply sameKind_refl]. Qed.

Lemma Grows_trans (p q r : Plugin) : Grows p q -> Grows q r -> Grows p r.
Proof.
  intros H1 H2 f x Hx. destruct (H1 f x Hx) as (y & Hy & Hxy).
  destruct (H2 f y Hy) as (z & Hz & Hyz). exists z. split; [exact Hz |].
  eapply sameKind_trans; eassumption.
Qed.

Lemma Grows_same (p q : Plugin) : vault q = vault p -> Grows p q.
Proof. unfold Grows. intros ->. apply Grows_refl. Qed.

Lemma vaultGrows_insert_file (v : gmap string AbstractFile) (filePath content : string) :
  (v !! filePath = None \/ exists old, v !! filePath = Some (TFile old)) ->
  vaultGrows v (<[filePath := TFile content]> v).
Proof.
  intros Hat f x Hx. destruct (decide (filePath = f)) as [<- | Hne].
  - rewrite lookup_insert_eq. eexists. split; [reflexivity |].
    destruct Hat as [H | [old H]]; rewrite H in Hx; [discriminate |].
    injection Hx as <-. exact I.
  - rewrite lookup_insert_ne by exact Hne. exists x. split; [exact Hx | apply sameKind_refl].
Qed.

Section NothingRemoved.
Context {U : Utils}.
Variable host : Host.

Lemma ensureFolderExists_grows (folderPath : string) :
  preserves Grows (ensureFolderExists host folderPath).
Proof.
  intros p. unfold exec.
  destruct (ensureFolders_spec host (foldersOf folderPath) "" p)
    as (result & p1 & Hrun & Hgrow & _).
  unfold ensureFolderExists. fold (foldersOf folderPath). rewrite Hrun. cbn [snd].
  intros f x Hx. exists x. split; [now apply Hgrow | apply sameKind_refl].
Qed.

Lemma writeToFile_grows (fileName content : string) :
  preserves Grows (writeToFile host fileName content).
Proof.
  intros p. unfold exec, writeToFile, tryCatch, bind at 1, get at 1.
  destruct (vault p !! fileName) as [[old |] |] eqn:E.
  - unfold vaultModify. destruct (modifyError host fileName).
    + now apply Grows_same.
    + unfold update. cbn [snd]. apply vaultGrows_insert_file. eauto.
  - unfold vaultCreate. destruct (createError host fileName).
    + now apply Grows_same.
    + unfold bind at 1, get at 1. rewrite E. now apply Grows_same.
  - unfold vaultCreate. destruct (createError host fileName).
    + now apply Grows_same.
    + unfold bind at 1, get at 1. rewrite E.
      unfold update. cbn [snd]. apply vaultGrows_insert_file. auto.
Qed.

Lemma updateExistingNote_grows (chat : Chat) (filePath : string) :
  preserves Grows (updateExistingNote host chat filePath).
Proof.
  intros p. unfold exec, updateExistingNote, tryCatch, bind at 1, get at 1.
  destruct (vault p !! filePath) as [[old |] |] eqn:E.
  - destruct (processError host filePath).
    + now apply Grows_same.
    + unfold bind, update. cbn [snd]. apply vaultGrows_insert_file. eauto.
  - now apply Grows_same.
  - now apply Grows_same.
Qed.

Ltac grows_steps :=
  repeat match goal with
    | |- preserves _ (writeToFile _ _ _) => apply writeToFile_grows
    | |- preserves _ (updateExistingNote _ _ _) => apply updateExistingNote_grows
    | |- preserves _ (ensureFolderExists _ _) => apply ensureFolderExists_grows
    | |- preserves _ (bind _ _) => apply (preserves_bind _ Grows_trans)
    | |- preserves _ (tryCatch _ _) => apply (preserves_tryCatch _ Grows_trans)
    | |- preserves _ (tryFinally _ _) => apply (preserves_tryFinally _ Grows_trans)
    | |- preserves _ (ret _) => apply (preserves_ret _ Grows_refl)
    | |- preserves _ (throw _) => apply (preserves_throw _ Grows_refl)
    | |- preserves _ (get _) => apply (preserves_get _ Grows_refl)
    | |- preserves _ (update _) => intros ?; now apply Grows_same
    | |- preserves _ (logError _ _) => intros ?; now apply Grows_same
    | |- preserves _ (notice _) => intros ?; now apply Grows_same
    | |- preserves _ (match ?x with _ => _ end) => destruct x
    | |- forall _, _ => intro
    end.

Lemma processSingleChat_grows (chat : Chat) (existingConversations : gmap string string) :
  preserves Grows (processSingleChat host chat existingConversations).
Proof.
  unfold processSingleChat, createFolderForChat, handleNewChat, handleExistingChat,
    createNewNote, updateConversationRecord.
  grows_steps.
Qed.

Lemma processChats_grows (chats : list Chat) (existingConversations : gmap string string) :
  preserves Grows (processChats host chats existingConversations).
Proof.
  induction chats as [|chat rest IH]; cbn [processChats]; [grows_steps |].
  apply (preserves_bind _ Grows_trans); [apply processSingleChat_grows |].
  intros _. exact IH.
Qed.

(** X29. An import removes nothing from the vault: whatever the file, the
    host and the state, every path of the vault before [handleZipFile] is a
    path of the vault after it, and holds a file there if it held a file and a
    folder if it held a folder. *)
Theorem handleZipFile_removes_nothing (file : File) (p : Plugin) :
  vaultGrows (vault p) (vault (exec (handleZipFile host file) p)).
Proof.
  revert p. change (preserves Grows (handleZipFile host file)).
  unfold handleZipFile, validateZipFile, processConversations, extractChatsFromZip,
    getAllExistingConversations, updateImportLog, saveSettings, writeImportLog.
  grows_steps.
  all: try apply processChats_grows.
Qed.

End NothingRemoved.

(** ** An archive that cannot be opened *)

Section UnreadableArchive.
Context {U : Utils}.
Variable host : Host.

(** X30. An archive that cannot be opened as a zip container (and whose
    import is not declined) is handled like one without [conversations.json]:
    relative to the state with a fresh log, the settings, both catalogs, the
    counters, the saved data and the entry lists are unchanged and every file
    of the vault is a file from before or a report. The reason for which it
    could not be opened never reaches the log: the first global error is
    [Error handling zip file] with [Error validating zip file], and the run
    ends in the same state whatever the reason was. The last notice is the
    success notice. *)
Theorem unreadable_archive_hides_the_reason (file : File) (p : Plugin) (reason : string) :
  importedArchives p !! file_hash file = None \/ confirmAnswer host = true ->
  file_zip file = inl reason ->
  ReportOnly isImportReport (setImportLog newImportLog p) (exec (handleZipFile host file) p)
  /\ (exists more,
        globalErrors (importLog (exec (handleZipFile host file) p))
        = ("Error handling zip file", "Error validating zip file") :: more)
  /\ (forall other,
        exec (handleZipFile host (unreadable other file)) p
        = exec (handleZipFile host file) p)
  /\ (exists earlier,
        notices (exec (handleZipFile host file) p) = notices p ++ earlier ++ [noticeSuccess]).
Proof.
  intros Hgo Hzip.
  assert (Hrun : forall f, file_name f = file_name file -> file_hash f = file_hash file ->
                           (exists r, file_zip f = inl r) ->
                           exec (handleZipFile host f) p
                           = exec (reportRun host file)
                               (setImportLog
                                  (addError "Error handling zip file"
                                            "Error validating zip file" newImportLog) p)).
  { intros f Hname Hhash [r Hr]. unfold exec at 1.
    rewrite (handleZipFile_rejected host f p "Error validating zip file").
    - cbn [snd]. unfold reportRun. now rewrite Hname.
    - now rewrite Hhash.
    - unfold validateZipFile. now rewrite Hr. }
  rewrite (Hrun file eq_refl eq_refl (ex_intro _ reason Hzip)).
  set (q := setImportLog (addError "Error handling zip file" "Error validating zip file"
                                   newImportLog) p).
  destruct (reportRun_closes host file q eq_refl) as [Hrep [middle Hmiddle]].
  split; [| split; [| split]].
  - eapply ReportOnly_trans; [| exact Hrep].
    constructor; try reflexivity; [| auto]. now exists [("Error handling zip file",
                                                         "Error validating zip file")].
  - destruct (report_globalErrors _ _ _ Hrep) as [more Hmore]. exists more. exact Hmore.
  - intros other. apply (Hrun (unreadable other file)); [reflexivity | reflexivity |].
    now exists other.
  - exists middle. rewrite Hmiddle. unfold closingNotice.
    now rewrite (report_failed _ _ _ Hrep).
Qed.

End UnreadableArchive.

Lemma unreadable_archive_hides_the_reason_witness :
  exists more,
    globalErrors (importLog (exec (handleZipFile (U := specUtils) quietHost corruptFile)
                                  freshPlugin))
    = ("Error handling zip file", "Error validating zip file") :: more.
Proof.
  apply (unreadable_archive_hides_the_reason (U := specUtils) quietHost corruptFile freshPlugin
           "Can't find end of central directory" (or_introl eq_refl) eq_refl).
Defined.
